(** * ComfyClaw: provider transport, progress relay, job executor,
      pipeline and batch orchestration

    A shallow embedding of the parts of [scripts/comfyclaw.py] and
    [scripts/server.py] that carry the orchestration logic, together with
    the properties established about them.

    Conventions.
    - A byte is a [Z] in [0, 256); a byte string is a [list Z].
    - A socket is the list of bytes still to arrive before the peer closes
      the stream, plus the bytes written so far.
    - Python's [random] and [os.urandom] read an entropy source
      [nat -> Z] through a cursor, so every run is a function of it.
    - A JSON object is an association list in insertion order, read with
      first-match lookup, as a Python [dict] whose keys are distinct.
    - Python exceptions are values ([Raised], [Raise]). The recursion of
      [ws_recv] takes the number of nested calls the interpreter's stack
      has room for; [ws_recv] itself is the decoder on a stack with room
      for the stream at hand.
    - A [float] is the rational it is, an infinity or a NaN; arithmetic
      rounds to binary64, ties to even. *)

From Stdlib Require Import List ZArith Bool String Ascii Lia QArith.
From Stdlib Require Import Sorted Permutation.
Import ListNotations.

#[local] Set Warnings "-register-all".

Open Scope Z_scope.

(** ** Entropy *)

Module Rng.

Record t := mk { entropy : nat -> Z; cursor : nat }.

(** [random.randint(lo, hi)]: a value of [lo..hi], both ends included. *)
Definition randint (lo hi : Z) (g : t) : Z * t :=
  (lo + (entropy g (cursor g)) mod (hi - lo + 1),
   mk (entropy g) (S (cursor g))).

(** [os.urandom(n)]: [n] bytes. *)
Definition urandom (n : nat) (g : t) : list Z * t :=
  (map (fun i => (entropy g (cursor g + i)%nat) mod 256) (seq 0 n),
   mk (entropy g) (cursor g + n)%nat).

End Rng.

(** ** Frame codec ([ws_send], [ws_recv], [_recv_all]) *)

Module Codec.

Definition bytes := list Z.

Record socket := mkSock { inbox : bytes; outbox : bytes }.

(** [bytes(b ^ mask[i % 4] for i, b in enumerate(payload))] *)
Fixpoint xor_from (i : nat) (mask payload : bytes) : bytes :=
  match payload with
  | [] => []
  | b :: rest => Z.lxor b (nth (i mod 4) mask 0) :: xor_from (S i) mask rest
  end.

Definition xor_mask (mask payload : bytes) : bytes := xor_from 0 mask payload.

(** Big-endian digits of [v] on [n] bytes. *)
Fixpoint be_bytes (n : nat) (v : Z) : bytes :=
  match n with
  | O => []
  | S k => (Z.shiftr v (8 * Z.of_nat k)) mod 256 :: be_bytes k v
  end.

Fixpoint be_value (bs : bytes) : Z :=
  match bs with
  | [] => 0
  | b :: rest => b * 2 ^ (8 * Z.of_nat (List.length rest)) + be_value rest
  end.

(** [struct.pack(">H", v)] and [struct.pack(">Q", v)]: [struct.error] when
    [v] does not fit. *)
Definition struct_pack (n : nat) (v : Z) : option bytes :=
  if (0 <=? v) && (v <? 2 ^ (8 * Z.of_nat n)) then Some (be_bytes n v) else None.

(** [_recv_all(sock, n)]: exactly [n] bytes, or [None] once the peer has
    closed; what was read before the close is lost with it. A request is
    served whatever its size: the limit on the size of one [recv] call is
    not part of the socket. *)
Definition _recv_all (s : socket) (n : nat) : option bytes * socket :=
  if (n <=? List.length (inbox s))%nat
  then (Some (firstn n (inbox s)), mkSock (skipn n (inbox s)) (outbox s))
  else (None, mkSock [] (outbox s)).

Definition sendall (s : socket) (data : bytes) : socket :=
  mkSock (inbox s) (outbox s ++ data).

(** [ws_send], from the encoded JSON text on: header byte [0x81], the
    length field with the mask bit, the mask, the masked payload. *)
Definition ws_frame (mask payload : bytes) : option bytes :=
  let masked := xor_mask mask payload in
  let length := Z.of_nat (List.length masked) in
  let header :=
    if length <? 126 then Some [0x81; Z.lor 0x80 length]
    else if length <? 65536
      then option_map (fun p => [0x81; Z.lor 0x80 126] ++ p) (struct_pack 2 length)
      else option_map (fun p => [0x81; Z.lor 0x80 127] ++ p) (struct_pack 8 length) in
  option_map (fun h => h ++ mask ++ masked) header.

Definition ws_send (s : socket) (payload : bytes) (g : Rng.t)
  : option socket * Rng.t :=
  let '(mask, g') := Rng.urandom 4 g in
  (option_map (sendall s) (ws_frame mask payload), g').

Inductive recv_result :=
| Payload (p : bytes)      (* the frame's payload, handed to the caller *)
| Closed                   (* [None]: stream closed or close opcode *)
| Raised                   (* [struct.unpack] raises on a missing length *)
| RecursionError.          (* no room left for a call of [ws_recv] *)

(** [ws_recv] with room for [fuel] nested calls of itself on the
    interpreter's stack: every ping is answered in a call of its own, and
    the call that finds no room raises before it reads anything. *)
Fixpoint ws_recv_fuel (fuel : nat) (s : socket) (g : Rng.t)
  : recv_result * socket * Rng.t :=
  match fuel with
  | O => (RecursionError, s, g)
  | S fuel' =>
    match _recv_all s 2 with
    | (Some [h0; h1], s1) =>
      let opcode := Z.land h0 0x0F in
      let length := Z.land h1 0x7F in
      if opcode =? 0x8 then (Closed, s1, g)
      else if opcode =? 0x9 then
        let '(payload, s2) :=
          if length =? 0 then (Some [], s1) else _recv_all s1 (Z.to_nat length) in
        let '(mask, g') := Rng.urandom 4 g in
        let masked := xor_mask mask (match payload with Some p => p | None => [] end) in
        let frame := [0x8A; Z.lor 0x80 (Z.of_nat (List.length masked))] ++ mask ++ masked in
        ws_recv_fuel fuel' (sendall s2 frame) g'
      else
        let ext (n : nat) :=
          match _recv_all s1 n with
          | (Some bs, s2) => (Some (be_value bs), s2)
          | (None, s2) => (None, s2)
          end in
        let '(olen, s2) :=
          if length =? 126 then ext 2%nat
          else if length =? 127 then ext 8%nat
          else (Some length, s1) in
        match olen with
        | None => (Raised, s2, g)     (* struct.unpack on None *)
        | Some len =>
          let '(payload, s3) :=
            if len =? 0 then (Some [], s2) else _recv_all s2 (Z.to_nat len) in
          match payload with
          | None => (Closed, s3, g)
          | Some p => (Payload p, s3, g)
          end
        end
    | (_, s1) => (Closed, s1, g)
    end
  end.

(** [ws_recv] on a stack with room for the whole stream, which takes a
    call per ping at most. *)
Definition ws_recv (s : socket) (g : Rng.t) : recv_result * socket * Rng.t :=
  ws_recv_fuel (S (List.length (inbox s))) s g.

(** The frame a server sends for [payload]: the same header without the
    mask bit, no mask, the payload in clear. *)
Definition server_frame (b0 : Z) (payload : bytes) : bytes :=
  let length := Z.of_nat (List.length payload) in
  (if length <? 126 then [b0; length]
   else if length <? 65536 then [b0; 126] ++ be_bytes 2 length
   else [b0; 127] ++ be_bytes 8 length) ++ payload.

End Codec.

(** ** JSON values and Python's dynamic operations on them *)

Module Json.

Open Scope string_scope.

(** A Python [float]: a finite binary64 value, given by the rational it
    is, an infinity, or a NaN. The sign of a zero is not kept. *)
Inductive pyfloat :=
| Finite (q : Q)
| Inf (negative : bool)
| NaN.

(** What [json.loads] returns. A number without fraction and exponent is
    an [int] of any size; every other number is the [float] it is read
    as, [Infinity], [-Infinity] and [NaN] included. *)
Inductive json :=
| JNull
| JBool (b : bool)
| JInt (n : Z)
| JFloat (f : pyfloat)
| JStr (s : string)
| JArr (l : list json)
| JObj (kv : list (string * json)).

Definition dict (A : Type) := list (string * A).

(** [d.get(k)] *)
Fixpoint dict_get {A} (k : string) (d : dict A) : option A :=
  match d with
  | [] => None
  | (k', v) :: rest => if String.eqb k k' then Some v else dict_get k rest
  end.

(** [d[k] = v]: in place when the key exists, appended otherwise. *)
Fixpoint dict_set {A} (k : string) (v : A) (d : dict A) : dict A :=
  match d with
  | [] => [(k, v)]
  | (k', v') :: rest =>
    if String.eqb k k' then (k', v) :: rest else (k', v') :: dict_set k v rest
  end.

(** [d.get(k, default)] *)
Definition get_default {A} (k : string) (default : A) (d : dict A) : A :=
  match dict_get k d with Some v => v | None => default end.

Definition dict_keys {A} (d : dict A) : list string := map fst d.

(** [bool(v)] *)
Definition truthy (v : json) : bool :=
  match v with
  | JNull => false
  | JBool b => b
  | JInt n => negb (Z.eqb n 0)
  | JFloat (Finite q) => negb (Qeq_bool q 0)
  | JFloat _ => true
  | JStr s => negb (String.eqb s "")
  | JArr l => match l with [] => false | _ => true end
  | JObj kv => match kv with [] => false | _ => true end
  end.

(** [v == s] for a [str] [s] *)
Definition eq_str (v : json) (s : string) : bool :=
  match v with JStr s' => String.eqb s' s | _ => false end.

(** A number as Python holds it. *)
Inductive pynum :=
| PyInt (n : Z)
| PyFloat (f : pyfloat).

(** The number a value stands for in arithmetic; [bool] is a subtype of
    [int]. *)
Definition py_num (v : json) : option pynum :=
  match v with
  | JInt n => Some (PyInt n)
  | JBool b => Some (PyInt (if b then 1 else 0))
  | JFloat f => Some (PyFloat f)
  | _ => None
  end.

Inductive exn := AttributeError | TypeError | ZeroDivisionError | OverflowError.

(** *** Rounding to binary64 *)

(** [floor (log2 (a / b))] *)
Definition log2_ratio (a b : positive) : Z :=
  let k := (Z.log2 (Zpos a) - Z.log2 (Zpos b))%Z in
  if (0 <=? k)%Z
  then (if (Zpos b * 2 ^ k <=? Zpos a)%Z then k else k - 1)%Z
  else (if (Zpos b <=? Zpos a * 2 ^ (- k))%Z then k else k - 1)%Z.

(** The integer nearest to [num / den] for [0 < den], ties to the even
    one. *)
Definition round_half_even (num den : Z) : Z :=
  let f := (num / den)%Z in
  match (2 * (num mod den) ?= den)%Z with
  | Lt => f
  | Gt => (f + 1)%Z
  | Eq => if Z.even f then f else (f + 1)%Z
  end.

(** The binary64 value nearest to [x], ties to even: 53 significant
    bits, the last of weight [2^e] with [-1074 <= e <= 971]; an infinity
    when the rounded magnitude reaches [2^1024]. *)
Definition round64 (x : Q) : pyfloat :=
  let num := Qnum x in
  let den := Zpos (Qden x) in
  if (num =? 0)%Z then Finite 0
  else
    let e := Z.max (-1074)
               (log2_ratio (Z.to_pos (Z.abs num)) (Qden x) - 52) in
    if (0 <=? e)%Z then
      let n := round_half_even num (den * 2 ^ e) in
      if (2 ^ 1024 <=? Z.abs n * 2 ^ e)%Z then Inf (num <? 0)%Z
      else Finite (inject_Z (n * 2 ^ e))
    else
      Finite (Qred (round_half_even (num * 2 ^ (- e)) den # Z.to_pos (2 ^ (- e)))).

(** [float(n)] for an [int]: [OverflowError] when [n] is too large. *)
Definition float_of_int (n : Z) : exn + pyfloat :=
  match round64 (inject_Z n) with
  | Finite q => inr (Finite q)
  | _ => inl OverflowError
  end.

Definition as_float (x : pynum) : exn + pyfloat :=
  match x with
  | PyInt n => float_of_int n
  | PyFloat f => inr f
  end.

Definition is_zero (f : pyfloat) : bool :=
  match f with Finite q => Qeq_bool q 0 | _ => false end.

Definition negative (f : pyfloat) : bool :=
  match f with
  | Finite q => negb (Qle_bool 0 q)
  | Inf neg => neg
  | NaN => false
  end.

(** [x / y] for two [float]s: the IEEE 754 quotient, after the test for
    a zero divisor. *)
Definition float_div (x y : pyfloat) : exn + pyfloat :=
  if is_zero y then inl ZeroDivisionError
  else
    inr match x, y with
        | NaN, _ | _, NaN => NaN
        | Inf _, Inf _ => NaN
        | Inf _, Finite _ => Inf (xorb (negative x) (negative y))
        | Finite _, Inf _ => Finite 0
        | Finite a, Finite b => round64 (a / b)%Q
        end.

(** [v > 0] *)
Definition py_gt0 (v : json) : exn + bool :=
  match py_num v with
  | Some (PyInt n) => inr (0 <? n)%Z
  | Some (PyFloat (Finite q)) => inr (negb (Qle_bool q 0))
  | Some (PyFloat (Inf neg)) => inr (negb neg)
  | Some (PyFloat NaN) => inr false
  | None => inl TypeError
  end.

(** [a / b]. Two [int]s give the correctly rounded quotient, or
    [OverflowError] when it is too large for a [float]; otherwise the
    [int] operand, if any, is converted first. *)
Definition py_truediv (a b : json) : exn + pyfloat :=
  match py_num a, py_num b with
  | Some (PyInt x), Some (PyInt y) =>
    if (y =? 0)%Z then inl ZeroDivisionError
    else match round64 (inject_Z x / inject_Z y)%Q with
         | Finite q => inr (Finite q)
         | _ => inl OverflowError
         end
  | Some x, Some y =>
    match as_float x with
    | inl e => inl e
    | inr fx =>
      match as_float y with
      | inl e => inl e
      | inr fy => float_div fx fy
      end
    end
  | _, _ => inl TypeError
  end.

End Json.

(** ** Progress relay ([_track_comfyui_progress], the handling of one
       decoded message and the receive loop around it) *)

Module Relay.

Import Json.
Open Scope string_scope.

Inductive action :=
| Ignore                 (* [continue]: nothing reported *)
| Callback (p : pynum)   (* [progress_cb(p)], then the loop goes on *)
| Break                  (* [break]: the relay ends *)
| Raise (e : exn).       (* caught by [except Exception: break] *)

Definition on_message (prompt_id : string) (msg : dict json) : action :=
  match get_default "data" (JObj []) msg with
  | JObj msg_data =>
    let foreign :=
      match dict_get "prompt_id" msg_data with
      | Some p => truthy p && negb (eq_str p prompt_id)
      | None => false
      end in
    if foreign then Ignore
    else
      let type := dict_get "type" msg in
      if match type with Some t => eq_str t "progress" | None => false end then
        let val := get_default "value" (JInt 0) msg_data in
        let mx := get_default "max" (JInt 1) msg_data in
        match py_gt0 mx with
        | inl e => Raise e
        | inr true =>
          match py_truediv val mx with
          | inl e => Raise e
          | inr q => Callback (PyFloat q)
          end
        | inr false => Callback (PyInt 0)
        end
      else if match type with Some t => eq_str t "executed" | None => false end then Break
      else Ignore
  | _ => Raise AttributeError
  end.


(** The receive loop over the messages that decode to a JSON object:
    the values passed to the callback, in order, and the messages left
    unread when the relay ended. *)
Fixpoint relay_loop (prompt_id : string) (msgs : list (dict json))
  : list pynum * list (dict json) :=
  match msgs with
  | [] => ([], [])
  | m :: rest =>
    match on_message prompt_id m with
    | Ignore => relay_loop prompt_id rest
    | Callback p => let '(ps, unread) := relay_loop prompt_id rest in (p :: ps, unread)
    | Break | Raise _ => ([], rest)
    end
  end.

End Relay.

(** ** Job graphs: nodes, input overrides, backend outputs *)

Module Graph.

Import Json.
Open Scope string_scope.

(** A node of the job graph: its ["inputs"] object when it has one, and
    its other members. *)
Record node := mkNode { n_inputs : option (dict json); n_other : dict json }.

Definition prompt := dict node.

(** [key.split(".", 1)] when ["." in key] *)
Fixpoint split_dot (key : string) : option (string * string) :=
  match key with
  | EmptyString => None
  | String c rest =>
    if Ascii.eqb c "." then Some ("", rest)
    else match split_dot rest with
         | Some (a, b) => Some (String c a, b)
         | None => None
         end
  end.

(** [node.setdefault("inputs", {})[field] = val] *)
Definition set_node_input (field : string) (val : json) (nd : node) : node :=
  mkNode (Some (dict_set field val
                  (match n_inputs nd with Some ni => ni | None => [] end)))
         (n_other nd).

Definition override (p : prompt) (kv : string * json) : prompt :=
  match split_dot (fst kv) with
  | None => p
  | Some (node_id, field) =>
    match dict_get node_id p with
    | Some nd => dict_set node_id (set_node_input field (snd kv) nd) p
    | None => p
    end
  end.

(** The override loop shared by [execute_job], [_run_batch] and
    [_run_pipeline]. *)
Definition apply_inputs (inputs : dict json) (p : prompt) : prompt :=
  fold_left override inputs p.

(** One entry of an output list of the backend's history; a member that
    is absent or [null] is [None]. *)
Record out_entry := mkEntry {
  e_filename : option string;
  e_subfolder : option string;
  e_type : option string }.

(** [outputs]: node id to (kind to entries). *)
Definition outputs := dict (dict (list out_entry)).

End Graph.

(** ** Job executor ([execute_job]): seed resolution and result type *)

Module Executor.

Import Json Graph.
Open Scope string_scope.

(** [v in (-1, 0, "-1", "0")], with Python's [==]: [False] and [0.0]
    equal [0], [-1.0] equals [-1]. *)
Definition is_sentinel (v : json) : bool :=
  match v with
  | JInt n => Z.eqb n (-1) || Z.eqb n 0
  | JBool b => negb b
  | JFloat (Finite q) => Qeq_bool q (-1) || Qeq_bool q 0
  | JFloat _ => false
  | JStr s => String.eqb s "-1" || String.eqb s "0"
  | _ => false
  end.

Definition seed_max : Z := 2 ^ 32 - 1.

Definition is_seed_field (field : string) : Prop :=
  field = "seed" \/ field = "noise_seed".

(** [random.randint(1, 2**32 - 1)] on the entropy at position [k] *)
Definition draw_at (g : Rng.t) (k : nat) : Z := 1 + Rng.entropy g k mod seed_max.

(** [g'] is [g] after some draws. *)
Definition later (g g' : Rng.t) : Prop :=
  Rng.entropy g' = Rng.entropy g /\ (Rng.cursor g <= Rng.cursor g')%nat.

(** [r] is one of the draws made between [g] and [g']. *)
Definition drawn (g g' : Rng.t) (r : Z) : Prop :=
  exists k, (Rng.cursor g <= k < Rng.cursor g')%nat /\ r = draw_at g k.

(** No sentinel is left under [field]. *)
Definition settled (field : string) (node_inputs : dict json) : bool :=
  match dict_get field node_inputs with
  | Some v => negb (is_sentinel v)
  | None => true
  end.

Definition seed_state := (dict json * dict Z * Rng.t)%type.

(** One of the two [if] blocks of the seed loop. *)
Definition resolve_field (node_id field : string) (st : seed_state) : seed_state :=
  let '(node_inputs, resolved_seeds, g) := st in
  match dict_get field node_inputs with
  | Some v =>
    if is_sentinel v then
      let '(resolved, g') := Rng.randint 1 seed_max g in
      (dict_set field (JInt resolved) node_inputs,
       dict_set (node_id ++ "." ++ field) resolved resolved_seeds,
       g')
    else st
  | None => st
  end.

Definition resolve_node (node_id : string) (nd : node) (rs : dict Z) (g : Rng.t)
  : node * dict Z * Rng.t :=
  match n_inputs nd with
  | None => (nd, rs, g)
  | Some ni =>
    let '(ni', rs', g') :=
      resolve_field node_id "noise_seed" (resolve_field node_id "seed" (ni, rs, g)) in
    (mkNode (Some ni') (n_other nd), rs', g')
  end.

(** The seed loop over [prompt.items()]. *)
Fixpoint resolve_seeds (p : prompt) (rs : dict Z) (g : Rng.t)
  : prompt * dict Z * Rng.t :=
  match p with
  | [] => ([], rs, g)
  | (node_id, nd) :: rest =>
    let '(nd', rs1, g1) := resolve_node node_id nd rs g in
    let '(rest', rs2, g2) := resolve_seeds rest rs1 g1 in
    ((node_id, nd') :: rest', rs2, g2)
  end.

(** What [execute_job] submits and reports: the graph after the input
    overrides and the seed loop, and [resolved_seeds]. *)
Definition build_prompt (template : prompt) (inputs : dict json) (g : Rng.t)
  : prompt * dict Z * Rng.t :=
  resolve_seeds (apply_inputs inputs template) [] g.

(** *** [os.path.splitext] (POSIX) and [str.lower] on ASCII *)

Fixpoint rfind_from (i : Z) (c : ascii) (l : list ascii) (found : Z) : Z :=
  match l with
  | [] => found
  | x :: rest => rfind_from (i + 1) c rest (if Ascii.eqb x c then i else found)
  end.

(** [p.rfind(c)], [-1] when absent *)
Definition rfind (c : ascii) (l : list ascii) : Z := rfind_from 0 c l (-1).

(** [p[a:b]] for [0 <= a] *)
Definition slice (a b : Z) (l : list ascii) : list ascii :=
  firstn (Z.to_nat (b - a)) (skipn (Z.to_nat a) l).

Definition splitext (p : string) : string * string :=
  let l := list_ascii_of_string p in
  let sepIndex := rfind "/" l in
  let dotIndex := rfind "." l in
  if (sepIndex <? dotIndex)%Z
     && existsb (fun c => negb (Ascii.eqb c ".")) (slice (sepIndex + 1) dotIndex l)
  then (string_of_list_ascii (firstn (Z.to_nat dotIndex) l),
        string_of_list_ascii (skipn (Z.to_nat dotIndex) l))
  else (p, "").

Definition lower_ascii (c : ascii) : ascii :=
  let n := nat_of_ascii c in
  if (65 <=? n)%nat && (n <=? 90)%nat then ascii_of_nat (n + 32) else c.

Definition lower (s : string) : string :=
  string_of_list_ascii (map lower_ascii (list_ascii_of_string s)).

(** The extension test of [execute_job]. *)
Definition output_type (filename : string) : string :=
  let ext := lower (snd (splitext filename)) in
  if String.eqb ext ".jpg" || String.eqb ext ".jpeg" then "image/jpeg"
  else if String.eqb ext ".webp" then "image/webp"
  else if String.eqb ext ".mp4" then "video/mp4"
  else if String.eqb ext ".gif" then "image/gif"
  else "image/png".

(** The scan of [execute_job] for the file it downloads: the first entry
    with a file name under ["images"], ["videos"], ["gifs"]. *)
Definition node_files (node_out : dict (list out_entry)) : list string :=
  flat_map
    (fun key =>
       flat_map (fun e => match e_filename e with
                          | Some f => if String.eqb f "" then [] else [f]
                          | None => []
                          end)
                (match dict_get key node_out with Some items => items | None => [] end))
    ["images"; "videos"; "gifs"].

Definition first_output (outs : outputs) : option string :=
  hd_error (flat_map (fun kv => node_files (snd kv)) outs).

(** The type reported with a completed job, [None] when the job fails
    with "no output files". *)
Definition result_output_type (outs : outputs) : option string :=
  option_map output_type (first_output outs).

End Executor.

(** ** The rendering backend, as the orchestrators see it *)

Module Backend.

Import Json Graph.
Open Scope string_scope.

(** The answer to [POST /prompt]: an exception, or the reply's
    ["prompt_id"] when it has one. *)
Inductive submit_reply :=
| SubmitRaises (exc : string)
| SubmitReply (prompt_id : option string).

(** The answer to one [GET /history/<id>]: an exception, no completed
    entry yet, or the completed entry's outputs. *)
Inductive poll_reply :=
| PollRaises
| PollPending
| PollCompleted (outs : outputs).

End Backend.

(** ** Pipeline orchestrator ([_run_pipeline], [_extract_outputs]) *)

Module Pipeline.

Import Json Graph Backend.
Open Scope string_scope.

Record workflow := mkWorkflow {
  wf_id : string; wf_serverRef : string; wf_prompt : prompt }.

Record server := mkServer { sv_id : string; sv_url : string }.

Record config := mkConfig { workflows : list workflow; servers : list server }.

Record step := mkStep { workflowId : string; inputs : dict json }.

(** The backend during one pipeline run: its answers by step number and
    poll attempt, and whether storing a step's outputs raises. *)
Record backend := mkBackend {
  submit : nat -> prompt -> submit_reply;
  poll : nat -> nat -> poll_reply;
  store_raises : nat -> bool }.

Record item := mkItem {
  i_nodeId : string; i_filename : string; i_type : string; i_subfolder : string }.

Definition entry_items (node_id : string) (e : out_entry) : list item :=
  match e_filename e with
  | Some f =>
    if String.eqb f "" then []
    else [mkItem node_id f
            (match e_type e with Some t => t | None => "output" end)
            (match e_subfolder e with Some s => s | None => "" end)]
  | None => []
  end.

Definition _extract_outputs (outs : outputs) : list item :=
  flat_map
    (fun kv =>
       flat_map
         (fun key =>
            flat_map (entry_items (fst kv))
              (match dict_get key (snd kv) with Some es => es | None => [] end))
         ["images"; "videos"; "gifs"; "audio"])
    outs.

(** [f"{sub}/{filename}" if sub else filename] *)
Definition output_ref (first : item) : string :=
  if String.eqb (i_subfolder first) "" then i_filename first
  else i_subfolder first ++ "/" ++ i_filename first.

(** The entries of the [completed] list. *)
Inductive entry :=
| StepError (stepIndex : nat) (error : string)
| StepComplete (stepIndex : nat) (promptId : string) (outputPath : option string)
| StepTimeout (stepIndex : nat) (promptId : string).

Definition entry_status (e : entry) : string :=
  match e with
  | StepError _ _ => "error"
  | StepComplete _ _ _ => "complete"
  | StepTimeout _ _ => "timeout"
  end.

Definition stepIndex (e : entry) : nat :=
  match e with
  | StepError i _ | StepComplete i _ _ | StepTimeout i _ => i
  end.

Definition step_complete (e : entry) : Prop := entry_status e = "complete".

(** One [POST /prompt]: the step number, the step's inputs after the
    substitution of the previous output, and the graph sent. *)
Record post := mkPost { p_step : nat; p_inputs : dict json; p_prompt : prompt }.

Record run_state := mkState {
  prev_output : option string;
  completed : list entry;
  posted : list post;
  currentStep : nat }.

Inductive flow := Next | Stop | Abort.

Definition find_workflow (cfg : config) (id : string) : option workflow :=
  find (fun w => String.eqb (wf_id w) id) (workflows cfg).

Definition find_server (cfg : config) (ref : string) : option server :=
  find (fun s => String.eqb (sv_id s) ref) (servers cfg).

(** [if val == "__prev__" and prev_output: inputs[key] = prev_output] *)
Definition resolve_prev (prev : option string) (ins : dict json) : dict json :=
  map (fun kv =>
         match prev with
         | Some p =>
           if eq_str (snd kv) "__prev__" && negb (String.eqb p "")
           then (fst kv, JStr p) else kv
         | None => kv
         end) ins.

Definition poll_budget : nat := 240.

(** [for _ in range(240)]: the outputs of the first poll that reports
    completion. *)
Fixpoint poll_loop (be : backend) (idx attempt budget : nat) : option outputs :=
  match budget with
  | O => None
  | S budget' =>
    match poll be idx attempt with
    | PollCompleted outs => Some outs
    | _ => poll_loop be idx (S attempt) budget'
    end
  end.

Definition fail (st : run_state) (e : entry) : flow * run_state :=
  (Stop, mkState (prev_output st) (completed st ++ [e]) (posted st) (currentStep st)).

(** One iteration of the loop over [enumerate(steps)]. *)
Definition run_step (cfg : config) (be : backend) (idx : nat) (s : step)
    (st : run_state) : flow * run_state :=
  match find_workflow cfg (workflowId s) with
  | None => fail st (StepError (idx + 1) "workflow not found")
  | Some wf =>
    match find_server cfg (wf_serverRef wf) with
    | None => fail st (StepError (idx + 1) "workflow has no server")
    | Some _ =>
      let ins := resolve_prev (prev_output st) (inputs s) in
      let prompt := apply_inputs ins (wf_prompt wf) in
      let st1 := mkState (prev_output st) (completed st)
                   (posted st ++ [mkPost (idx + 1) ins prompt]) (currentStep st) in
      match submit be idx prompt with
      | SubmitRaises exc => fail st1 (StepError (idx + 1) exc)
      | SubmitReply None => fail st1 (StepError (idx + 1) "no prompt_id")
      | SubmitReply (Some prompt_id) =>
        if String.eqb prompt_id "" then fail st1 (StepError (idx + 1) "no prompt_id")
        else
          match poll_loop be idx 0 poll_budget with
          | Some outs =>
            let prev' :=
              match _extract_outputs outs with
              | first :: _ => Some (output_ref first)
              | [] => prev_output st1
              end in
            if store_raises be idx
            then (Abort, mkState prev' (completed st1) (posted st1) (currentStep st1))
            else (Next, mkState prev'
                          (completed st1 ++ [StepComplete (idx + 1) prompt_id prev'])
                          (posted st1) (idx + 1)%nat)
          | None =>
            (Stop, mkState (prev_output st1)
                     (completed st1 ++ [StepTimeout (idx + 1) prompt_id])
                     (posted st1) (idx + 1)%nat)
          end
      end
    end
  end.

Fixpoint run_steps (cfg : config) (be : backend) (idx : nat) (steps : list step)
    (st : run_state) : flow * run_state :=
  match steps with
  | [] => (Next, st)
  | s :: rest =>
    match run_step cfg be idx s st with
    | (Next, st') => run_steps cfg be (S idx) rest st'
    | stopped => stopped
    end
  end.

(** The record kept in [PIPELINES]. *)
Record pipeline := mkPipeline {
  status : string; pl_currentStep : nat; pl_completed : list entry }.

Definition init_state : run_state := mkState None [] [] 0.

(** [_run_pipeline]: the record it leaves and the submissions it made.
    When an exception escapes, the thread ends and the status stays
    ["running"]. *)
Definition _run_pipeline (cfg : config) (be : backend) (steps : list step)
  : pipeline * list post :=
  let '(fl, st) := run_steps cfg be 0 steps init_state in
  (mkPipeline
     (match fl with
      | Abort => "running"
      | _ => if Nat.eqb (List.length (completed st)) (List.length steps)
             then "complete" else "error"
      end)
     (currentStep st) (completed st),
   posted st).

End Pipeline.

(** ** Batch orchestrator ([/api/batch] in [handle_api_post],
       [_run_batch], the batch update of [_process_outputs]) *)

Module Batch.

Import Json Graph Backend.
Open Scope string_scope.

(** [needle in hay] for strings *)
Fixpoint contains (needle hay : string) : bool :=
  String.prefix needle hay
  || match hay with
     | EmptyString => false
     | String _ rest => contains needle rest
     end.

(** [_find_seed_fields]: every input field whose lowered name contains
    ["seed"], as [(node_id, field)]. *)
Definition _find_seed_fields (p : prompt) : list (string * string) :=
  flat_map
    (fun kv =>
       match n_inputs (snd kv) with
       | Some ni =>
         flat_map
           (fun field =>
              let field_lower := Executor.lower field in
              if contains "noise_seed" field_lower || contains "seed" field_lower
              then [(fst kv, field)] else [])
           (dict_keys ni)
       | None => []
       end)
    p.

Record run := mkRun {
  r_index : nat;
  r_promptId : option string;
  r_status : string;
  r_inputs : dict json;
  r_error : option string }.

Record batch := mkBatch {
  variations : nat;
  varySeed : bool;
  b_status : string;
  runs : list run }.

Definition vary_max : Z := 2 ^ 31 - 1.

(** [random.randint(1, 2**31 - 1)] on the entropy at position [k] *)
Definition vary_at (g : Rng.t) (k : nat) : Z := 1 + Rng.entropy g k mod vary_max.

(** The inputs of one run: one [seed_value] for the run, written to
    every seed field. *)
Definition run_inputs (vary_seed : bool) (seed_fields : list (string * string))
    (inputs : dict json) (g : Rng.t) : dict json * Rng.t :=
  match vary_seed, seed_fields with
  | true, _ :: _ =>
    let '(seed_value, g') := Rng.randint 1 vary_max g in
    (fold_left
       (fun acc nf => dict_set (fst nf ++ "." ++ snd nf) (JInt seed_value) acc)
       seed_fields inputs,
     g')
  | _, _ => (inputs, g)
  end.

(** [for idx in range(variations)] *)
Fixpoint make_runs (idx count : nat) (vary_seed : bool)
    (seed_fields : list (string * string)) (inputs : dict json) (g : Rng.t)
  : list run * Rng.t :=
  match count with
  | O => ([], g)
  | S count' =>
    let '(ri, g1) := run_inputs vary_seed seed_fields inputs g in
    let '(rest, g2) := make_runs (S idx) count' vary_seed seed_fields inputs g1 in
    (mkRun (idx + 1) None "queued" ri None :: rest, g2)
  end.

(** The batch registered by [POST /api/batch]; [variations] is the
    request's count, at least 1. *)
Definition create_batch (wf_prompt : prompt) (requested : nat) (vary_seed : bool)
    (inputs : dict json) (g : Rng.t) : batch * Rng.t :=
  let seed_fields := _find_seed_fields wf_prompt in
  let variations := Nat.max 1 requested in
  let '(rs, g') := make_runs 0 variations vary_seed seed_fields inputs g in
  (mkBatch variations vary_seed "running" rs, g').

(** The graph [_run_batch] posts for a run: the overrides, then the
    sentinel seeds replaced. *)
Definition run_prompt (wf_prompt : prompt) (r : run) (g : Rng.t) : prompt * Rng.t :=
  let '(p, _, g') := Executor.resolve_seeds (apply_inputs (r_inputs r) wf_prompt) [] g in
  (p, g').

(** What [_run_batch] writes to a run after its submission. *)
Definition submit_run (reply : submit_reply) (r : run) : run :=
  let failed (msg : string) :=
    mkRun (r_index r) (r_promptId r) "error" (r_inputs r) (Some msg) in
  match reply with
  | SubmitRaises exc => failed exc
  | SubmitReply None => failed "no prompt_id"
  | SubmitReply (Some prompt_id) =>
    if String.eqb prompt_id "" then failed "no prompt_id"
    else mkRun (r_index r) (Some prompt_id) "queued" (r_inputs r) (r_error r)
  end.

(** The block of [_process_outputs] under [BATCH_LOCK]. *)
Definition mark_run (prompt_id : string) (r : run) : run :=
  match r_promptId r with
  | Some p =>
    if String.eqb p prompt_id
    then mkRun (r_index r) (r_promptId r) "complete" (r_inputs r) (r_error r)
    else r
  | None => r
  end.

Definition is_complete (r : run) : bool := String.eqb (r_status r) "complete".

Definition mark_complete (prompt_id : string) (b : batch) : batch :=
  let runs' := map (mark_run prompt_id) (runs b) in
  mkBatch (variations b) (varySeed b)
    (if forallb is_complete runs' then "complete" else b_status b)
    runs'.

(** The registry entry while [_run_batch] and the status pollers run side
    by side: [next] is the position of [_run_batch] in its loop,
    [finished] is set once it has written the final status. *)
Record shared := mkShared { the_batch : batch; next : nat; finished : bool }.

(** The moves are atomic. [_run_batch] writes a run's [promptId] and
    status before the run's gallery record, and a poller reaches the
    batch update for a prompt id only through that record, so no update
    for a run falls between the two writes. *)
Inductive event :=
| Submitted (reply : submit_reply)   (* [_run_batch] finishes one run *)
| LoopDone                           (* [_run_batch] leaves its loop *)
| Polled (prompt_id : string).       (* a poller reaches the batch update *)

Fixpoint update_nth {A} (n : nat) (f : A -> A) (l : list A) {struct l} : list A :=
  match l with
  | [] => []
  | x :: rest =>
    match n with
    | O => f x :: rest
    | S n' => x :: update_nth n' f rest
    end
  end.

(** One atomic move; [None] when the move cannot happen in this state. *)
Definition exec (s : shared) (ev : event) : option shared :=
  let b := the_batch s in
  match ev with
  | Submitted reply =>
    if (next s <? List.length (runs b))%nat then
      Some (mkShared
              (mkBatch (variations b) (varySeed b) (b_status b)
                 (update_nth (next s) (submit_run reply) (runs b)))
              (S (next s)) (finished s))
    else None
  | LoopDone =>
    if Nat.eqb (next s) (List.length (runs b)) && negb (finished s) then
      Some (mkShared (mkBatch (variations b) (varySeed b) "queued" (runs b))
              (next s) true)
    else None
  | Polled prompt_id =>
    Some (mkShared (mark_complete prompt_id b) (next s) (finished s))
  end.

Fixpoint exec_all (s : shared) (evs : list event) : option shared :=
  match evs with
  | [] => Some s
  | ev :: rest =>
    match exec s ev with
    | Some s' => exec_all s' rest
    | None => None
    end
  end.

Definition start (b : batch) : shared := mkShared b 0 false.

(** What happens to one run in the loop of [_run_batch]: an exception
    while its graph is built, which nothing catches; or the request is
    made, and when it is accepted the gallery record is written, which
    can raise as well. *)
Inductive attempt :=
| BuildRaises
| Posted (reply : submit_reply) (gallery_raises : bool).

Definition accepted (reply : submit_reply) : bool :=
  match reply with
  | SubmitReply (Some prompt_id) => negb (String.eqb prompt_id "")
  | _ => false
  end.

(** The attempt ends the thread with an exception. *)
Definition crashes (a : attempt) : bool :=
  match a with
  | BuildRaises => true
  | Posted reply gallery_raises => accepted reply && gallery_raises
  end.

(** The run as the attempt leaves it. *)
Definition after_attempt (a : attempt) (r : run) : run :=
  match a with
  | BuildRaises => r
  | Posted reply _ => submit_run reply r
  end.

(** [for run in runs]: the runs as the loop leaves them, and whether it
    reached its end. *)
Fixpoint submit_runs (attempts : nat -> attempt) (idx : nat) (rs : list run)
  : list run * bool :=
  match rs with
  | [] => ([], true)
  | r :: rest =>
    let r' := after_attempt (attempts idx) r in
    if crashes (attempts idx) then (r' :: rest, false)
    else let '(rest', ended) := submit_runs attempts (S idx) rest in
         (r' :: rest', ended)
  end.

(** [_run_batch] with no poller at work: the registry entry it leaves.
    The final status is written only when the loop reached its end. *)
Definition _run_batch (attempts : nat -> attempt) (b : batch) : batch :=
  let '(rs, ended) := submit_runs attempts 0 (runs b) in
  mkBatch (variations b) (varySeed b)
    (if ended then "queued" else b_status b) rs.





End Batch.

(** ** Control frames *)

Module Frames.

Import Codec.

(** The pong [ws_recv] writes for a ping that carried [payload]. *)
Definition pong_frame (mask payload : bytes) : bytes :=
  [0x8A; Z.lor 0x80 (Z.of_nat (List.length payload))]
  ++ mask ++ xor_mask mask payload.

(** A ping frame as a server sends it: no mask, the length of the
    payload in the second byte. *)
Definition ping_frame (payload : bytes) : bytes :=
  [0x89; Z.of_nat (List.length payload)] ++ payload.

(** What has been sent, and the entropy left, once the pings of [pings]
    have been answered in order. *)
Fixpoint answer_pings (pings : list bytes) (out : bytes) (g : Rng.t)
  : bytes * Rng.t :=
  match pings with
  | [] => (out, g)
  | payload :: rest =>
    let '(mask, g') := Rng.urandom 4 g in
    answer_pings rest (out ++ pong_frame mask payload) g'
  end.

End Frames.

(** ** What the relay reports for a run of messages *)

Module RelayTrace.

Import Json Relay.

(** The value a message hands to the callback, if it does. *)
Definition reported (prompt_id : string) (msg : dict json) : list pynum :=
  match on_message prompt_id msg with
  | Callback p => [p]
  | _ => []
  end.

(** The message ends the relay: an [executed] event, or an exception. *)
Definition ends_relay (prompt_id : string) (msg : dict json) : bool :=
  match on_message prompt_id msg with
  | Break | Raise _ => true
  | _ => false
  end.

End RelayTrace.

(** ** The dashboard's view of an output file ([_infer_output_type] of
       [server.py]) *)

Module Dashboard.

Import Executor.
Open Scope string_scope.

Definition _infer_output_type (filename : string) : string :=
  let ext := lower (snd (splitext filename)) in
  if String.eqb ext ".png" then "image/png"
  else if String.eqb ext ".jpg" || String.eqb ext ".jpeg" then "image/jpeg"
  else if String.eqb ext ".webp" then "image/webp"
  else if String.eqb ext ".mp4" then "video/mp4"
  else if String.eqb ext ".wav" then "audio/wav"
  else if String.eqb ext ".gif" then "image/gif"
  else "application/octet-stream".

(** [os.path.join(a, b)] (POSIX) *)
Definition path_join (a b : string) : string :=
  match b with
  | String "/" _ => b
  | _ =>
    match rev (list_ascii_of_string a) with
    | [] => a ++ b
    | "/"%char :: _ => a ++ b
    | _ => a ++ "/" ++ b
    end
  end.

(** [s.replace(old, new)] for one-character [old] and [new] *)
Definition replace_char (old new : ascii) (s : string) : string :=
  string_of_list_ascii
    (map (fun c => if Ascii.eqb c old then new else c) (list_ascii_of_string s)).

(** [os.path.splitext(filename)[1].lower() or ".png"] *)
Definition stored_ext (filename : string) : string :=
  let ext := lower (snd (splitext filename)) in
  if String.eqb ext "" then ".png" else ext.

(** The path [_process_outputs] stores an output under. *)
Definition stored_path (wf_dir timestamp prompt_id filename : string) : string :=
  path_join wf_dir
    (timestamp ++ "-" ++ replace_char "/" "-" prompt_id ++ stored_ext filename).

(** The [outputType] of the gallery record. *)
Definition stored_type (wf_dir timestamp prompt_id filename : string) : string :=
  _infer_output_type (stored_path wf_dir timestamp prompt_id filename).

End Dashboard.

(** ** The command line ([comfyclaw.py]): lookups, node lists, servers,
       input parsing *)

Module Cli.

Import Json Graph.
Open Scope string_scope.

(** Why a command stops with [SystemExit]. *)
Inductive exit_reason :=
| NotFound (what : string)
| Ambiguous (prefix : string) (ids : list string)
| Invalid (item : string)
| NeedsDot (key : string).

Inductive outcome (A : Type) :=
| Done (a : A)
| SystemExit (why : exit_reason).

Arguments Done {A} a.
Arguments SystemExit {A} why.

Record input_node := mkInput {
  nodeId : string;
  fieldPath : string;
  label : option string;
  currentValue : json }.

Record workflow := mkWorkflow {
  w_id : string;
  w_title : string;
  w_serverRef : string;
  primaryInputNodes : list input_node;
  secondaryInputNodes : list input_node }.

(** [find_workflow]: the first workflow with that id, else the only one
    whose id starts with it. *)
Definition find_workflow (workflows : list workflow) (workflow_id : string)
  : outcome workflow :=
  match find (fun wf => String.eqb (w_id wf) workflow_id) workflows with
  | Some wf => Done wf
  | None =>
    let matches := filter (fun wf => String.prefix workflow_id (w_id wf)) workflows in
    match matches with
    | [m] => Done m
    | [] => SystemExit (NotFound workflow_id)
    | _ => SystemExit (Ambiguous workflow_id
                         (map (fun m => String.substring 0 12 (w_id m)) matches))
    end
  end.

Definition label_is (n : input_node) (node_id : string) : bool :=
  match label n with Some l => String.eqb l node_id | None => false end.

(** The three tests of [_find_node_index], in its order. *)
Definition node_matches (node_id : string) (n : input_node) : bool :=
  (String.eqb (nodeId n) node_id || label_is n node_id)
  || label_is n node_id
  || String.eqb (nodeId n ++ "." ++ fieldPath n) node_id.

Fixpoint find_node_from (i : Z) (nodes : list input_node) (node_id : string) : Z :=
  match nodes with
  | [] => -1
  | n :: rest =>
    if node_matches node_id n then i else find_node_from (i + 1) rest node_id
  end.

Definition _find_node_index (nodes : list input_node) (node_id : string) : Z :=
  find_node_from 0 nodes node_id.

(** [l.pop(idx)] for [0 <= idx]; [None] is [IndexError]. *)
Definition pop {A} (idx : nat) (l : list A) : option (A * list A) :=
  match nth_error l idx with
  | Some x => Some (x, (firstn idx l ++ skipn (S idx) l)%list)
  | None => None
  end.

(** [workflow_set_primary]: the workflow after the command, and the node
    moved if one was. *)
Definition workflow_set_primary (wf : workflow) (node_id : string)
  : option (workflow * option input_node) :=
  let idx := _find_node_index (secondaryInputNodes wf) node_id in
  if Z.leb 0 idx then
    match pop (Z.to_nat idx) (secondaryInputNodes wf) with
    | Some (node, rest) =>
      Some (mkWorkflow (w_id wf) (w_title wf) (w_serverRef wf)
              (primaryInputNodes wf ++ [node])%list rest,
            Some node)
    | None => None
    end
  else Some (wf, None).

Definition workflow_set_secondary (wf : workflow) (node_id : string)
  : option (workflow * option input_node) :=
  let idx := _find_node_index (primaryInputNodes wf) node_id in
  if Z.leb 0 idx then
    match pop (Z.to_nat idx) (primaryInputNodes wf) with
    | Some (node, rest) =>
      Some (mkWorkflow (w_id wf) (w_title wf) (w_serverRef wf)
              rest (secondaryInputNodes wf ++ [node])%list,
            Some node)
    | None => None
    end
  else Some (wf, None).

(** *** Servers *)

Record server := mkServer {
  s_id : string;
  s_name : string;
  s_url : string;
  s_apiKey : string;
  isDefault : bool }.

Fixpoint drop_leading (c : ascii) (l : list ascii) : list ascii :=
  match l with
  | x :: rest => if Ascii.eqb x c then drop_leading c rest else l
  | [] => []
  end.

(** [s.rstrip(c)] for a one-character [c] *)
Definition rstrip (c : ascii) (s : string) : string :=
  string_of_list_ascii (rev (drop_leading c (rev (list_ascii_of_string s)))).

Definition with_default (d : bool) (s : server) : server :=
  mkServer (s_id s) (s_name s) (s_url s) (s_apiKey s) d.

(** [server_add]; the new id is the fresh UUID. *)
Definition server_add (servers : list server) (new_id name url : string)
    (api_key : option string) (default : bool) : list server :=
  ((if default then map (with_default false) servers else servers)
   ++ [mkServer new_id name (rstrip "/" url)
         (match api_key with Some k => k | None => "" end) default])%list.

(** The first element that satisfies [test], replaced by its image. *)
Fixpoint update_first {A} (test : A -> bool) (f : A -> A) (l : list A) : list A :=
  match l with
  | [] => []
  | x :: rest => if test x then f x :: rest else x :: update_first test f rest
  end.

Definition has_id (id : string) (s : server) : bool := String.eqb (s_id s) id.

Definition nonempty (o : option string) : option string :=
  match o with
  | Some s => if String.eqb s "" then None else Some s
  | None => None
  end.

(** [server_edit]: an option that is absent (or, for the name and the
    url, empty) leaves the member as it is. *)
Definition server_edit (servers : list server) (id : string)
    (name url api_key : option string) (default : option bool)
  : outcome (list server) :=
  match find (has_id id) servers with
  | None => SystemExit (NotFound id)
  | Some _ =>
    let edit (s : server) :=
      mkServer (s_id s)
        (match nonempty name with Some n => n | None => s_name s end)
        (match nonempty url with Some u => rstrip "/" u | None => s_url s end)
        (match api_key with Some k => k | None => s_apiKey s end)
        (isDefault s) in
    let servers1 := update_first (has_id id) edit servers in
    Done (match default with
          | None => servers1
          | Some d =>
            update_first (has_id id) (with_default d)
              (if d then map (with_default false) servers1 else servers1)
          end)
  end.

Definition server_delete (servers : list server) (id : string) : list server :=
  filter (fun s => negb (has_id id s)) servers.

Definition at_most_one_default (servers : list server) : Prop :=
  (List.length (filter isDefault servers) <= 1)%nat.

(** *** Inputs given on the command line *)

(** [s.split(sep, 1)] when [sep in s] *)
Fixpoint split_first (sep : ascii) (s : string) : option (string * string) :=
  match s with
  | EmptyString => None
  | String c rest =>
    if Ascii.eqb c sep then Some ("", rest)
    else match split_first sep rest with
         | Some (a, b) => Some (String c a, b)
         | None => None
         end
  end.

Record override_item := mkOverride {
  o_nodeId : string; o_fieldPath : string; o_value : json }.

Section Parsing.

(** [_coerce_value]: [json.loads], or the string itself when that fails. *)
Variable _coerce_value : string -> json.

Fixpoint _parse_overrides (items : list string) : outcome (list override_item) :=
  match items with
  | [] => Done []
  | item :: rest =>
    match split_first ":" item with
    | None => SystemExit (Invalid item)
    | Some (node_key, val) =>
      match split_first "." node_key with
      | None => SystemExit (NeedsDot node_key)
      | Some (node_id, field) =>
        match _parse_overrides rest with
        | Done overrides =>
          Done (mkOverride node_id field (_coerce_value val) :: overrides)
        | SystemExit why => SystemExit why
        end
      end
    end
  end.

Fixpoint parse_kv_into (values : dict json) (items : list string)
  : outcome (dict json) :=
  match items with
  | [] => Done values
  | item :: rest =>
    match split_first ":" item with
    | None => SystemExit (Invalid item)
    | Some (key, val) =>
      match split_first "." key with
      | None => SystemExit (NeedsDot key)
      | Some _ => parse_kv_into (dict_set key (_coerce_value val) values) rest
      end
    end
  end.

Definition _parse_kv_items (items : list string) : outcome (dict json) :=
  parse_kv_into [] items.

End Parsing.

(** *** Overrides applied before a run *)

Definition override_key (o : override_item) : string :=
  o_nodeId o ++ "." ++ o_fieldPath o.

(** The override loop of [workflow_run]: the graph and [input_values]. *)
Fixpoint run_overrides (p : prompt) (input_values : dict json)
    (overrides : list override_item) : outcome (prompt * dict json) :=
  match overrides with
  | [] => Done (p, input_values)
  | o :: rest =>
    match dict_get (o_nodeId o) p with
    | None => SystemExit (NotFound (o_nodeId o))
    | Some nd =>
      run_overrides
        (dict_set (o_nodeId o) (set_node_input (o_fieldPath o) (o_value o) nd) p)
        (dict_set (override_key o) (o_value o) input_values)
        rest
    end
  end.

(** The loop of [template_run] over its inputs. *)
Fixpoint strict_apply (input_values : dict json) (p : prompt) : outcome prompt :=
  match input_values with
  | [] => Done p
  | (node_key, val) :: rest =>
    match split_dot node_key with
    | None => strict_apply rest p
    | Some (node_id, field) =>
      match dict_get node_id p with
      | None => SystemExit (NotFound node_id)
      | Some nd =>
        strict_apply rest (dict_set node_id (set_node_input field val nd) p)
      end
    end
  end.

(** The primary inputs' current values recorded with a run: only under
    keys the run's inputs do not have, and only when there is a value
    ([JNull] stands for an absent or [None] [currentValue]). *)
Definition capture_primary (nodes : list input_node) (input_values : dict json)
  : dict json :=
  fold_left
    (fun iv node =>
       let key := nodeId node ++ "." ++ fieldPath node in
       match dict_get key iv, currentValue node with
       | Some _, _ => iv
       | None, JNull => iv
       | None, v => dict_set key v iv
       end)
    nodes input_values.

End Cli.


(** ** Sample inputs *)

Definition zero_entropy : Rng.t := Rng.mk (fun _ => 0) 0.

Definition counting_entropy : Rng.t := Rng.mk (fun n => Z.of_nat n + 1) 0.

Definition progress_msg (fields : Json.dict Json.json) : Json.dict Json.json :=
  [("type"%string, Json.JStr "progress"); ("data"%string, Json.JObj fields)].

Definition executed_msg (fields : Json.dict Json.json) : Json.dict Json.json :=
  [("type"%string, Json.JStr "executed"); ("data"%string, Json.JObj fields)].

Definition three_of_four : Json.dict Json.json :=
  [("value"%string, Json.JInt 3); ("max"%string, Json.JInt 4)].

(** A [value] of 401 digits over a [max] of 1. *)
Definition huge_of_one : Json.dict Json.json :=
  [("value"%string, Json.JInt (10 ^ 400)); ("max"%string, Json.JInt 1)].

Definition sampler_inputs : Json.dict Json.json :=
  [("seed"%string, Json.JInt (-1)); ("steps"%string, Json.JInt 20)].

Definition sampler_node : Graph.node :=
  Graph.mkNode (Some sampler_inputs) [("class_type"%string, Json.JStr "KSampler")].

Definition noise_node : Graph.node :=
  Graph.mkNode (Some [("noise_seed"%string, Json.JStr "0")])
    [("class_type"%string, Json.JStr "RandomNoise")].

Definition sample_graph : Graph.prompt :=
  [("3"%string, sampler_node); ("7"%string, noise_node)].

Definition image_graph : Graph.prompt :=
  [("1"%string,
    Graph.mkNode (Some [("image"%string, Json.JStr "input.png")])
      [("class_type"%string, Json.JStr "LoadImage")])].

Definition chain_config : Pipeline.config :=
  Pipeline.mkConfig [Pipeline.mkWorkflow "wf1" "srv" image_graph]
                    [Pipeline.mkServer "srv" "http://127.0.0.1:8188"].

Definition no_workflows : Pipeline.config := Pipeline.mkConfig [] [].

Definition one_image : Graph.outputs :=
  [("9"%string,
    [("images"%string,
      [Graph.mkEntry (Some "a.png"%string) (Some "out"%string) (Some "output"%string)])])].

(** A backend that accepts every graph and reports it completed, with
    [one_image], at the first poll. *)
Definition prompt_backend : Pipeline.backend :=
  Pipeline.mkBackend (fun _ _ => Backend.SubmitReply (Some "pid"%string))
                     (fun _ _ => Backend.PollCompleted one_image)
                     (fun _ => false).

(** A backend like [prompt_backend], except that storing the outputs
    raises. *)
Definition failing_store : Pipeline.backend :=
  Pipeline.mkBackend (fun _ _ => Backend.SubmitReply (Some "pid"%string))
                     (fun _ _ => Backend.PollCompleted one_image)
                     (fun _ => true).

(** A backend that accepts every graph and never reports completion. *)
Definition silent_backend : Pipeline.backend :=
  Pipeline.mkBackend (fun _ _ => Backend.SubmitReply (Some "pid"%string))
                     (fun _ _ => Backend.PollPending)
                     (fun _ => false).

Definition chain_steps : list Pipeline.step :=
  [Pipeline.mkStep "wf1" [];
   Pipeline.mkStep "wf1" [("1.image"%string, Json.JStr "__prev__")]].


Definition two_runs : Batch.batch :=
  fst (Batch.create_batch sample_graph 2 false [] zero_entropy).




Definition wf_named (id : string) : Cli.workflow :=
  Cli.mkWorkflow id ""%string ""%string [] [].

(** The id of the second workflow is a prefix of the ids of the others. *)
Definition sample_workflows : list Cli.workflow :=
  [wf_named "abc"; wf_named "ab"; wf_named "abd"].

Definition sample_servers : list Cli.server :=
  [Cli.mkServer "s1" "one" "http://10.0.0.1:8188" "" true;
   Cli.mkServer "s2" "two" "http://10.0.0.2:8188" "" false].

Definition image_default : Cli.input_node :=
  Cli.mkInput "1" "image" (Some "Picture"%string) (Json.JStr "default.png").


(** * Properties *)

(** ** Frame codec *)

Section CodecFacts.

Import Codec.

Lemma lxor_cancel (b m : Z) : Z.lxor (Z.lxor b m) m = b.
Proof.
  now rewrite Z.lxor_assoc, Z.lxor_nilpotent, Z.lxor_0_r.
Qed.

Lemma xor_from_involutive (mask : bytes) :
  forall payload i, xor_from i mask (xor_from i mask payload) = payload.
Proof.
  induction payload as [|b rest IH]; intros i; cbn [xor_from].
  - reflexivity.
  - now rewrite lxor_cancel, IH.
Qed.

Lemma xor_from_length (mask : bytes) :
  forall payload i, List.length (xor_from i mask payload) = List.length payload.
Proof.
  induction payload as [|b rest IH]; intros i; cbn [xor_from List.length].
  - reflexivity.
  - now rewrite IH.
Qed.

Lemma be_bytes_length (v : Z) : forall n, List.length (be_bytes n v) = n.
Proof.
  induction n as [|k IH]; cbn [be_bytes List.length]; congruence.
Qed.

Lemma be_value_be_bytes (v : Z) :
  forall n, be_value (be_bytes n v) = v mod 2 ^ (8 * Z.of_nat n).
Proof.
  induction n as [|k IH].
  - cbn. now rewrite Z.mod_1_r.
  - cbn [be_bytes be_value]. rewrite be_bytes_length, IH.
    replace (8 * Z.of_nat (S k)) with (8 * Z.of_nat k + 8) by lia.
    rewrite Z.pow_add_r by lia.
    rewrite Z.rem_mul_r by lia.
    rewrite Z.shiftr_div_pow2 by lia.
    change (2 ^ 8) with 256. lia.
Qed.

Lemma be_value_be_bytes_small (n : nat) (v : Z) :
  0 <= v < 2 ^ (8 * Z.of_nat n) -> be_value (be_bytes n v) = v.
Proof.
  intros Hv. rewrite be_value_be_bytes. now apply Z.mod_small.
Qed.

Lemma recv_all_app (front rest out : bytes) :
  _recv_all (mkSock (front ++ rest) out) (List.length front)
  = (Some front, mkSock rest out).
Proof.
  unfold _recv_all. cbn [inbox outbox].
  rewrite length_app.
  replace (List.length front <=? List.length front + List.length rest)%nat
    with true by (symmetry; apply Nat.leb_le; lia).
  rewrite firstn_app, skipn_app, Nat.sub_diag, firstn_all, skipn_all.
  cbn [firstn skipn app]. now rewrite app_nil_r.
Qed.

Lemma land_low7 (n : Z) : 0 <= n < 128 -> Z.land n 0x7F = n.
Proof.
  intros Hn. change 0x7F with (Z.ones 7).
  rewrite Z.land_ones by lia. apply Z.mod_small. change (2 ^ 7) with 128. lia.
Qed.

(** The body of [ws_recv] once the two header bytes are read and the
    opcode is neither close nor ping. *)
Lemma ws_recv_data (fuel : nat) (h0 h1 : Z) (tl out : bytes) (g : Rng.t) :
  Z.land h0 0x0F <> 0x8 -> Z.land h0 0x0F <> 0x9 ->
  ws_recv_fuel (S fuel) (mkSock (h0 :: h1 :: tl) out) g =
  let s1 := mkSock tl out in
  let length := Z.land h1 0x7F in
  let ext (n : nat) :=
    match _recv_all s1 n with
    | (Some bs, s2) => (Some (be_value bs), s2)
    | (None, s2) => (None, s2)
    end in
  let '(olen, s2) :=
    if length =? 126 then ext 2%nat
    else if length =? 127 then ext 8%nat
    else (Some length, s1) in
  match olen with
  | None => (Raised, s2, g)
  | Some len =>
    let '(payload, s3) :=
      if len =? 0 then (Some [], s2) else _recv_all s2 (Z.to_nat len) in
    match payload with
    | None => (Closed, s3, g)
    | Some p => (Payload p, s3, g)
    end
  end.
Proof.
  intros H8 H9. cbn [ws_recv_fuel].
  change (_recv_all (mkSock (h0 :: h1 :: tl) out) 2)
    with (Some [h0; h1], mkSock tl out).
  cbv beta iota.
  destruct (Z.eqb_spec (Z.land h0 0x0F) 0x8) as [E|_]; [contradiction|].
  destruct (Z.eqb_spec (Z.land h0 0x0F) 0x9) as [E|_]; [contradiction|].
  reflexivity.
Qed.

Lemma recv_payload (len : Z) (payload rest out : bytes) :
  len = Z.of_nat (List.length payload) ->
  (if len =? 0 then (Some [], mkSock (payload ++ rest) out)
   else _recv_all (mkSock (payload ++ rest) out) (Z.to_nat len))
  = (Some payload, mkSock rest out).
Proof.
  intros ->. destruct payload as [|b p].
  - reflexivity.
  - replace (Z.of_nat (List.length (b :: p)) =? 0) with false
      by (symmetry; apply Z.eqb_neq; cbn [List.length]; lia).
    rewrite Nat2Z.id. apply recv_all_app.
Qed.

(** Reading the unmasked frame of [payload] returns [payload], whatever
    the upper bits of the first byte. *)
Lemma ws_recv_server_frame (b0 : Z) (payload rest out : bytes) (g : Rng.t) :
  Z.land b0 0x0F <> 0x8 -> Z.land b0 0x0F <> 0x9 ->
  Z.of_nat (List.length payload) < 2 ^ 64 ->
  ws_recv (mkSock (server_frame b0 payload ++ rest) out) g
  = (Payload payload, mkSock rest out, g).
Proof.
  intros H8 H9 Hlen. unfold ws_recv, server_frame.
  set (len := Z.of_nat (List.length payload)) in *.
  assert (Hlen0 : 0 <= len) by (subst len; lia).
  destruct (Z.ltb_spec len 126) as [Hs|Hs].
  - cbn [app inbox]. rewrite ws_recv_data by assumption. cbv zeta.
    rewrite land_low7 by lia.
    replace (len =? 126) with false by (symmetry; apply Z.eqb_neq; lia).
    replace (len =? 127) with false by (symmetry; apply Z.eqb_neq; lia).
    now rewrite recv_payload.
  - destruct (Z.ltb_spec len 65536) as [Hm|Hm].
    + cbn [app inbox]. rewrite <- !app_assoc.
      rewrite ws_recv_data by assumption. cbv zeta.
      change (Z.land 126 0x7F =? 126) with true. cbv iota.
      pose proof (recv_all_app (be_bytes 2 len) (payload ++ rest) out) as R.
      rewrite be_bytes_length in R. cbv beta. rewrite R.
      rewrite be_value_be_bytes_small
        by (change (2 ^ (8 * Z.of_nat 2)) with 65536; lia).
      now rewrite recv_payload.
    + cbn [app inbox]. rewrite <- !app_assoc.
      rewrite ws_recv_data by assumption. cbv zeta.
      change (Z.land 127 0x7F =? 126) with false.
      change (Z.land 127 0x7F =? 127) with true. cbv iota.
      pose proof (recv_all_app (be_bytes 8 len) (payload ++ rest) out) as R.
      rewrite be_bytes_length in R. cbv beta. rewrite R.
      rewrite be_value_be_bytes_small
        by (change (2 ^ (8 * Z.of_nat 8)) with (2 ^ 64); lia).
      now rewrite recv_payload.
Qed.

(** C3, as stated, fails: the encoder masks and the decoder never unmasks.
    Sending the one-byte payload [97] with the mask [1;2;3;4] puts
    [0x81; 0x81; 1; 2; 3; 4; 96] on the wire; the decoder reads the length
    1 and returns the first mask byte. *)
Lemma decode_encode_differs :
  exists s g,
    ws_send (mkSock [] []) [97] counting_entropy = (Some s, g)
    /\ outbox s = [0x81; 0x81; 1; 2; 3; 4; 96]
    /\ fst (fst (ws_recv (mkSock (outbox s) []) g)) = Payload [1]
    /\ fst (fst (ws_recv (mkSock (outbox s) []) g)) <> Payload [97].
Proof.
  eexists. eexists. split; [reflexivity|].
  split; [reflexivity|]. split; [reflexivity|].
  vm_compute. discriminate.
Qed.

(** C3 (amended). For every payload shorter than 2^64 bytes, so for those
    under 126 and over 65535 bytes, the encoder's frame is [0x81], the
    length field chosen by the payload length (7-bit, 16-bit after 126,
    64-bit after 127) with the mask bit set, the mask, and the payload
    XOR-ed with the mask; XOR-ing again with the mask restores the
    payload; and the decoder, which reads unmasked frames, returns the
    payload from the frame with the same length field that carries the
    payload in clear. *)
Theorem frame_roundtrip_unmasked (mask payload rest out : bytes) (g : Rng.t) :
  Z.of_nat (List.length payload) < 2 ^ 64 ->
  let n := Z.of_nat (List.length payload) in
  ws_frame mask payload
  = Some ((if n <? 126 then [0x81; Z.lor 0x80 n]
           else if n <? 65536 then [0x81; 0xFE] ++ be_bytes 2 n
           else [0x81; 0xFF] ++ be_bytes 8 n)
          ++ mask ++ xor_mask mask payload)
  /\ xor_mask mask (xor_mask mask payload) = payload
  /\ ws_recv (mkSock (server_frame 0x81 payload ++ rest) out) g
     = (Payload payload, mkSock rest out, g).
Proof.
  intros Hlen n. split; [|split].
  - unfold ws_frame, xor_mask. rewrite xor_from_length. fold n.
    assert (Hn0 : 0 <= n) by (subst n; lia).
    destruct (Z.ltb_spec n 126); [reflexivity|].
    destruct (Z.ltb_spec n 65536) as [Hm|Hm]; unfold struct_pack.
    + replace ((0 <=? n) && (n <? 2 ^ (8 * Z.of_nat 2))) with true; [reflexivity|].
      symmetry. apply andb_true_iff. split; [apply Z.leb_le|apply Z.ltb_lt]; 
        change (2 ^ (8 * Z.of_nat 2)) with 65536; lia.
    + replace ((0 <=? n) && (n <? 2 ^ (8 * Z.of_nat 8))) with true; [reflexivity|].
      symmetry. apply andb_true_iff. split; [apply Z.leb_le|apply Z.ltb_lt]; 
        change (2 ^ (8 * Z.of_nat 8)) with (2 ^ 64); lia.
  - apply xor_from_involutive.
  - apply ws_recv_server_frame; [vm_compute; discriminate ..|assumption].
Qed.

Lemma frame_roundtrip_unmasked_witness :
  Z.of_nat (List.length [104; 105]) < 2 ^ 64
  /\ ws_recv (mkSock (server_frame 0x81 [104; 105] ++ [7]) []) zero_entropy
     = (Payload [104; 105], mkSock [7] [], zero_entropy).
Proof.
  assert (H : Z.of_nat (List.length [104; 105]) < 2 ^ 64) by (vm_compute; reflexivity).
  split; [exact H|].
  exact (proj2 (proj2 (frame_roundtrip_unmasked [1; 2; 3; 4] [104; 105] [7] []
                         zero_entropy H))).
Defined.

Lemma land_lor_fin (h0 : Z) : Z.land (Z.lor h0 0x80) 0x0F = Z.land h0 0x0F.
Proof.
  rewrite Z.land_lor_distr_l. change (Z.land 0x80 0x0F) with 0.
  apply Z.lor_0_r.
Qed.

(** C8, as stated, fails: a text frame with the fin bit clear is returned
    to the caller like any other. *)
Lemma fin0_frame_delivered :
  ws_recv (mkSock [0x01; 0x02; 104; 105] []) zero_entropy
  = (Payload [104; 105], mkSock [] [], zero_entropy).
Proof. reflexivity. Qed.

(** C8 (amended). The decoder never looks at the fin bit: a frame is
    decoded the same with the bit clear or set, and a frame with the bit
    clear whose opcode is neither close nor ping has its payload returned
    to the caller. *)
Theorem fin_bit_ignored (h0 : Z) (payload rest out : bytes) (g : Rng.t) :
  Z.testbit h0 7 = false ->
  Z.land h0 0x0F <> 0x8 -> Z.land h0 0x0F <> 0x9 ->
  Z.of_nat (List.length payload) < 2 ^ 64 ->
  (forall tl, ws_recv (mkSock (h0 :: tl) out) g
              = ws_recv (mkSock (Z.lor h0 0x80 :: tl) out) g)
  /\ ws_recv (mkSock (server_frame h0 payload ++ rest) out) g
     = (Payload payload, mkSock rest out, g).
Proof.
  intros _ H8 H9 Hlen. split.
  - intros tl. unfold ws_recv. cbn [inbox List.length].
    destruct tl as [|h1 tl]; [reflexivity|].
    cbn [ws_recv_fuel].
    change (_recv_all (mkSock (h0 :: h1 :: tl) out) 2)
      with (Some [h0; h1], mkSock tl out).
    change (_recv_all (mkSock (Z.lor h0 0x80 :: h1 :: tl) out) 2)
      with (Some [Z.lor h0 0x80; h1], mkSock tl out).
    cbv beta iota. now rewrite land_lor_fin.
  - now apply ws_recv_server_frame.
Qed.

Lemma fin_bit_ignored_witness :
  ws_recv (mkSock (server_frame 0x01 [104; 105] ++ []) []) zero_entropy
  = (Payload [104; 105], mkSock [] [], zero_entropy).
Proof.
  refine (proj2 (fin_bit_ignored 0x01 [104; 105] [] [] zero_entropy _ _ _ _)).
  - reflexivity.
  - vm_compute. discriminate.
  - vm_compute. discriminate.
  - vm_compute. reflexivity.
Defined.

End CodecFacts.

(** ** Dictionaries and strings *)

Section DictFacts.

Import Json.
Open Scope string_scope.

Context {A : Type}.

Lemma dict_get_set_same (k : string) (v : A) (d : dict A) :
  dict_get k (dict_set k v d) = Some v.
Proof.
  induction d as [|[k' v'] rest IH]; cbn [dict_set dict_get].
  - now rewrite String.eqb_refl.
  - destruct (String.eqb k k') eqn:E; cbn [dict_get]; rewrite E; auto.
Qed.

Lemma dict_get_set_other (k k' : string) (v : A) (d : dict A) :
  k <> k' -> dict_get k' (dict_set k v d) = dict_get k' d.
Proof.
  intros Hne. induction d as [|[k0 v0] rest IH]; cbn [dict_set dict_get].
  - destruct (String.eqb_spec k' k); [congruence | reflexivity].
  - destruct (String.eqb_spec k k0) as [->|Hk]; cbn [dict_get].
    + destruct (String.eqb_spec k' k0); [congruence | reflexivity].
    + now rewrite IH.
Qed.

Lemma dict_keys_set_present (k : string) (v : A) (d : dict A) :
  dict_get k d <> None -> dict_keys (dict_set k v d) = dict_keys d.
Proof.
  induction d as [|[k0 v0] rest IH]; cbn [dict_set dict_get dict_keys map fst].
  - congruence.
  - destruct (String.eqb_spec k k0) as [->|Hk]; intros H.
    + reflexivity.
    + cbn [map fst]. f_equal. now apply IH.
Qed.

Lemma dict_get_not_in (k : string) (d : dict A) :
  ~ In k (dict_keys d) -> dict_get k d = None.
Proof.
  induction d as [|[k0 v0] rest IH]; cbn [dict_get dict_keys map fst In]; [reflexivity|].
  intros H. destruct (String.eqb_spec k k0) as [->|Hk]; [tauto|].
  apply IH. tauto.
Qed.

Lemma dict_get_in_keys (k : string) (v : A) (d : dict A) :
  dict_get k d = Some v -> In k (dict_keys d).
Proof.
  intros H. destruct (in_dec string_dec k (dict_keys d)) as [Hin|Hout]; [exact Hin|].
  rewrite (dict_get_not_in k d Hout) in H. discriminate.
Qed.

End DictFacts.

Section StringFacts.

Open Scope string_scope.

Lemma list_of_append (a b : string) :
  list_ascii_of_string (a ++ b)
  = (list_ascii_of_string a ++ list_ascii_of_string b)%list.
Proof.
  induction a as [|c a IH]; cbn; [reflexivity | now rewrite IH].
Qed.

Lemma list_of_string_inj (a b : string) :
  list_ascii_of_string a = list_ascii_of_string b -> a = b.
Proof.
  intros H. rewrite <- (string_of_list_ascii_of_string a),
    <- (string_of_list_ascii_of_string b). now rewrite H.
Qed.

Lemma append_cancel_r (a b s : string) : a ++ s = b ++ s -> a = b.
Proof.
  intros H. apply list_of_string_inj.
  apply (f_equal list_ascii_of_string) in H. rewrite !list_of_append in H.
  now apply app_inv_tail in H.
Qed.

(** The keys of [resolved_seeds] tell nodes and fields apart. *)
Lemma seed_key_inj (id id' f f' : string) :
  (f = "seed" \/ f = "noise_seed") -> (f' = "seed" \/ f' = "noise_seed") ->
  id ++ "." ++ f = id' ++ "." ++ f' -> id = id' /\ f = f'.
Proof.
  intros Hf Hf' H.
  assert (Hrev : forall x y : string,
             x ++ ".seed" = y ++ ".noise_seed" -> False).
  { intros x y E. apply (f_equal list_ascii_of_string) in E.
    rewrite !list_of_append in E. apply (f_equal (@rev ascii)) in E.
    rewrite !rev_app_distr in E. cbn in E. discriminate. }
  destruct Hf as [-> | ->], Hf' as [-> | ->].
  - split; [now apply (append_cancel_r id id' ".seed") | reflexivity].
  - exfalso. exact (Hrev _ _ H).
  - exfalso. symmetry in H. exact (Hrev _ _ H).
  - split; [now apply (append_cancel_r id id' ".noise_seed") | reflexivity].
Qed.

End StringFacts.

(** ** Progress relay *)

Section RelayFacts.

Import Json Relay.
Open Scope string_scope.

Lemma positive_not_zero (m : Q) : Qle_bool m 0 = false -> Qeq_bool m 0 = false.
Proof.
  intros Hle. destruct (Qeq_bool m 0) eqn:E; [|reflexivity].
  apply Qeq_bool_iff in E.
  assert (H : Qle_bool m 0 = true) by (apply Qle_bool_iff; rewrite E; apply Qle_refl).
  congruence.
Qed.

Lemma log2_ratio_one (a : positive) : log2_ratio a 1 = Z.log2 (Zpos a).
Proof.
  unfold log2_ratio. change (Z.log2 1) with 0%Z. rewrite Z.sub_0_r.
  pose proof (Z.log2_nonneg (Zpos a)) as Hn.
  destruct (Z.leb_spec 0 (Z.log2 (Zpos a))) as [_|]; [|lia].
  destruct (Z.leb_spec (1 * 2 ^ Z.log2 (Zpos a)) (Zpos a)) as [_|Hlt]; [reflexivity|].
  pose proof (Z.log2_spec (Zpos a) eq_refl). lia.
Qed.

Lemma round_half_even_floor (num den : Z) :
  (0 < den)%Z -> (num / den <= round_half_even num den)%Z.
Proof.
  intros Hd. unfold round_half_even.
  destruct (2 * (num mod den) ?= den)%Z; [destruct (Z.even (num / den))|..]; lia.
Qed.

(** The [float] of a positive [int] is not zero. *)
Lemma float_of_int_pos (n : Z) (f : pyfloat) :
  (0 < n)%Z -> float_of_int n = inr f -> is_zero f = false.
Proof.
  intros Hn. unfold float_of_int, round64. cbn [Qnum Qden inject_Z].
  destruct (Z.eqb_spec n 0) as [|_]; [lia|].
  replace (Z.to_pos (Z.abs n)) with (Z.to_pos n) by (f_equal; lia).
  rewrite log2_ratio_one, Z2Pos.id by exact Hn.
  rewrite !Z.mul_1_l.
  set (e := Z.max (-1074) (Z.log2 n - 52)).
  destruct (Z.leb_spec 0 e) as [He|He].
  - assert (Hpow : (0 < 2 ^ e)%Z) by (apply Z.pow_pos_nonneg; lia).
    assert (Hle : (2 ^ e <= n)%Z).
    { pose proof (Z.log2_spec n Hn) as [Hl _].
      apply Z.le_trans with (2 ^ Z.log2 n)%Z; [|exact Hl].
      apply Z.pow_le_mono_r; lia. }
    assert (Hq : (1 <= round_half_even n (2 ^ e))%Z).
    { apply Z.le_trans with (n / 2 ^ e)%Z;
        [|apply round_half_even_floor; lia].
      apply Z.div_le_lower_bound; lia. }
    assert (Hprod : (0 < round_half_even n (2 ^ e) * 2 ^ e)%Z)
      by (apply Z.mul_pos_pos; lia).
    destruct (2 ^ 1024 <=? Z.abs (round_half_even n (2 ^ e)) * 2 ^ e)%Z;
      [discriminate|].
    intros H. injection H as <-. cbn [is_zero].
    destruct (Qeq_bool _ 0) eqn:E; [|reflexivity].
    apply Qeq_bool_iff in E. unfold Qeq in E. cbn [Qnum Qden inject_Z] in E.
    lia.
  - assert (Hpow : (0 < 2 ^ (- e))%Z) by (apply Z.pow_pos_nonneg; lia).
    assert (Hr : round_half_even (n * 2 ^ (- e)) 1 = (n * 2 ^ (- e))%Z).
    { unfold round_half_even. rewrite Z.mod_1_r, Z.div_1_r. reflexivity. }
    assert (Hprod : (0 < n * 2 ^ (- e))%Z) by (apply Z.mul_pos_pos; lia).
    rewrite Hr.
    assert (Hnz : Qeq_bool (Qred (n * 2 ^ (- e) # Z.to_pos (2 ^ (- e)))) 0 = false).
    { destruct (Qeq_bool _ 0) eqn:E; [|reflexivity].
      apply Qeq_bool_iff in E.
      pose proof (Qeq_trans _ _ _ (Qeq_sym _ _ (Qred_correct _)) E) as E'.
      unfold Qeq in E'. cbn [Qnum Qden] in E'. lia. }
    intros H. injection H as <-. exact Hnz.
Qed.

(** A divisor that is greater than 0 is not zero for [/]. *)
Lemma gt0_divides (a b : json) :
  py_gt0 b = inr true -> py_truediv a b <> inl ZeroDivisionError.
Proof.
  assert (Hconv : forall v, match float_of_int v with
                            | inl e => e <> ZeroDivisionError
                            | inr _ => True
                            end).
  { intros v. unfold float_of_int. destruct (round64 _); try exact I; discriminate. }
  assert (Hdiv : forall x fy,
             is_zero fy = false ->
             match as_float x with
             | inl e => inl e
             | inr fx => float_div fx fy
             end <> inl ZeroDivisionError).
  { intros [v|fa] fy Hz; cbn [as_float].
    - specialize (Hconv v). destruct (float_of_int v) as [e|fv].
      + congruence.
      + unfold float_div. rewrite Hz. discriminate.
    - unfold float_div. rewrite Hz. discriminate. }
  unfold py_gt0, py_truediv.
  destruct (py_num b) as [[m|[q|neg|]]|]; try discriminate; intros Hb;
    injection Hb as Hb.
  - apply Z.ltb_lt in Hb.
    destruct (py_num a) as [[v|fa]|]; [| |discriminate].
    + destruct (Z.eqb_spec m 0) as [|_]; [lia|].
      destruct (round64 _); discriminate.
    + cbn [as_float]. specialize (Hconv m).
      destruct (float_of_int m) as [e|fm] eqn:Em; [congruence|].
      unfold float_div. rewrite (float_of_int_pos m fm Hb Em). discriminate.
  - apply negb_true_iff in Hb.
    destruct (py_num a) as [x|]; [|discriminate].
    assert (H := Hdiv x (Finite q) (positive_not_zero q Hb)).
    destruct x; exact H.
  - destruct (py_num a) as [x|]; [|discriminate].
    assert (H := Hdiv x (Inf neg) eq_refl).
    destruct x; exact H.
Qed.

(** What a message that passes the filter does. *)
Lemma on_message_passed (prompt_id : string) (msg data : dict json) :
  dict_get "data" msg = Some (JObj data) ->
  match dict_get "prompt_id" data with
  | Some p => truthy p && negb (eq_str p prompt_id) = false
  | None => True
  end ->
  on_message prompt_id msg
  = if match dict_get "type" msg with
       | Some t => eq_str t "progress"
       | None => false
       end
    then match py_gt0 (get_default "max" (JInt 1) data) with
         | inl e => Raise e
         | inr true =>
           match py_truediv (get_default "value" (JInt 0) data)
                   (get_default "max" (JInt 1) data) with
           | inl e => Raise e
           | inr q => Callback (PyFloat q)
           end
         | inr false => Callback (PyInt 0)
         end
    else if match dict_get "type" msg with
            | Some t => eq_str t "executed"
            | None => false
            end
         then Break else Ignore.
Proof.
  intros Hd Hp. unfold on_message, get_default at 1. rewrite Hd.
  replace (match dict_get "prompt_id" data with
           | Some p => truthy p && negb (eq_str p prompt_id)
           | None => false
           end) with false
    by (destruct (dict_get "prompt_id" data); [now rewrite Hp | reflexivity]).
  reflexivity.
Qed.

Lemma no_division_by_zero (prompt_id : string) (msg : dict json) :
  on_message prompt_id msg <> Raise ZeroDivisionError.
Proof.
  unfold on_message.
  destruct (get_default "data" (JObj []) msg) as [| | | | | |data]; try discriminate.
  destruct (match dict_get "prompt_id" data with
            | Some p => truthy p && negb (eq_str p prompt_id)
            | None => false
            end); [discriminate|].
  destruct (match dict_get "type" msg with
            | Some t => eq_str t "progress"
            | None => false
            end).
  - destruct (py_gt0 (get_default "max" (JInt 1) data)) as [e|[|]] eqn:Eg.
    + unfold py_gt0 in Eg.
      destruct (py_num (get_default "max" (JInt 1) data)) as [[m|[q|neg|]]|];
        try discriminate. injection Eg as <-. discriminate.
    + pose proof (gt0_divides (get_default "value" (JInt 0) data) _ Eg) as Hz.
      destruct (py_truediv _ _) as [e|q]; [|discriminate].
      intros H. injection H as ->. now apply Hz.
    + discriminate.
  - destruct (match dict_get "type" msg with
              | Some t => eq_str t "executed"
              | None => false
              end); discriminate.
Qed.

Lemma relay_ends_on_raise (prompt_id : string) (msg : dict json) (e : exn) :
  on_message prompt_id msg = Raise e ->
  forall rest, relay_loop prompt_id (msg :: rest) = ([], rest).
Proof.
  intros H rest. cbn [relay_loop]. now rewrite H.
Qed.

(** C7, as stated, fails twice. A progress message of the tracked job
    whose [value] is an integer too large for a [float]: the division
    raises, nothing is reported, and the relay ends with the next message
    unread. And a progress message whose [prompt_id] is the empty string,
    which differs from the tracked job's: it is reported. *)
Lemma progress_not_as_claimed :
  (on_message "job-1" (progress_msg (("prompt_id", JStr "job-1") :: huge_of_one))
   = Raise OverflowError
   /\ relay_loop "job-1"
        [progress_msg (("prompt_id", JStr "job-1") :: huge_of_one);
         progress_msg (("prompt_id", JStr "job-1") :: three_of_four)]
      = ([], [progress_msg (("prompt_id", JStr "job-1") :: three_of_four)]))
  /\ (eq_str (JStr "") "job-1" = false
      /\ on_message "job-1" (progress_msg (("prompt_id", JStr "") :: three_of_four))
         = Callback (PyFloat (Finite (3 # 4)))).
Proof. vm_compute. repeat split; reflexivity. Qed.

(** C7, as amended. A progress message whose [prompt_id] is set and
    differs from the tracked job's is dropped without a callback and the
    relay goes on. One whose [prompt_id] is the tracked job's calls back
    with 0, without dividing, when [max] is a number that is not greater
    than 0; when [max] is greater than 0 it calls back with the [float]
    that [value / max] gives, and when that division raises ([value] is
    not a number, or an integer too large for a [float]) there is no
    callback and the relay ends. For two integers the [float] is the
    binary64 value nearest to the quotient, or [OverflowError] when that
    is out of range. No message makes the relay divide by zero. *)
Theorem progress_message_filter (prompt_id : string) (msg data : dict json) :
  dict_get "type" msg = Some (JStr "progress") ->
  dict_get "data" msg = Some (JObj data) ->
  (forall p, dict_get "prompt_id" data = Some p ->
             truthy p = true -> eq_str p prompt_id = false ->
             on_message prompt_id msg = Ignore
             /\ forall rest, relay_loop prompt_id (msg :: rest)
                             = relay_loop prompt_id rest)
  /\ (dict_get "prompt_id" data = Some (JStr prompt_id) ->
      (py_gt0 (get_default "max" (JInt 1) data) = inr false ->
       on_message prompt_id msg = Callback (PyInt 0))
      /\ (py_gt0 (get_default "max" (JInt 1) data) = inr true ->
          (forall q,
             py_truediv (get_default "value" (JInt 0) data)
               (get_default "max" (JInt 1) data) = inr q ->
             on_message prompt_id msg = Callback (PyFloat q))
          /\ (forall e,
                py_truediv (get_default "value" (JInt 0) data)
                  (get_default "max" (JInt 1) data) = inl e ->
                on_message prompt_id msg = Raise e
                /\ forall rest, relay_loop prompt_id (msg :: rest) = ([], rest)))
      /\ (forall v m,
            get_default "value" (JInt 0) data = JInt v ->
            get_default "max" (JInt 1) data = JInt m ->
            (0 < m)%Z ->
            on_message prompt_id msg
            = match round64 (inject_Z v / inject_Z m)%Q with
              | Finite q => Callback (PyFloat (Finite q))
              | _ => Raise OverflowError
              end))
  /\ on_message prompt_id msg <> Raise ZeroDivisionError.
Proof.
  intros Ht Hd. split; [|split].
  - intros p Hp Htruthy Hne.
    assert (H : on_message prompt_id msg = Ignore).
    { unfold on_message, get_default at 1. now rewrite Hd, Hp, Htruthy, Hne. }
    split; [exact H|]. intros rest. cbn [relay_loop]. now rewrite H.
  - intros Hp.
    assert (Hshape := on_message_passed prompt_id msg data Hd).
    rewrite Hp, Ht in Hshape. cbn [eq_str] in Hshape.
    rewrite !String.eqb_refl in Hshape. cbn [negb andb] in Hshape.
    rewrite andb_false_r in Hshape. specialize (Hshape eq_refl).
    split; [|split].
    + intros Hg. now rewrite Hshape, Hg.
    + intros Hg. split.
      * intros q Hq. now rewrite Hshape, Hg, Hq.
      * intros e He.
        assert (H : on_message prompt_id msg = Raise e)
          by (now rewrite Hshape, Hg, He).
        split; [exact H | exact (relay_ends_on_raise _ _ _ H)].
    + intros v m Hv Hm Hpos. rewrite Hshape, Hv, Hm.
      unfold py_gt0, py_truediv. cbn [py_num].
      replace (0 <? m)%Z with true by (symmetry; apply Z.ltb_lt; exact Hpos).
      replace (m =? 0)%Z with false by (symmetry; apply Z.eqb_neq; lia).
      destruct (round64 _); reflexivity.
  - apply no_division_by_zero.
Qed.

Lemma progress_message_filter_witness :
  on_message "job-1" (progress_msg (("prompt_id", JStr "job-1") :: three_of_four))
  = Callback (PyFloat (Finite (3 # 4)))
  /\ on_message "job-1" (progress_msg (("prompt_id", JStr "job-2") :: three_of_four))
     = Ignore.
Proof.
  split.
  - exact (proj1 (proj1 (proj2 (proj1 (proj2 (progress_message_filter "job-1"
                           (progress_msg (("prompt_id", JStr "job-1") :: three_of_four))
                           (("prompt_id", JStr "job-1") :: three_of_four)
                           eq_refl eq_refl)) eq_refl)) eq_refl)
             (Finite (3 # 4)) eq_refl).
  - exact (proj1 (proj1 (progress_message_filter "job-1"
                           (progress_msg (("prompt_id", JStr "job-2") :: three_of_four))
                           (("prompt_id", JStr "job-2") :: three_of_four)
                           eq_refl eq_refl)
                    (JStr "job-2") eq_refl eq_refl eq_refl)).
Defined.



End RelayFacts.

(** ** Job executor: seed resolution *)

Section SeedFacts.

Import Json Graph Executor.
Open Scope string_scope.

Lemma later_refl (g : Rng.t) : later g g.
Proof. split; [reflexivity | apply Nat.le_refl]. Qed.

Lemma later_trans (g1 g2 g3 : Rng.t) : later g1 g2 -> later g2 g3 -> later g1 g3.
Proof.
  intros [E1 L1] [E2 L2]. split; [congruence | lia].
Qed.

Lemma drawn_range (g g' : Rng.t) (r : Z) : drawn g g' r -> 1 <= r <= seed_max.
Proof.
  intros (k & _ & ->). unfold draw_at, seed_max.
  pose proof (Z.mod_pos_bound (Rng.entropy g k) (2 ^ 32 - 1) ltac:(reflexivity)).
  lia.
Qed.

Lemma drawn_widen (g0 g1 g2 g3 : Rng.t) (r : Z) :
  later g0 g1 -> later g2 g3 -> drawn g1 g2 r -> drawn g0 g3 r.
Proof.
  intros [E1 L1] [E2 L2] (k & Hk & ->). exists k. split; [lia|].
  unfold draw_at. now rewrite E1.
Qed.

Lemma randint_drawn (g : Rng.t) :
  drawn g (snd (Rng.randint 1 seed_max g)) (fst (Rng.randint 1 seed_max g))
  /\ later g (snd (Rng.randint 1 seed_max g)).
Proof.
  unfold Rng.randint. cbn [fst snd]. split.
  - exists (Rng.cursor g). cbn [Rng.cursor]. split; [lia | reflexivity].
  - split; cbn [Rng.entropy Rng.cursor]; [reflexivity | lia].
Qed.

Lemma positive_not_sentinel (r : Z) : 1 <= r -> is_sentinel (JInt r) = false.
Proof.
  intros Hr. cbn [is_sentinel]. apply orb_false_iff.
  split; apply Z.eqb_neq; lia.
Qed.

Lemma resolve_field_settled (id f : string) (ni : dict json) (rs : dict Z) (g : Rng.t) :
  settled f ni = true -> resolve_field id f (ni, rs, g) = (ni, rs, g).
Proof.
  unfold settled, resolve_field. destruct (dict_get f ni) as [v|]; [|reflexivity].
  destruct (is_sentinel v); [discriminate | reflexivity].
Qed.

Lemma resolve_field_spec (id f : string) (ni : dict json) (rs : dict Z) (g : Rng.t) :
  forall ni' rs' g', resolve_field id f (ni, rs, g) = (ni', rs', g') ->
  settled f ni' = true
  /\ (forall f2, f2 <> f -> dict_get f2 ni' = dict_get f2 ni)
  /\ (forall k, k <> id ++ "." ++ f -> dict_get k rs' = dict_get k rs)
  /\ (forall v, dict_get f ni = Some v -> is_sentinel v = true ->
        exists r, drawn g g' r
                  /\ dict_get f ni' = Some (JInt r)
                  /\ dict_get (id ++ "." ++ f) rs' = Some r)
  /\ later g g'.
Proof.
  intros ni' rs' g' H. unfold resolve_field in H.
  destruct (dict_get f ni) as [v|] eqn:Ev.
  - destruct (is_sentinel v) eqn:Es.
    + pose proof (randint_drawn g) as [Hr Hl].
      destruct (Rng.randint 1 seed_max g) as [r g1]. cbn [fst snd] in Hr, Hl.
      injection H as <- <- <-. split; [|split; [|split; [|split]]].
      * unfold settled. rewrite dict_get_set_same.
        rewrite positive_not_sentinel by (apply (drawn_range _ _ _ Hr)). reflexivity.
      * intros f2 Hne. apply dict_get_set_other. congruence.
      * intros k Hne. apply dict_get_set_other. intros E. apply Hne. symmetry. exact E.
      * intros v' _ _. exists r. split; [exact Hr|].
        split; apply dict_get_set_same.
      * exact Hl.
    + injection H as <- <- <-. split; [|split; [|split; [|split]]]; auto.
      * unfold settled. now rewrite Ev, Es.
      * intros v' Hv' Hs'. congruence.
      * apply later_refl.
  - injection H as <- <- <-. split; [|split; [|split; [|split]]]; auto.
    + unfold settled. now rewrite Ev.
    + intros v' Hv'. discriminate.
    + apply later_refl.
Qed.

Lemma resolve_node_spec (id : string) (nd : node) (rs : dict Z) (g : Rng.t) :
  forall nd' rs' g', resolve_node id nd rs g = (nd', rs', g') ->
  (forall k, (forall f, is_seed_field f -> k <> id ++ "." ++ f) ->
             dict_get k rs' = dict_get k rs)
  /\ (forall ni f v, n_inputs nd = Some ni -> is_seed_field f ->
        dict_get f ni = Some v -> is_sentinel v = true ->
        exists r ni', drawn g g' r
                      /\ dict_get (id ++ "." ++ f) rs' = Some r
                      /\ n_inputs nd' = Some ni'
                      /\ dict_get f ni' = Some (JInt r))
  /\ (forall rs0 g0, resolve_node id nd' rs0 g0 = (nd', rs0, g0))
  /\ later g g'.
Proof.
  intros nd' rs' g' H. unfold resolve_node in H.
  destruct (n_inputs nd) as [ni|] eqn:En.
  - destruct (resolve_field id "seed" (ni, rs, g)) as [[ni1 rs1] g1] eqn:E1.
    destruct (resolve_field id "noise_seed" (ni1, rs1, g1)) as [[ni2 rs2] g2] eqn:E2.
    injection H as <- <- <-.
    destruct (resolve_field_spec _ _ _ _ _ _ _ _ E1) as (S1 & I1 & R1 & V1 & L1).
    destruct (resolve_field_spec _ _ _ _ _ _ _ _ E2) as (S2 & I2 & R2 & V2 & L2).
    assert (Hss : settled "seed" ni2 = true).
    { unfold settled in *. rewrite I2 by discriminate. exact S1. }
    split; [|split; [|split]].
    + intros k Hk. rewrite R2 by (apply Hk; right; reflexivity).
      apply R1, Hk. left; reflexivity.
    + intros ni0 f v Hni Hf Hv Hs. injection Hni as <-.
      destruct Hf as [-> | ->].
      * destruct (V1 v Hv Hs) as (r & Hr & Hget & Hrs).
        exists r, ni2.
        split; [exact (drawn_widen _ _ _ _ _ (later_refl g) L2 Hr)|]. split; [|split].
        -- rewrite R2; [exact Hrs|].
           intros E. destruct (seed_key_inj id id "seed" "noise_seed") as [_ F];
             [left; reflexivity | right; reflexivity | exact E | discriminate].
        -- reflexivity.
        -- rewrite I2 by discriminate. exact Hget.
      * assert (Hv1 : dict_get "noise_seed" ni1 = Some v)
          by (rewrite I1 by discriminate; exact Hv).
        destruct (V2 v Hv1 Hs) as (r & Hr & Hget & Hrs).
        exists r, ni2.
        split; [exact (drawn_widen _ _ _ _ _ L1 (later_refl g2) Hr) | auto].
    + intros rs0 g0. unfold resolve_node. cbn [n_inputs n_other].
      rewrite (resolve_field_settled id "seed" ni2 rs0 g0 Hss).
      rewrite (resolve_field_settled id "noise_seed" ni2 rs0 g0 S2).
      reflexivity.
    + exact (later_trans _ _ _ L1 L2).
  - injection H as <- <- <-. split; [|split; [|split]].
    + reflexivity.
    + intros ni f v Hni. congruence.
    + intros rs0 g0. unfold resolve_node. now rewrite En.
    + apply later_refl.
Qed.

Lemma resolve_seeds_spec :
  forall (p : prompt) (rs : dict Z) (g : Rng.t) p' rs' g',
    NoDup (dict_keys p) ->
    resolve_seeds p rs g = (p', rs', g') ->
    (forall k, (forall id f, In id (dict_keys p) -> is_seed_field f ->
                             k <> id ++ "." ++ f) ->
               dict_get k rs' = dict_get k rs)
    /\ (forall id nd ni f v,
          dict_get id p = Some nd -> n_inputs nd = Some ni -> is_seed_field f ->
          dict_get f ni = Some v -> is_sentinel v = true ->
          exists r nd' ni', drawn g g' r
                            /\ dict_get (id ++ "." ++ f) rs' = Some r
                            /\ dict_get id p' = Some nd'
                            /\ n_inputs nd' = Some ni'
                            /\ dict_get f ni' = Some (JInt r))
    /\ (forall rs0 g0, resolve_seeds p' rs0 g0 = (p', rs0, g0))
    /\ later g g'.
Proof.
  induction p as [|[hid hnd] rest IH]; intros rs g p' rs' g' Hnd H;
    cbn [resolve_seeds] in H.
  - injection H as <- <- <-. split; [|split; [|split]]; try reflexivity.
    + intros id nd ni f v Hget. discriminate.
    + apply later_refl.
  - destruct (resolve_node hid hnd rs g) as [[nd1 rs1] g1] eqn:E1.
    destruct (resolve_seeds rest rs1 g1) as [[rest' rs2] g2] eqn:E2.
    injection H as <- <- <-.
    cbn [dict_keys map fst] in Hnd. apply NoDup_cons_iff in Hnd.
    destruct Hnd as [Hfresh Hnd].
    destruct (resolve_node_spec _ _ _ _ _ _ _ E1) as (R1 & V1 & I1 & L1).
    destruct (IH _ _ _ _ _ Hnd E2) as (R2 & V2 & I2 & L2).
    split; [|split; [|split]].
    + intros k Hk. rewrite R2, R1; [reflexivity | |].
      * intros f Hf. apply Hk; [left; reflexivity | exact Hf].
      * intros id f Hin Hf. apply Hk; [right; exact Hin | exact Hf].
    + intros id nd ni f v Hget Hni Hf Hv Hs. cbn [dict_get] in Hget |- *.
      destruct (String.eqb_spec id hid) as [->|Hne].
      * injection Hget as <-.
        destruct (V1 ni f v Hni Hf Hv Hs) as (r & ni' & Hr & Hrs & Hni' & Hget').
        exists r, nd1, ni'.
        split; [exact (drawn_widen _ _ _ _ _ (later_refl g) L2 Hr)|]. split; [|auto].
        rewrite R2; [exact Hrs|].
        intros id' f' Hin Hf' E.
        destruct (seed_key_inj hid id' f f' Hf Hf' E) as [-> _]. contradiction.
      * destruct (V2 id nd ni f v Hget Hni Hf Hv Hs)
          as (r & nd' & ni' & Hr & Hrest).
        exists r, nd', ni'.
        split; [exact (drawn_widen _ _ _ _ _ L1 (later_refl g2) Hr) | exact Hrest].
    + intros rs0 g0. cbn [resolve_seeds]. now rewrite I1, I2.
    + exact (later_trans _ _ _ L1 L2).
Qed.

Lemma override_keys (p : prompt) (kv : string * json) :
  dict_keys (override p kv) = dict_keys p.
Proof.
  unfold override. destruct (split_dot (fst kv)) as [[node_id field]|]; [|reflexivity].
  destruct (dict_get node_id p) eqn:E; [|reflexivity].
  apply dict_keys_set_present. congruence.
Qed.

Lemma apply_inputs_keys (inputs : dict json) :
  forall p, dict_keys (apply_inputs inputs p) = dict_keys p.
Proof.
  unfold apply_inputs. induction inputs as [|kv rest IH]; intros p; cbn [fold_left].
  - reflexivity.
  - now rewrite IH, override_keys.
Qed.

(** C2. Every field named [seed] or [noise_seed] that holds [-1], [0],
    ["-1"] or ["0"] when the seed loop runs is replaced by an integer of
    [1 .. 2^32 - 1] drawn from the entropy during this job; that integer is recorded in [resolved_seeds] under
    [node_id.field] and is the value in the submitted graph; running the
    seed loop again on the submitted graph draws nothing and changes
    neither the graph nor the record. *)
Theorem seed_sentinels_resolved
    (template : prompt) (inputs : dict json) (g : Rng.t)
    (node_id field : string) (nd : node) (ni : dict json) (v : json) :
  NoDup (dict_keys template) ->
  dict_get node_id (apply_inputs inputs template) = Some nd ->
  n_inputs nd = Some ni ->
  is_seed_field field ->
  dict_get field ni = Some v ->
  v = JInt (-1) \/ v = JInt 0 \/ v = JStr "-1" \/ v = JStr "0" ->
  exists submitted resolved_seeds g' r nd' ni',
    build_prompt template inputs g = (submitted, resolved_seeds, g')
    /\ drawn g g' r
    /\ 1 <= r <= 2 ^ 32 - 1
    /\ dict_get (node_id ++ "." ++ field) resolved_seeds = Some r
    /\ dict_get node_id submitted = Some nd'
    /\ n_inputs nd' = Some ni'
    /\ dict_get field ni' = Some (JInt r)
    /\ resolve_seeds submitted resolved_seeds g' = (submitted, resolved_seeds, g').
Proof.
  intros Hnd Hget Hni Hf Hv Hsent. unfold build_prompt.
  destruct (resolve_seeds (apply_inputs inputs template) [] g)
    as [[submitted rs] g'] eqn:E.
  assert (Hnd' : NoDup (dict_keys (apply_inputs inputs template)))
    by (now rewrite apply_inputs_keys).
  destruct (resolve_seeds_spec _ _ _ _ _ _ Hnd' E) as (_ & V & I & _).
  assert (Hs : is_sentinel v = true)
    by (destruct Hsent as [-> | [-> | [-> | ->]]]; reflexivity).
  destruct (V node_id nd ni field v Hget Hni Hf Hv Hs)
    as (r & nd' & ni' & Hr & Hrs & Hsub & Hni' & Hval).
  exists submitted, rs, g', r, nd', ni'.
  pose proof (drawn_range _ _ _ Hr) as Hrange. unfold seed_max in Hrange.
  repeat split; try assumption; try apply Hrange. apply I.
Qed.

Lemma seed_sentinels_resolved_witness :
  exists submitted resolved_seeds g' r nd' ni',
    build_prompt sample_graph [] counting_entropy = (submitted, resolved_seeds, g')
    /\ drawn counting_entropy g' r
    /\ 1 <= r <= 2 ^ 32 - 1
    /\ dict_get ("3" ++ "." ++ "seed") resolved_seeds = Some r
    /\ dict_get "3" submitted = Some nd'
    /\ n_inputs nd' = Some ni'
    /\ dict_get "seed" ni' = Some (JInt r)
    /\ resolve_seeds submitted resolved_seeds g' = (submitted, resolved_seeds, g').
Proof.
  apply (seed_sentinels_resolved sample_graph [] counting_entropy
           "3" "seed" sampler_node sampler_inputs (JInt (-1))).
  - repeat constructor; cbn; intuition discriminate.
  - reflexivity.
  - reflexivity.
  - left. reflexivity.
  - reflexivity.
  - left. reflexivity.
Defined.

(** The sample graph after the seed loop: both sentinels replaced, each
    by its own draw, both recorded. *)
Example sample_graph_resolved :
  fst (build_prompt sample_graph [] counting_entropy)
  = ([("3", mkNode (Some [("seed", JInt 2); ("steps", JInt 20)])
             [("class_type", JStr "KSampler")]);
      ("7", mkNode (Some [("noise_seed", JInt 3)])
             [("class_type", JStr "RandomNoise")])],
     [("3.seed", 2); ("7.noise_seed", 3)]).
Proof. reflexivity. Qed.

End SeedFacts.

(** ** Job executor: result type *)

Section MimeFacts.

Import Json Graph Executor.
Open Scope string_scope.

Example splitext_plain : splitext "ComfyUI_00001_.png" = ("ComfyUI_00001_", ".png").
Proof. reflexivity. Qed.

Example splitext_last_dot : splitext "out/a.tar.GZ" = ("out/a.tar", ".GZ").
Proof. reflexivity. Qed.

Example splitext_leading_dots : splitext "out/..png" = ("out/..png", "").
Proof. reflexivity. Qed.

Example splitext_dot_in_folder : splitext "v1.2/clip" = ("v1.2/clip", "").
Proof. reflexivity. Qed.

Example output_type_upper : output_type "clip.MP4" = "video/mp4".
Proof. reflexivity. Qed.

(** C4, as stated, fails: a first output file with an extension the
    executor does not know is reported as a PNG image. *)
Lemma unknown_extension_reported_png :
  result_output_type
    [("9", [("images", [mkEntry (Some "render.bin") (Some "") (Some "output")])])]
  = Some "image/png"
  /\ result_output_type
       [("9", [("images", [mkEntry (Some "render.bin") (Some "") (Some "output")])])]
     <> Some "application/octet-stream".
Proof. split; [reflexivity | discriminate]. Qed.

(** C4 (amended). The result type of a completed job follows the lowered
    extension of its first output file: [.jpg] and [.jpeg] give
    [image/jpeg], [.webp] gives [image/webp], [.mp4] gives [video/mp4],
    [.gif] gives [image/gif], and every other extension, [.png] and the
    unknown ones alike, gives [image/png]; [application/octet-stream] is
    never reported. *)
Theorem result_type_by_extension (outs : outputs) (filename : string) :
  first_output outs = Some filename ->
  let ext := lower (snd (splitext filename)) in
  exists t,
    result_output_type outs = Some t
    /\ (ext = ".jpg" \/ ext = ".jpeg" -> t = "image/jpeg")
    /\ (ext = ".webp" -> t = "image/webp")
    /\ (ext = ".mp4" -> t = "video/mp4")
    /\ (ext = ".gif" -> t = "image/gif")
    /\ (ext <> ".jpg" -> ext <> ".jpeg" -> ext <> ".webp" -> ext <> ".mp4" ->
        ext <> ".gif" -> t = "image/png")
    /\ t <> "application/octet-stream".
Proof.
  intros Hfirst ext. exists (output_type filename).
  unfold result_output_type. rewrite Hfirst. cbn [option_map].
  split; [reflexivity|]. unfold output_type. fold ext.
  destruct (String.eqb_spec ext ".jpg") as [->|Njpg];
    [cbn [orb]; repeat split; intros; try reflexivity; try discriminate;
     try congruence; intuition discriminate|].
  destruct (String.eqb_spec ext ".jpeg") as [->|Njpeg];
    [cbn [orb]; repeat split; intros; try reflexivity; try discriminate;
     try congruence; intuition discriminate|].
  cbn [orb].
  destruct (String.eqb_spec ext ".webp") as [->|Nwebp];
    [repeat split; intros; try reflexivity; try discriminate;
     try congruence; intuition discriminate|].
  destruct (String.eqb_spec ext ".mp4") as [->|Nmp4];
    [repeat split; intros; try reflexivity; try discriminate;
     try congruence; intuition discriminate|].
  destruct (String.eqb_spec ext ".gif") as [->|Ngif];
    [repeat split; intros; try reflexivity; try discriminate;
     try congruence; intuition discriminate|].
  repeat split; intros; try reflexivity; try discriminate; try congruence;
    intuition congruence.
Qed.

Lemma result_type_by_extension_witness :
  exists t,
    result_output_type
      [("9", [("images", [mkEntry (Some "render.bin") (Some "") (Some "output")])])]
    = Some t
    /\ t <> "application/octet-stream".
Proof.
  destruct (result_type_by_extension
              [("9", [("images", [mkEntry (Some "render.bin") (Some "") (Some "output")])])]
              "render.bin" eq_refl) as (t & Ht & _ & _ & _ & _ & _ & Hne).
  exists t. split; assumption.
Defined.

End MimeFacts.

(** ** Pipeline orchestrator *)

Section PipelineFacts.

Import Json Graph Backend Pipeline.
Open Scope string_scope.

Variable cfg : config.
Variable be : backend.

(** What one iteration adds to the run state, by the way it ends. *)
Lemma run_step_inv (idx : nat) (s : step) (st : run_state) (fl : flow) (st1 : run_state) :
  run_step cfg be idx s st = (fl, st1) ->
  (exists new_posts,
      posted st1 = (posted st ++ new_posts)%list
      /\ Forall (fun p => p_step p = (idx + 1)%nat) new_posts)
  /\ match fl with
     | Next =>
       exists pid outs,
         poll_loop be idx 0 poll_budget = Some outs
         /\ prev_output st1 = match _extract_outputs outs with
                              | first :: _ => Some (output_ref first)
                              | [] => prev_output st
                              end
         /\ completed st1
            = (completed st ++ [StepComplete (idx + 1) pid (prev_output st1)])%list
     | Stop =>
       exists e, completed st1 = (completed st ++ [e])%list
                 /\ stepIndex e = (idx + 1)%nat
                 /\ ~ step_complete e
     | Abort => completed st1 = completed st
     end.
Proof.
  unfold run_step, fail, step_complete. intros H.
  destruct (find_workflow cfg (workflowId s)) as [wf|].
  2:{ injection H as <- <-. cbn. split.
      - exists []. rewrite app_nil_r. auto.
      - eexists. repeat split. discriminate. }
  destruct (find_server cfg (wf_serverRef wf)) as [sv|].
  2:{ injection H as <- <-. cbn. split.
      - exists []. rewrite app_nil_r. auto.
      - eexists. repeat split. discriminate. }
  destruct (submit be idx _) as [exc|[prompt_id|]].
  - injection H as <- <-. cbn. split.
    + eexists. split; [reflexivity|]. repeat constructor.
    + eexists. repeat split. discriminate.
  - destruct (String.eqb prompt_id "").
    + injection H as <- <-. cbn. split.
      * eexists. split; [reflexivity|]. repeat constructor.
      * eexists. repeat split. discriminate.
    + destruct (poll_loop be idx 0 poll_budget) as [outs|] eqn:Ep.
      * destruct (store_raises be idx); injection H as <- <-; cbn; split;
          try (eexists; split; [reflexivity | repeat constructor]).
        -- reflexivity.
        -- exists prompt_id, outs. repeat split.
      * injection H as <- <-. cbn. split.
        -- eexists. split; [reflexivity|]. repeat constructor.
        -- eexists. repeat split. discriminate.
  - injection H as <- <-. cbn. split.
    + eexists. split; [reflexivity|]. repeat constructor.
    + eexists. repeat split. discriminate.
Qed.

(** The shape of a whole run from step [idx] on. *)
Lemma run_steps_inv :
  forall (steps : list step) (idx : nat) (st : run_state) (fl : flow) (st' : run_state),
    run_steps cfg be idx steps st = (fl, st') ->
    exists done new_posts,
      completed st' = (completed st ++ done)%list
      /\ posted st' = (posted st ++ new_posts)%list
      /\ Forall (fun e => idx < stepIndex e)%nat done
      /\ match fl with
         | Next =>
           List.length done = List.length steps
           /\ Forall step_complete done
           /\ Forall (fun p => p_step p <= idx + List.length done)%nat new_posts
         | Stop =>
           exists ok e,
             done = (ok ++ [e])%list
             /\ Forall step_complete ok
             /\ ~ step_complete e
             /\ stepIndex e = (idx + List.length done)%nat
             /\ (List.length done <= List.length steps)%nat
             /\ Forall (fun p => p_step p <= stepIndex e)%nat new_posts
         | Abort =>
           (List.length done < List.length steps)%nat
           /\ Forall step_complete done
         end.
Proof.
  induction steps as [|s rest IH]; intros idx st fl st' H; cbn [run_steps] in H.
  - injection H as <- <-. exists [], []. rewrite !app_nil_r.
    repeat split; constructor.
  - destruct (run_step cfg be idx s st) as [fl1 st1] eqn:E1.
    destruct (run_step_inv _ _ _ _ _ E1) as [(np1 & Hp1 & Hnp1) Hfl1].
    destruct fl1.
    + destruct Hfl1 as (pid & outs & _ & _ & Hc1).
      destruct (IH _ _ _ _ H) as (done & np & Hc & Hp & Hidx & Hfl).
      exists (StepComplete (idx + 1) pid (prev_output st1) :: done), (np1 ++ np)%list.
      rewrite Hc, Hc1, Hp, Hp1, <- !app_assoc. cbn [app].
      split; [reflexivity|]. split; [reflexivity|]. split.
      * constructor; [cbn; lia|].
        eapply Forall_impl; [|exact Hidx]. cbn. intros; lia.
      * destruct fl.
        -- destruct Hfl as (Hlen & Hall & Hposts). cbn [List.length].
           split; [lia|]. split; [constructor; [reflexivity | exact Hall]|].
           apply Forall_app. split.
           ++ eapply Forall_impl; [|exact Hnp1]. cbn. intros; lia.
           ++ eapply Forall_impl; [|exact Hposts]. cbn. intros; lia.
        -- destruct Hfl as (ok & e & -> & Hok & Hne & He & Hlen & Hposts).
           exists (StepComplete (idx + 1) pid (prev_output st1) :: ok), e.
           cbn [List.length app] in *.
           split; [reflexivity|].
           split; [constructor; [reflexivity | exact Hok]|].
           split; [exact Hne|]. split; [lia|]. split; [lia|].
           apply Forall_app. split.
           ++ eapply Forall_impl; [|exact Hnp1]. cbn. intros; lia.
           ++ exact Hposts.
        -- destruct Hfl as (Hlen & Hall). cbn [List.length].
           split; [lia|]. constructor; [reflexivity | exact Hall].
    + injection H as <- <-. destruct Hfl1 as (e & Hc1 & He & Hne).
      exists [e], np1. split; [exact Hc1|]. split; [exact Hp1|]. split.
      * constructor; [lia | constructor].
      * exists [], e. cbn [List.length app].
        split; [reflexivity|]. split; [constructor|]. split; [exact Hne|].
        split; [lia|]. split; [lia|].
        eapply Forall_impl; [|exact Hnp1]. cbn. intros; lia.
    + injection H as <- <-. exists [], np1. rewrite app_nil_r.
      split; [exact Hfl1|]. split; [exact Hp1|]. split; [constructor|].
      cbn [List.length]. split; [lia | constructor].
Qed.


(** When a step fails, no later step is submitted; the status is
    ["error"] when the failing step is not the last one, and ["complete"]
    when it is. *)
Lemma pipeline_failure_outcome (steps : list step) (pl : pipeline) (posts : list post) :
  _run_pipeline cfg be steps = (pl, posts) ->
  forall e, In e (pl_completed pl) -> ~ step_complete e ->
    Forall (fun p => p_step p <= stepIndex e)%nat posts
    /\ ((stepIndex e < List.length steps)%nat -> status pl = "error")
    /\ (stepIndex e = List.length steps -> status pl = "complete").
Proof.
  unfold _run_pipeline.
  destruct (run_steps cfg be 0 steps init_state) as [fl st] eqn:E.
  intros H. injection H as <- <-. cbn [pl_completed status].
  destruct (run_steps_inv _ _ _ _ _ E) as (done & np & Hc & Hp & _ & Hfl).
  cbn in Hc, Hp. rewrite Hc, Hp. intros e Hin Hne.
  destruct fl.
  - destruct Hfl as (_ & Hall & _). rewrite Forall_forall in Hall.
    exfalso. exact (Hne (Hall e Hin)).
  - destruct Hfl as (ok & e' & -> & Hok & _ & He & Hlen & Hposts).
    apply in_app_or in Hin. destruct Hin as [Hin | [<- | []]].
    + rewrite Forall_forall in Hok. exfalso. exact (Hne (Hok e Hin)).
    + split; [exact Hposts|]. cbn [Nat.add] in He. rewrite He. split; intros Hi.
      * replace (List.length (ok ++ [e']) =? List.length steps)%nat with false;
          [reflexivity|]. symmetry. apply Nat.eqb_neq. lia.
      * rewrite Hi, Nat.eqb_refl. reflexivity.
  - destruct Hfl as (_ & Hall). rewrite Forall_forall in Hall.
    exfalso. exact (Hne (Hall e Hin)).
Qed.

(** A run that is not cut short by an exception ends ["complete"] when
    every step completed. *)
Lemma pipeline_all_complete (steps : list step) :
  fst (run_steps cfg be 0 steps init_state) = Next ->
  status (fst (_run_pipeline cfg be steps)) = "complete"
  /\ Forall step_complete (pl_completed (fst (_run_pipeline cfg be steps)))
  /\ List.length (pl_completed (fst (_run_pipeline cfg be steps))) = List.length steps.
Proof.
  unfold _run_pipeline.
  destruct (run_steps cfg be 0 steps init_state) as [fl st] eqn:E.
  cbn [fst]. intros ->. cbn [fst status pl_completed].
  destruct (run_steps_inv _ _ _ _ _ E) as (done & np & Hc & _ & _ & Hlen & Hall & _).
  cbn in Hc. rewrite Hc, Hlen, Nat.eqb_refl. auto.
Qed.

Lemma resolve_prev_get (ref key : string) (ins : dict json) :
  ref <> "" ->
  dict_get key ins = Some (JStr "__prev__") ->
  dict_get key (resolve_prev (Some ref) ins) = Some (JStr ref).
Proof.
  intros Href. unfold resolve_prev.
  replace (negb (String.eqb ref "")) with true
    by (symmetry; apply negb_true_iff, String.eqb_neq; exact Href).
  induction ins as [|[k v] rest IH]; cbn [dict_get map fst snd]; [discriminate|].
  intros H. destruct (String.eqb key k) eqn:Ek.
  - injection H as ->. cbn. now rewrite Ek.
  - destruct (eq_str v "__prev__" && true); cbn [dict_get]; rewrite Ek; auto.
Qed.

Lemma extracted_filename (outs : outputs) (it : item) :
  In it (_extract_outputs outs) -> i_filename it <> "".
Proof.
  unfold _extract_outputs. intros H.
  apply in_flat_map in H. destruct H as (kv & _ & H).
  apply in_flat_map in H. destruct H as (key & _ & H).
  apply in_flat_map in H. destruct H as (e & _ & H).
  unfold entry_items in H. destruct (e_filename e) as [f|]; [|contradiction].
  destruct (String.eqb_spec f ""); [contradiction|].
  destruct H as [<- | []]. exact n.
Qed.

Lemma output_ref_nonempty (it : item) : i_filename it <> "" -> output_ref it <> "".
Proof.
  unfold output_ref. intros H.
  destruct (String.eqb_spec (i_subfolder it) "") as [_|Hs]; [exact H|].
  destruct (i_subfolder it); [contradiction | discriminate].
Qed.

(** The submission made by a step that finds its workflow and server. *)
Lemma run_step_post (idx : nat) (s : step) (st : run_state) (wf : workflow) (sv : server) :
  find_workflow cfg (workflowId s) = Some wf ->
  find_server cfg (wf_serverRef wf) = Some sv ->
  In (mkPost (idx + 1) (resolve_prev (prev_output st) (inputs s))
        (apply_inputs (resolve_prev (prev_output st) (inputs s)) (wf_prompt wf)))
     (posted (snd (run_step cfg be idx s st))).
Proof.
  intros Hwf Hsv. unfold run_step, fail. rewrite Hwf, Hsv.
  destruct (submit be idx _) as [exc|[prompt_id|]]; cbn [snd posted];
    try (apply in_or_app; right; left; reflexivity).
  destruct (String.eqb prompt_id ""); cbn [snd posted];
    try (apply in_or_app; right; left; reflexivity).
  destruct (poll_loop be idx 0 poll_budget); [destruct (store_raises be idx)|];
    cbn [snd posted]; apply in_or_app; right; left; reflexivity.
Qed.

Lemma run_steps_posted_grows :
  forall (steps : list step) (idx : nat) (st : run_state) (p : post),
    In p (posted st) -> In p (posted (snd (run_steps cfg be idx steps st))).
Proof.
  intros steps idx st p Hin.
  destruct (run_steps cfg be idx steps st) as [fl st'] eqn:E.
  destruct (run_steps_inv _ _ _ _ _ E) as (done & np & _ & Hp & _).
  cbn [snd]. rewrite Hp. apply in_or_app. now left.
Qed.

Lemma chained_submission :
  forall (steps : list step) (idx : nat) (st : run_state) (j : nat)
         (sj sn : step) (key pid : string) (path : option string)
         (outs : outputs) (first : item) (more : list item)
         (wf : workflow) (sv : server),
    Forall (fun e => stepIndex e <= idx)%nat (completed st) ->
    nth_error steps j = Some sj ->
    nth_error steps (S j) = Some sn ->
    In (StepComplete (idx + j + 1) pid path)
       (completed (snd (run_steps cfg be idx steps st))) ->
    poll_loop be (idx + j) 0 poll_budget = Some outs ->
    _extract_outputs outs = first :: more ->
    dict_get key (inputs sn) = Some (JStr "__prev__") ->
    find_workflow cfg (workflowId sn) = Some wf ->
    find_server cfg (wf_serverRef wf) = Some sv ->
    exists p,
      In p (posted (snd (run_steps cfg be idx steps st)))
      /\ p_step p = (idx + j + 2)%nat
      /\ p_inputs p = resolve_prev (Some (output_ref first)) (inputs sn)
      /\ dict_get key (p_inputs p) = Some (JStr (output_ref first))
      /\ p_prompt p = apply_inputs (p_inputs p) (wf_prompt wf).
Proof.
  induction steps as [|s rest IH];
    intros idx st j sj sn key pid path outs first more wf sv
           Hold Hj Hn Hin Hpoll Hext Hkey Hwf Hsv.
  - destruct j; discriminate.
  - cbn [run_steps] in *.
    destruct (run_step cfg be idx s st) as [fl1 st1] eqn:E1.
    destruct (run_step_inv _ _ _ _ _ E1) as [_ Hfl1].
    assert (Hnot : forall done,
               completed st1 = (completed st ++ done)%list ->
               Forall (fun e => ~ step_complete e) done \/ done = [] ->
               ~ In (StepComplete (idx + j + 1) pid path) (completed st1)).
    { intros done Hc Hdone Hin'. rewrite Hc in Hin'.
      apply in_app_or in Hin'. destruct Hin' as [Hin' | Hin'].
      - rewrite Forall_forall in Hold. specialize (Hold _ Hin'). cbn in Hold. lia.
      - destruct Hdone as [Hdone | ->]; [|contradiction].
        rewrite Forall_forall in Hdone. apply (Hdone _ Hin'). reflexivity. }
    destruct fl1.
    + destruct Hfl1 as (pid1 & outs1 & Hp1 & Hprev1 & Hc1).
      destruct j as [|j'].
      * cbn [nth_error] in Hj, Hn. destruct rest as [|sn' rest']; [discriminate|].
        injection Hn as ->. rewrite Nat.add_0_r in Hpoll.
        rewrite Hpoll in Hp1. injection Hp1 as <-. rewrite Hext in Hprev1.
        cbn [run_steps].
        destruct (run_step cfg be (S idx) sn st1) as [fl2 st2] eqn:E2.
        pose proof (run_step_post (S idx) sn st1 wf sv Hwf Hsv) as Hpost.
        rewrite E2 in Hpost. cbn [snd] in Hpost. rewrite Hprev1 in Hpost.
        eexists. split.
        -- destruct fl2; [apply run_steps_posted_grows|cbn [snd]..]; exact Hpost.
        -- cbn [p_step p_inputs p_prompt]. split; [lia|]. split; [reflexivity|].
           split; [|reflexivity].
           apply resolve_prev_get; [|exact Hkey].
           apply output_ref_nonempty, (extracted_filename outs).
           rewrite Hext. left; reflexivity.
      * cbn [nth_error] in Hj, Hn.
        replace (idx + S j' + 1)%nat with (S idx + j' + 1)%nat in Hin by lia.
        replace (idx + S j')%nat with (S idx + j')%nat in Hpoll by lia.
        destruct (IH (S idx) st1 j' sj sn key pid path outs first more wf sv)
          as (p & Hp & Hstep & Hins & Hval & Hprompt); try assumption.
        -- rewrite Hc1. apply Forall_app. split.
           ++ eapply Forall_impl; [|exact Hold]. cbn. intros; lia.
           ++ constructor; [cbn; lia | constructor].
        -- exists p. split; [exact Hp|]. split; [lia | auto].
    + exfalso. cbn [snd] in Hin. destruct Hfl1 as (e & Hc1 & He & Hne).
      apply (Hnot [e] Hc1); [|exact Hin].
      left. constructor; [exact Hne | constructor].
    + exfalso. cbn [snd] in Hin.
      apply (Hnot [] (eq_trans Hfl1 (eq_sym (app_nil_r _)))); [|exact Hin].
      now right.
Qed.

End PipelineFacts.

Section PipelineClaims.

Import Json Graph Backend Pipeline.
Open Scope string_scope.

(** C1. The code breaks the claim when the failing step is the last one:
    the failure entry is counted with the completed ones, so the final
    status is ["complete"]. Shown on a one-step pipeline whose workflow is
    unknown, on a one-step pipeline whose step exhausts its 240 polls, and
    on a two-step pipeline whose second step names an unknown workflow. *)
Theorem failed_last_step_reported_complete :
  _run_pipeline no_workflows silent_backend [mkStep "missing" []]
  = (mkPipeline "complete" 0 [StepError 1 "workflow not found"], [])
  /\ fst (_run_pipeline chain_config silent_backend [mkStep "wf1" []])
     = mkPipeline "complete" 1 [StepTimeout 1 "pid"]
  /\ fst (_run_pipeline chain_config prompt_backend
            [mkStep "wf1" []; mkStep "missing" []])
     = mkPipeline "complete" 1
         [StepComplete 1 "pid" (Some "out/a.png");
          StepError 2 "workflow not found"].
Proof. repeat split; vm_compute; reflexivity. Qed.

(** A failure before the last step is reported, and the later steps are
    not submitted. *)
Example failed_first_step_reported_error :
  _run_pipeline no_workflows silent_backend
    [mkStep "missing" []; mkStep "missing" []]
  = (mkPipeline "error" 0 [StepError 1 "workflow not found"], []).
Proof. reflexivity. Qed.

(** The second submission of the sample pipeline: the image input of
    node 1 is the first step's output. *)
Example chain_second_post :
  nth_error (snd (_run_pipeline chain_config prompt_backend chain_steps)) 1
  = Some (mkPost 2 [("1.image", JStr "out/a.png")]
            [("1", mkNode (Some [("image", JStr "out/a.png")])
                     [("class_type", JStr "LoadImage")])]).
Proof. reflexivity. Qed.

End PipelineClaims.

(** ** Batch orchestrator *)

Section BatchFacts.

Import Json Graph Backend Batch.
Open Scope string_scope.

(** *** Seed variation *)

Lemma vary_fields_get (v : json) (key : string) :
  forall (fields : list (string * string)) (acc : dict json),
    (exists nf, In nf fields /\ key = fst nf ++ "." ++ snd nf)
    \/ dict_get key acc = Some v ->
    dict_get key
      (fold_left (fun acc nf => dict_set (fst nf ++ "." ++ snd nf) v acc) fields acc)
    = Some v.
Proof.
  induction fields as [|nf rest IH]; intros acc H; cbn [fold_left].
  - destruct H as [(nf & [] & _) | H]. exact H.
  - apply IH. destruct H as [(nf' & [<- | Hin] & ->) | H].
    + right. apply dict_get_set_same.
    + left. exists nf'. auto.
    + destruct (string_dec (fst nf ++ "." ++ snd nf) key) as [<- | Hne].
      * right. apply dict_get_set_same.
      * right. now rewrite dict_get_set_other.
Qed.

Lemma vary_at_range (g : Rng.t) (k : nat) : 1 <= vary_at g k <= 2 ^ 31 - 1.
Proof.
  unfold vary_at, vary_max.
  pose proof (Z.mod_pos_bound (Rng.entropy g k) (2 ^ 31 - 1) ltac:(reflexivity)).
  lia.
Qed.

Lemma run_inputs_varied (fields : list (string * string)) (inputs : dict json) (g : Rng.t) :
  fields <> [] ->
  Rng.entropy (snd (run_inputs true fields inputs g)) = Rng.entropy g
  /\ Rng.cursor (snd (run_inputs true fields inputs g)) = S (Rng.cursor g)
  /\ forall node_id field,
       In (node_id, field) fields ->
       dict_get (node_id ++ "." ++ field) (fst (run_inputs true fields inputs g))
       = Some (JInt (vary_at g (Rng.cursor g))).
Proof.
  intros Hne. unfold run_inputs. destruct fields as [|nf0 rest]; [congruence|].
  unfold Rng.randint. cbn [fst snd Rng.entropy Rng.cursor].
  split; [reflexivity|]. split; [reflexivity|].
  intros node_id field Hin.
  change (1 + Rng.entropy g (Rng.cursor g) mod (vary_max - 1 + 1))
    with (vary_at g (Rng.cursor g)).
  apply vary_fields_get. left. exists (node_id, field). auto.
Qed.

Lemma make_runs_varied (fields : list (string * string)) (inputs : dict json) :
  fields <> [] ->
  forall (count idx : nat) (g : Rng.t),
    List.length (fst (make_runs idx count true fields inputs g)) = count
    /\ Rng.entropy (snd (make_runs idx count true fields inputs g)) = Rng.entropy g
    /\ Rng.cursor (snd (make_runs idx count true fields inputs g))
       = (Rng.cursor g + count)%nat
    /\ forall i r,
         nth_error (fst (make_runs idx count true fields inputs g)) i = Some r ->
         r_index r = (idx + i + 1)%nat
         /\ forall node_id field,
              In (node_id, field) fields ->
              dict_get (node_id ++ "." ++ field) (r_inputs r)
              = Some (JInt (vary_at g (Rng.cursor g + i))).
Proof.
  intros Hne. induction count as [|count IH]; intros idx g; cbn [make_runs].
  - cbn [fst snd List.length]. split; [reflexivity|]. split; [reflexivity|].
    split; [lia|]. intros [|i] r H; discriminate.
  - destruct (run_inputs_varied fields inputs g Hne) as (He1 & Hc1 & Hv1).
    destruct (run_inputs true fields inputs g) as [ri g1].
    cbn [fst snd] in He1, Hc1, Hv1.
    destruct (IH (S idx) g1) as (Hl & He & Hc & Hr).
    destruct (make_runs (S idx) count true fields inputs g1) as [rest g2].
    cbn [fst snd] in *. split; [cbn; lia|]. split; [congruence|]. split; [lia|].
    intros [|i] r H; cbn [nth_error] in H.
    + injection H as <-. cbn [r_index r_inputs]. split; [lia|].
      intros node_id field Hin. rewrite Nat.add_0_r. now apply Hv1.
    + destruct (Hr i r H) as (Hi & Hv). split; [lia|].
      intros node_id field Hin. rewrite (Hv node_id field Hin).
      unfold vary_at. rewrite He1, Hc1.
      now replace (S (Rng.cursor g) + i)%nat with (Rng.cursor g + S i)%nat by lia.
Qed.


(** C9, as stated, fails: with [varySeed] the two seed fields of the
    sample graph receive the same value in each run, and two runs consume
    two draws, not four. *)
Lemma seed_fields_share_one_draw :
  map r_inputs (runs (fst (create_batch sample_graph 2 true [] counting_entropy)))
  = [[("3.seed", JInt 2); ("7.noise_seed", JInt 2)];
     [("3.seed", JInt 3); ("7.noise_seed", JInt 3)]]
  /\ Rng.cursor (snd (create_batch sample_graph 2 true [] counting_entropy)) = 2%nat.
Proof. split; reflexivity. Qed.

(** C9 (amended). With [varySeed] and a workflow that has seed fields,
    each run makes one draw of [1 .. 2^31 - 1] and writes that one value
    to every seed field of the run, whatever the fields hold in the
    workflow; run [i] uses draw [i], so different runs use different
    draws. *)
Theorem vary_seed_one_draw_per_run
    (wf_prompt : prompt) (requested : nat) (inputs : dict json) (g : Rng.t) :
  _find_seed_fields wf_prompt <> [] ->
  let b := fst (create_batch wf_prompt requested true inputs g) in
  let g' := snd (create_batch wf_prompt requested true inputs g) in
  List.length (runs b) = Nat.max 1 requested
  /\ Rng.cursor g' = (Rng.cursor g + List.length (runs b))%nat
  /\ forall i r,
       nth_error (runs b) i = Some r ->
       1 <= vary_at g (Rng.cursor g + i) <= 2 ^ 31 - 1
       /\ forall node_id field,
            In (node_id, field) (_find_seed_fields wf_prompt) ->
            dict_get (node_id ++ "." ++ field) (r_inputs r)
            = Some (JInt (vary_at g (Rng.cursor g + i))).
Proof.
  intros Hne. unfold create_batch.
  destruct (make_runs_varied (_find_seed_fields wf_prompt) inputs Hne
              (Nat.max 1 requested) 0 g) as (Hl & _ & Hc & Hr).
  destruct (make_runs 0 (Nat.max 1 requested) true (_find_seed_fields wf_prompt)
              inputs g) as [rs g1].
  cbn [fst snd runs] in *. split; [exact Hl|]. split; [lia|].
  intros i r H. split; [apply vary_at_range|]. exact (proj2 (Hr i r H)).
Qed.

Lemma vary_seed_one_draw_per_run_witness :
  _find_seed_fields sample_graph <> []
  /\ dict_get ("7" ++ "." ++ "noise_seed")
       (r_inputs (mkRun 2 None "queued"
                    [("3.seed", JInt 3); ("7.noise_seed", JInt 3)] None))
     = Some (JInt (vary_at counting_entropy (0 + 1))).
Proof.
  assert (Hne : _find_seed_fields sample_graph <> []) by discriminate.
  split; [exact Hne|].
  exact (proj2 (proj2 (proj2 (vary_seed_one_draw_per_run sample_graph 2 []
                                counting_entropy Hne))
                  1%nat
                  (mkRun 2 None "queued"
                     [("3.seed", JInt 3); ("7.noise_seed", JInt 3)] None)
                  eq_refl)
           "7" "noise_seed" (or_intror (or_introl eq_refl))).
Defined.

(** *** Batch status *)


Lemma marked_status (prompt_id : string) (r : run) :
  mark_run prompt_id r = r
  \/ (r_promptId r <> None /\ r_status (mark_run prompt_id r) = "complete"
      /\ r_promptId (mark_run prompt_id r) = r_promptId r).
Proof.
  unfold mark_run. destruct (r_promptId r) as [p|]; [|now left].
  destruct (String.eqb p prompt_id); [|now left].
  right. cbn. repeat split. discriminate.
Qed.

















(** A batch whose runs are all accepted and all found by the pollers ends
    ["complete"]. *)
Example batch_reaches_complete :
  option_map (fun s => b_status (the_batch s))
    (exec_all (start two_runs)
       [Submitted (SubmitReply (Some "p1")); Submitted (SubmitReply (Some "p2"));
        LoopDone; Polled "p2"; Polled "p1"])
  = Some "complete".
Proof. reflexivity. Qed.

End BatchFacts.

(** ** The decoder on a stack with room for the stream *)

Section DecoderTotal.

Import Codec.

Lemma recv_all_shrinks (s : socket) (n : nat) :
  (List.length (inbox (snd (_recv_all s n))) <= List.length (inbox s))%nat.
Proof.
  unfold _recv_all. destruct (n <=? List.length (inbox s))%nat; cbn [snd inbox].
  - rewrite length_skipn. lia.
  - cbn [List.length]. lia.
Qed.

(** With room for more calls than there are bytes to read,
    [ws_recv_fuel] does not run out of stack. *)
Lemma ws_recv_fuel_enough :
  forall (fuel : nat) (s : socket) (g : Rng.t),
    (List.length (inbox s) < fuel)%nat ->
    fst (fst (ws_recv_fuel fuel s g)) <> RecursionError.
Proof.
  induction fuel as [|fuel IH]; intros s g Hlen; [lia|].
  destruct s as [[|h0 [|h1 tl]] out]; try (cbn; discriminate).
  cbn [ws_recv_fuel].
  change (_recv_all (mkSock (h0 :: h1 :: tl) out) 2)
    with (Some [h0; h1], mkSock tl out).
  cbv beta iota. cbn [inbox List.length] in Hlen.
  destruct (Z.land h0 15 =? 8); [cbn; discriminate|].
  destruct (Z.land h0 15 =? 9).
  - assert (Hs2 : forall n,
               (List.length
                  (inbox (snd (if Z.eqb (Z.land h1 127) 0 then (Some [], mkSock tl out)
                               else _recv_all (mkSock tl out) n)))
                <= List.length tl)%nat).
    { intros n. destruct (Z.land h1 127 =? 0); [cbn; lia|].
      apply (recv_all_shrinks (mkSock tl out) n). }
    specialize (Hs2 (Z.to_nat (Z.land h1 127))).
    destruct (if Z.land h1 127 =? 0 then (Some [], mkSock tl out)
              else _recv_all (mkSock tl out) (Z.to_nat (Z.land h1 127)))
      as [payload s2].
    cbn [snd] in Hs2.
    destruct (Rng.urandom 4 g) as [mask g'].
    apply IH. cbn [sendall inbox]. lia.
  - destruct (if Z.land h1 127 =? 126
              then match _recv_all (mkSock tl out) 2 with
                   | (Some bs, s2) => (Some (be_value bs), s2)
                   | (None, s2) => (None, s2)
                   end
              else if Z.land h1 127 =? 127
                   then match _recv_all (mkSock tl out) 8 with
                        | (Some bs, s2) => (Some (be_value bs), s2)
                        | (None, s2) => (None, s2)
                        end
                   else (Some (Z.land h1 127), mkSock tl out)) as [[len|] s2];
      [|cbn; discriminate].
    destruct (if len =? 0 then (Some [], s2) else _recv_all s2 (Z.to_nat len))
      as [[p|] s3]; cbn; discriminate.
Qed.

Lemma ws_recv_returns (s : socket) (g : Rng.t) :
  fst (fst (ws_recv s g)) <> RecursionError.
Proof.
  unfold ws_recv. apply ws_recv_fuel_enough. lia.
Qed.

(** A ping is answered with a masked pong of the same payload, and the
    frame after it is the one returned. *)
Example ping_then_text :
  ws_recv (mkSock [0x89; 0x02; 7; 9; 0x81; 0x01; 65] []) counting_entropy
  = (Payload [65],
     mkSock [] [0x8A; 0x82; 1; 2; 3; 4; 6; 11],
     Rng.mk (Rng.entropy counting_entropy) 4).
Proof. reflexivity. Qed.

(** A close frame, and a stream that ends inside a frame, give [None]; a
    stream that ends inside an extended length raises. *)
Example close_and_short_streams :
  fst (fst (ws_recv (mkSock [0x88; 0x00] []) zero_entropy)) = Closed
  /\ fst (fst (ws_recv (mkSock [0x81; 0x03; 65] []) zero_entropy)) = Closed
  /\ fst (fst (ws_recv (mkSock [0x81; 126; 1] []) zero_entropy)) = Raised.
Proof. repeat split. Qed.

End DecoderTotal.

(** * Further properties *)

(** ** Frame codec: pings *)

Section CodecMore.

Import Codec Frames.

Lemma ws_recv_fuel_stable :
  forall (f1 f2 : nat) (s : socket) (g : Rng.t),
    (List.length (inbox s) < f1)%nat -> (List.length (inbox s) < f2)%nat ->
    ws_recv_fuel f1 s g = ws_recv_fuel f2 s g.
Proof.
  induction f1 as [|f1 IH]; intros f2 s g H1 H2; [lia|].
  destruct f2 as [|f2]; [lia|].
  destruct s as [[|h0 [|h1 tl]] out]; try reflexivity.
  cbn [ws_recv_fuel].
  change (_recv_all (mkSock (h0 :: h1 :: tl) out) 2)
    with (Some [h0; h1], mkSock tl out).
  cbv beta iota. cbn [inbox List.length] in H1, H2.
  destruct (Z.land h0 15 =? 8); [reflexivity|].
  destruct (Z.land h0 15 =? 9); [|reflexivity].
  assert (Hs2 : forall n,
             (List.length
                (inbox (snd (if Z.eqb (Z.land h1 127) 0 then (Some [], mkSock tl out)
                             else _recv_all (mkSock tl out) n)))
              <= List.length tl)%nat).
  { intros n. destruct (Z.eqb (Z.land h1 127) 0); [cbn; lia|].
    apply (recv_all_shrinks (mkSock tl out) n). }
  specialize (Hs2 (Z.to_nat (Z.land h1 127))).
  destruct (if Z.land h1 127 =? 0 then (Some [], mkSock tl out)
            else _recv_all (mkSock tl out) (Z.to_nat (Z.land h1 127)))
    as [payload s2].
  cbn [snd] in Hs2. destruct (Rng.urandom 4 g) as [mask g'].
  apply IH; cbn [sendall inbox]; lia.
Qed.

Lemma ws_recv_ping (fuel : nat) (h0 h1 : Z) (tl out : bytes) (g : Rng.t) :
  Z.land h0 0x0F = 0x9 ->
  ws_recv_fuel (S fuel) (mkSock (h0 :: h1 :: tl) out) g =
  let '(payload, s2) :=
    if Z.land h1 0x7F =? 0 then (Some [], mkSock tl out)
    else _recv_all (mkSock tl out) (Z.to_nat (Z.land h1 0x7F)) in
  let '(mask, g') := Rng.urandom 4 g in
  let masked := xor_mask mask (match payload with Some p => p | None => [] end) in
  ws_recv_fuel fuel
    (sendall s2 ([0x8A; Z.lor 0x80 (Z.of_nat (List.length masked))] ++ mask ++ masked))
    g'.
Proof.
  intros H9. cbn [ws_recv_fuel].
  change (_recv_all (mkSock (h0 :: h1 :: tl) out) 2)
    with (Some [h0; h1], mkSock tl out).
  cbv beta iota. rewrite H9. reflexivity.
Qed.

(** X2. A ping frame (opcode 9, payload of the length in its second
    byte) is answered at once with a pong that carries a fresh 4-byte mask
    and the ping's payload XOR-ed with it, so that unmasking the pong
    gives the ping's payload back; the decoder then goes on with the frame
    that follows, and the caller never sees the ping. *)
Theorem ping_answered_with_pong
    (h0 h1 : Z) (payload rest out : bytes) (g : Rng.t) :
  Z.land h0 0x0F = 0x9 ->
  Z.land h1 0x7F = Z.of_nat (List.length payload) ->
  ws_recv (mkSock (h0 :: h1 :: payload ++ rest) out) g
  = ws_recv (mkSock rest (out ++ pong_frame (fst (Rng.urandom 4 g)) payload))
            (snd (Rng.urandom 4 g))
  /\ xor_mask (fst (Rng.urandom 4 g))
       (xor_mask (fst (Rng.urandom 4 g)) payload) = payload.
Proof.
  intros H9 Hlen. split; [|apply xor_from_involutive].
  unfold ws_recv at 1. cbn [inbox].
  rewrite ws_recv_ping by exact H9.
  rewrite (recv_payload _ payload rest out Hlen).
  destruct (Rng.urandom 4 g) as [mask g'] eqn:Eu. cbn [fst snd]. cbv zeta.
  unfold xor_mask at 1. rewrite xor_from_length.
  change (sendall (mkSock rest out)
            ([138; Z.lor 128 (Z.of_nat (List.length payload))]
             ++ mask ++ xor_mask mask payload))
    with (mkSock rest (out ++ pong_frame mask payload)).
  unfold ws_recv. apply ws_recv_fuel_stable; cbn [inbox List.length];
    rewrite ?length_app; lia.
Qed.

Lemma ping_answered_with_pong_witness :
  ws_recv (mkSock (0x89 :: 0x02 :: [7; 9] ++ [0x81; 0x01; 65]) []) counting_entropy
  = ws_recv (mkSock [0x81; 0x01; 65]
               ([] ++ pong_frame (fst (Rng.urandom 4 counting_entropy)) [7; 9]))
            (snd (Rng.urandom 4 counting_entropy)).
Proof.
  exact (proj1 (ping_answered_with_pong 0x89 0x02 [7; 9] [0x81; 0x01; 65] []
                  counting_entropy eq_refl eq_refl)).
Defined.

(** X1. [ws_recv] answers a run of pings one by one, in order, each with
    a mask of its own, before it looks at what follows, and it calls
    itself once per ping. With room for [depth] nested calls and [k]
    pings: when [k < depth] every ping is answered and the result is what
    decoding the rest gives with room for [depth - k] calls; otherwise
    the first [depth] pings are answered, the others are left unread, and
    the call ends in [RecursionError]. *)
Theorem pings_answered_up_to_depth (pings : list bytes) :
  forall (depth : nat) (rest out : bytes) (g : Rng.t),
    Forall (fun payload => (List.length payload < 128)%nat) pings ->
    ws_recv_fuel depth (mkSock (List.concat (map ping_frame pings) ++ rest) out) g
    = let '(out', g') := answer_pings (firstn depth pings) out g in
      if (List.length pings <? depth)%nat
      then ws_recv_fuel (depth - List.length pings) (mkSock rest out') g'
      else (RecursionError,
            mkSock (List.concat (map ping_frame (skipn depth pings)) ++ rest) out',
            g').
Proof.
  induction pings as [|payload more IH]; intros depth rest out g Hall.
  - cbn [firstn List.length map List.concat app answer_pings skipn].
    rewrite firstn_nil, skipn_nil. cbn [answer_pings map List.concat app].
    destruct depth as [|depth]; [reflexivity|].
    replace (0 <? S depth)%nat with true by reflexivity.
    now rewrite Nat.sub_0_r.
  - destruct depth as [|depth]; [reflexivity|].
    inversion Hall as [|? ? Hlen Hmore]; subst.
    cbn [map List.concat firstn skipn List.length answer_pings].
    unfold ping_frame at 1. rewrite <- !app_assoc. cbn [app].
    rewrite ws_recv_ping by reflexivity.
    rewrite (recv_payload _ payload (List.concat (map ping_frame more) ++ rest) out)
      by (apply land_low7; lia).
    destruct (Rng.urandom 4 g) as [mask g'] eqn:Eu. cbv zeta.
    unfold xor_mask at 1. rewrite xor_from_length.
    change (sendall (mkSock (List.concat (map ping_frame more) ++ rest) out)
              ([138; Z.lor 128 (Z.of_nat (List.length payload))]
               ++ mask ++ xor_mask mask payload))
      with (mkSock (List.concat (map ping_frame more) ++ rest)
              (out ++ pong_frame mask payload)).
    rewrite (IH depth rest (out ++ pong_frame mask payload) g' Hmore).
    reflexivity.
Qed.

Lemma pings_answered_up_to_depth_witness :
  ws_recv_fuel 1 (mkSock (List.concat (map ping_frame [[7; 9]; [5]]) ++ [0x81; 0x01; 65]) [])
    counting_entropy
  = (RecursionError,
     mkSock (List.concat (map ping_frame [[5]]) ++ [0x81; 0x01; 65])
            [0x8A; 0x82; 1; 2; 3; 4; 6; 11],
     Rng.mk (Rng.entropy counting_entropy) 4).
Proof.
  refine (pings_answered_up_to_depth [[7; 9]; [5]] 1 [0x81; 0x01; 65] []
            counting_entropy _).
  repeat constructor.
Defined.

End CodecMore.

(** ** Progress relay: malformed messages and the end of the relay *)

Section RelayMore.

Import Json Relay RelayTrace.
Open Scope string_scope.

Lemma relay_ends_here (prompt_id : string) (msg : dict json) (rest : list (dict json)) :
  ends_relay prompt_id msg = true ->
  relay_loop prompt_id (msg :: rest) = ([], rest).
Proof.
  unfold ends_relay. cbn [relay_loop].
  destruct (on_message prompt_id msg); try discriminate; reflexivity.
Qed.

(** X3. A message that is not filtered out ends the relay, without a
    callback and with the later messages unread, when its [data] is not an
    object, or when it is a progress message whose [max] is not a number,
    or whose [max] is greater than 0 and whose [value] is not a number.
    When [max] is a number that is not greater than 0, 0 is reported
    whatever [value] is. *)
Theorem malformed_message_ends_relay
    (prompt_id : string) (msg data : dict json) (rest : list (dict json)) :
  match dict_get "prompt_id" data with
  | Some p => truthy p && negb (eq_str p prompt_id) = false
  | None => True
  end ->
  (forall d, dict_get "data" msg = Some d ->
             (forall kv, d <> JObj kv) ->
             relay_loop prompt_id (msg :: rest) = ([], rest))
  /\ (dict_get "type" msg = Some (JStr "progress") ->
      dict_get "data" msg = Some (JObj data) ->
      (py_num (get_default "max" (JInt 1) data) = None ->
       on_message prompt_id msg = Raise TypeError
       /\ relay_loop prompt_id (msg :: rest) = ([], rest))
      /\ (py_gt0 (get_default "max" (JInt 1) data) = inr true ->
          py_num (get_default "value" (JInt 0) data) = None ->
          on_message prompt_id msg = Raise TypeError
          /\ relay_loop prompt_id (msg :: rest) = ([], rest))
      /\ (py_gt0 (get_default "max" (JInt 1) data) = inr false ->
          on_message prompt_id msg = Callback (PyInt 0))).
Proof.
  intros Hp. split.
  - intros d Hd Hobj. apply relay_ends_here. unfold ends_relay, on_message, get_default.
    rewrite Hd. destruct d; try reflexivity. exfalso. exact (Hobj kv eq_refl).
  - intros Ht Hd.
    assert (Hshape := on_message_passed prompt_id msg data Hd Hp).
    rewrite Ht in Hshape. cbn [eq_str] in Hshape.
    rewrite String.eqb_refl in Hshape.
    split; [|split].
    + intros Hm.
      assert (H : on_message prompt_id msg = Raise TypeError)
        by (rewrite Hshape; unfold py_gt0; now rewrite Hm).
      split; [exact H|]. apply relay_ends_here. unfold ends_relay. now rewrite H.
    + intros Hpos Hv.
      assert (H : on_message prompt_id msg = Raise TypeError).
      { rewrite Hshape, Hpos. unfold py_truediv. rewrite Hv.
        destruct (py_num (get_default "max" (JInt 1) data)) as [[|]|]; reflexivity. }
      split; [exact H|]. apply relay_ends_here. unfold ends_relay. now rewrite H.
    + intros Hneg. now rewrite Hshape, Hneg.
Qed.

Lemma malformed_message_ends_relay_witness :
  relay_loop "job-1"
    [progress_msg [("value", JInt 1); ("max", JStr "ten")];
     progress_msg three_of_four]
  = ([], [progress_msg three_of_four])
  /\ on_message "job-1" (progress_msg [("value", JStr "one"); ("max", JInt 0)])
     = Callback (PyInt 0).
Proof.
  split.
  - exact (proj2 (proj1 (proj2 (malformed_message_ends_relay "job-1"
                   (progress_msg [("value", JInt 1); ("max", JStr "ten")])
                   [("value", JInt 1); ("max", JStr "ten")]
                   [progress_msg three_of_four] I)
                   eq_refl eq_refl) eq_refl)).
  - exact (proj2 (proj2 (proj2 (malformed_message_ends_relay "job-1"
                   (progress_msg [("value", JStr "one"); ("max", JInt 0)])
                   [("value", JStr "one"); ("max", JInt 0)]
                   [] I)
                   eq_refl eq_refl)) eq_refl).
Defined.

(** X4. The relay handles messages in order until the first one that ends
    it: the values reported are exactly those of the messages before it,
    in order, and no message after it is handled. *)
Theorem relay_stops_at_first_end
    (prompt_id : string) (before : list (dict json)) (last : dict json)
    (after : list (dict json)) :
  forallb (fun m => negb (ends_relay prompt_id m)) before = true ->
  ends_relay prompt_id last = true ->
  relay_loop prompt_id (before ++ last :: after)
  = (flat_map (reported prompt_id) before, after)
  /\ relay_loop prompt_id before = (flat_map (reported prompt_id) before, []).
Proof.
  intros Hbefore Hlast.
  induction before as [|m rest IH]; cbn [app flat_map forallb] in *.
  - split; [now apply relay_ends_here | reflexivity].
  - apply andb_true_iff in Hbefore. destruct Hbefore as (Hm & Hrest).
    destruct (IH Hrest) as (IH1 & IH2). cbn [relay_loop].
    unfold ends_relay in Hm. unfold reported at 1 3.
    destruct (on_message prompt_id m); try discriminate; rewrite IH1, IH2;
      split; reflexivity.
Qed.

Lemma relay_stops_at_first_end_witness :
  relay_loop "job-1"
    ([progress_msg three_of_four] ++ executed_msg [] :: [progress_msg three_of_four])
  = (flat_map (reported "job-1") [progress_msg three_of_four],
     [progress_msg three_of_four]).
Proof.
  exact (proj1 (relay_stops_at_first_end "job-1" [progress_msg three_of_four]
                  (executed_msg []) [progress_msg three_of_four] eq_refl eq_refl)).
Defined.

End RelayMore.

(** ** Job executor: what the seed loop leaves alone *)

Section SeedMore.

Import Json Graph Executor.
Open Scope string_scope.

Lemma dict_keys_set_same {A} (k : string) (v : A) (d : dict A) (old : A) :
  dict_get k d = Some old -> dict_keys (dict_set k v d) = dict_keys d.
Proof.
  intros H. apply dict_keys_set_present. congruence.
Qed.

Lemma resolve_field_frame (id f : string) (ni : dict json) (rs : dict Z) (g : Rng.t)
    (ni' : dict json) (rs' : dict Z) (g' : Rng.t) :
  resolve_field id f (ni, rs, g) = (ni', rs', g') ->
  dict_keys ni' = dict_keys ni
  /\ (settled f ni = true -> ni' = ni /\ rs' = rs /\ g' = g).
Proof.
  intros H. split.
  - unfold resolve_field in H. destruct (dict_get f ni) as [v|] eqn:Ev.
    + destruct (is_sentinel v).
      * destruct (Rng.randint 1 seed_max g) as [r g1]. injection H as <- <- <-.
        exact (dict_keys_set_same f (JInt r) ni v Ev).
      * now injection H as <- <- <-.
    + now injection H as <- <- <-.
  - intros Hs. rewrite (resolve_field_settled id f ni rs g Hs) in H.
    now injection H as <- <- <-.
Qed.

(** The relation between a node before and after the seed loop. *)
Lemma resolve_node_frame (id : string) (nd : node) (rs : dict Z) (g : Rng.t)
    (nd' : node) (rs' : dict Z) (g' : Rng.t) :
  resolve_node id nd rs g = (nd', rs', g') ->
  n_other nd' = n_other nd
  /\ match n_inputs nd, n_inputs nd' with
     | None, None => True
     | Some ni, Some ni' =>
       dict_keys ni' = dict_keys ni
       /\ settled "seed" ni' = true
       /\ settled "noise_seed" ni' = true
       /\ forall f, ~ is_seed_field f \/ settled f ni = true ->
                    dict_get f ni' = dict_get f ni
     | _, _ => False
     end.
Proof.
  intros H. unfold resolve_node in H. destruct (n_inputs nd) as [ni|] eqn:En.
  - destruct (resolve_field id "seed" (ni, rs, g)) as [[ni1 rs1] g1] eqn:E1.
    destruct (resolve_field id "noise_seed" (ni1, rs1, g1)) as [[ni2 rs2] g2] eqn:E2.
    injection H as <- <- <-. cbn [n_other n_inputs]. split; [reflexivity|].
    destruct (resolve_field_spec _ _ _ _ _ _ _ _ E1) as (S1 & I1 & _).
    destruct (resolve_field_spec _ _ _ _ _ _ _ _ E2) as (S2 & I2 & _).
    destruct (resolve_field_frame _ _ _ _ _ _ _ _ E1) as (K1 & F1).
    destruct (resolve_field_frame _ _ _ _ _ _ _ _ E2) as (K2 & F2).
    split; [congruence|]. split; [|split; [exact S2|]].
    + unfold settled in *. rewrite I2 by discriminate. exact S1.
    + intros f Hf.
      destruct (string_dec f "seed") as [-> | Hns].
      * destruct Hf as [Hf | Hf]; [exfalso; apply Hf; left; reflexivity|].
        rewrite I2 by discriminate. destruct (F1 Hf) as (-> & _). reflexivity.
      * destruct (string_dec f "noise_seed") as [-> | Hnn].
        -- destruct Hf as [Hf | Hf]; [exfalso; apply Hf; right; reflexivity|].
           assert (Hs1 : settled "noise_seed" ni1 = true)
             by (unfold settled in *; rewrite I1 by discriminate; exact Hf).
           destruct (F2 Hs1) as (-> & _). apply I1. discriminate.
        -- rewrite I2 by exact Hnn. apply I1. exact Hns.
  - injection H as <- <- <-. rewrite En. auto.
Qed.

(** X5. The graph the executor submits never holds a sentinel under a
    field named [seed] or [noise_seed]: whatever the workflow and the
    job's inputs say, a seed of [-1] or [0] (as a number, a string, or a
    value equal to them) is never sent to the backend. *)
Theorem submitted_graph_has_no_sentinel
    (template : prompt) (inputs : dict json) (g : Rng.t) :
  Forall (fun kv =>
            match n_inputs (snd kv) with
            | Some ni => settled "seed" ni = true /\ settled "noise_seed" ni = true
            | None => True
            end)
         (fst (fst (build_prompt template inputs g))).
Proof.
  unfold build_prompt. generalize (apply_inputs inputs template) as p.
  generalize (@nil (string * Z)) as rs. revert g.
  intros g rs p. revert rs g.
  induction p as [|[id nd] rest IH]; intros rs g; cbn [resolve_seeds].
  - constructor.
  - destruct (resolve_node id nd rs g) as [[nd1 rs1] g1] eqn:E1.
    specialize (IH rs1 g1).
    destruct (resolve_seeds rest rs1 g1) as [[rest' rs2] g2].
    cbn [fst] in *. constructor; [|exact IH]. cbn [snd].
    destruct (resolve_node_frame _ _ _ _ _ _ _ E1) as (_ & H).
    destruct (n_inputs nd), (n_inputs nd1); try tauto.
Qed.

(** X6. The seed loop changes nothing else: the nodes keep their ids,
    their order and their other members, every [inputs] object keeps its
    keys in order, and every input that is not a [seed] or [noise_seed]
    holding a sentinel keeps its value. *)
Theorem seed_loop_changes_only_sentinels (p : prompt) (rs : dict Z) (g : Rng.t) :
  Forall2 (fun kv kv' =>
             fst kv' = fst kv
             /\ n_other (snd kv') = n_other (snd kv)
             /\ match n_inputs (snd kv), n_inputs (snd kv') with
                | None, None => True
                | Some ni, Some ni' =>
                  dict_keys ni' = dict_keys ni
                  /\ forall f, ~ is_seed_field f \/ settled f ni = true ->
                               dict_get f ni' = dict_get f ni
                | _, _ => False
                end)
          p (fst (fst (resolve_seeds p rs g))).
Proof.
  revert rs g. induction p as [|[id nd] rest IH]; intros rs g; cbn [resolve_seeds].
  - constructor.
  - destruct (resolve_node id nd rs g) as [[nd1 rs1] g1] eqn:E1.
    specialize (IH rs1 g1).
    destruct (resolve_seeds rest rs1 g1) as [[rest' rs2] g2].
    cbn [fst] in *. constructor; [|exact IH]. cbn [fst snd].
    destruct (resolve_node_frame _ _ _ _ _ _ _ E1) as (Ho & H).
    split; [reflexivity|]. split; [exact Ho|].
    destruct (n_inputs nd), (n_inputs nd1); tauto.
Qed.

Lemma resolve_field_recorded (id f : string) (ni : dict json) (rs : dict Z) (g : Rng.t)
    (ni' : dict json) (rs' : dict Z) (g' : Rng.t) (k : string) (r : Z) :
  resolve_field id f (ni, rs, g) = (ni', rs', g') ->
  dict_get k rs' = Some r ->
  dict_get k rs = Some r
  \/ (k = id ++ "." ++ f /\ 1 <= r <= seed_max
      /\ exists v, dict_get f ni = Some v /\ is_sentinel v = true).
Proof.
  intros H Hk. unfold resolve_field in H.
  destruct (dict_get f ni) as [v|] eqn:Ev.
  - destruct (is_sentinel v) eqn:Es.
    + pose proof (randint_drawn g) as [Hr _].
      destruct (Rng.randint 1 seed_max g) as [r0 g1]. cbn [fst snd] in Hr.
      injection H as <- <- <-.
      destruct (string_dec (id ++ "." ++ f) k) as [<- | Hne].
      * rewrite dict_get_set_same in Hk. injection Hk as <-. right.
        split; [reflexivity|]. split; [exact (drawn_range _ _ _ Hr)|].
        exists v. auto.
      * rewrite dict_get_set_other in Hk by exact Hne. now left.
    + injection H as <- <- <-. now left.
  - injection H as <- <- <-. now left.
Qed.

(** X7. [resolved_seeds] records nothing but resolutions: each of its
    entries is [node_id.seed] or [node_id.noise_seed] for a node of the
    graph whose field held a sentinel, with a value of [1 .. 2^32 - 1]. *)
Theorem resolved_seeds_only_sentinels
    (p : prompt) (g : Rng.t) (k : string) (r : Z) :
  dict_get k (snd (fst (resolve_seeds p [] g))) = Some r ->
  exists id nd ni f v,
    In (id, nd) p /\ n_inputs nd = Some ni /\ is_seed_field f
    /\ k = id ++ "." ++ f
    /\ dict_get f ni = Some v /\ is_sentinel v = true
    /\ 1 <= r <= 2 ^ 32 - 1.
Proof.
  assert (Hgen : forall (p : prompt) (rs : dict Z) (g : Rng.t),
             dict_get k (snd (fst (resolve_seeds p rs g))) = Some r ->
             dict_get k rs = Some r
             \/ exists id nd ni f v,
                 In (id, nd) p /\ n_inputs nd = Some ni /\ is_seed_field f
                 /\ k = id ++ "." ++ f
                 /\ dict_get f ni = Some v /\ is_sentinel v = true
                 /\ 1 <= r <= 2 ^ 32 - 1).
  { clear p g. induction p as [|[id nd] rest IH]; intros rs g H;
      cbn [resolve_seeds] in H.
    - now left.
    - destruct (resolve_node id nd rs g) as [[nd1 rs1] g1] eqn:E1.
      specialize (IH rs1 g1).
      destruct (resolve_seeds rest rs1 g1) as [[rest' rs2] g2].
      cbn [fst snd] in *. destruct (IH H) as [Hrs1 | Hex].
      + unfold resolve_node in E1. destruct (n_inputs nd) as [ni|] eqn:En.
        * destruct (resolve_field id "seed" (ni, rs, g)) as [[ni1 rsa] ga] eqn:Ea.
          destruct (resolve_field id "noise_seed" (ni1, rsa, ga))
            as [[ni2 rsb] gb] eqn:Eb.
          injection E1 as <- <- <-.
          destruct (resolve_field_spec _ _ _ _ _ _ _ _ Ea) as (_ & Ia & _).
          destruct (resolve_field_recorded _ _ _ _ _ _ _ _ _ _ Eb Hrs1)
            as [Hrsa | (-> & Hr & v & Hv & Hs)].
          -- destruct (resolve_field_recorded _ _ _ _ _ _ _ _ _ _ Ea Hrsa)
               as [Hrs | (-> & Hr & v & Hv & Hs)]; [now left|].
             right. exists id, nd, ni, "seed", v.
             split; [left; reflexivity|]. split; [exact En|].
             split; [left; reflexivity|]. split; [reflexivity|].
             split; [exact Hv|]. split; [exact Hs | exact Hr].
          -- right. exists id, nd, ni, "noise_seed", v.
             rewrite Ia in Hv by discriminate.
             split; [left; reflexivity|]. split; [exact En|].
             split; [right; reflexivity|]. split; [reflexivity|].
             split; [exact Hv|]. split; [exact Hs | exact Hr].
        * injection E1 as <- <- <-. now left.
      + right. destruct Hex as (id' & nd' & ni & f & v & Hin & Hrest).
        exists id', nd', ni, f, v. split; [now right | exact Hrest]. }
  intros H. destruct (Hgen p [] g H) as [Hnil | Hex]; [discriminate | exact Hex].
Qed.

Lemma resolved_seeds_only_sentinels_witness :
  exists id nd ni f v,
    In (id, nd) sample_graph /\ n_inputs nd = Some ni /\ is_seed_field f
    /\ "7.noise_seed" = id ++ "." ++ f
    /\ dict_get f ni = Some v /\ is_sentinel v = true
    /\ 1 <= 3 <= 2 ^ 32 - 1.
Proof.
  exact (resolved_seeds_only_sentinels sample_graph counting_entropy
           "7.noise_seed" 3 eq_refl).
Defined.

End SeedMore.

(** ** Input overrides *)

Section OverrideFacts.

Import Json Graph.
Open Scope string_scope.

Lemma split_dot_spec :
  forall key node_id field,
    split_dot key = Some (node_id, field) -> key = node_id ++ "." ++ field.
Proof.
  induction key as [|c rest IH]; intros node_id field H; cbn [split_dot] in H.
  - discriminate.
  - destruct (Ascii.eqb_spec c ".") as [->|Hc].
    + now injection H as <- <-.
    + destruct (split_dot rest) as [[a b]|]; [|discriminate].
      injection H as <- <-. cbn. f_equal. now apply IH.
Qed.

Lemma dict_get_present {A} (k : string) (d : dict A) :
  In k (dict_keys d) -> exists v, dict_get k d = Some v.
Proof.
  intros Hin. destruct (dict_get k d) as [v|] eqn:E; [now exists v|].
  exfalso. induction d as [|[k0 v0] rest IH]; cbn in *; [contradiction|].
  destruct (String.eqb_spec k k0) as [->|Hne]; [discriminate|].
  destruct Hin as [Heq | Hin]; [congruence | auto].
Qed.

(** The field [field] of node [node_id] holds [v]. *)
Lemma override_other (p : prompt) (kv : string * json) (node_id field : string) (v : json) :
  split_dot (fst kv) <> Some (node_id, field) ->
  (exists nd ni, dict_get node_id p = Some nd /\ n_inputs nd = Some ni
                 /\ dict_get field ni = Some v) ->
  exists nd ni, dict_get node_id (override p kv) = Some nd /\ n_inputs nd = Some ni
                /\ dict_get field ni = Some v.
Proof.
  intros Hne (nd & ni & Hget & Hni & Hv). unfold override.
  destruct (split_dot (fst kv)) as [[n' f']|]; [|now exists nd, ni].
  destruct (dict_get n' p) as [nd0|] eqn:E0; [|now exists nd, ni].
  destruct (string_dec n' node_id) as [-> | Hn].
  - rewrite dict_get_set_same. rewrite Hget in E0. injection E0 as <-.
    eexists. eexists. split; [reflexivity|]. unfold set_node_input.
    cbn [n_inputs]. split; [reflexivity|]. rewrite Hni.
    rewrite dict_get_set_other; [exact Hv|]. congruence.
  - rewrite dict_get_set_other by exact Hn. now exists nd, ni.
Qed.

Lemma override_hit (p : prompt) (kv : string * json) (node_id field : string) :
  split_dot (fst kv) = Some (node_id, field) ->
  In node_id (dict_keys p) ->
  exists nd ni, dict_get node_id (override p kv) = Some nd /\ n_inputs nd = Some ni
                /\ dict_get field ni = Some (snd kv).
Proof.
  intros Hs Hin. unfold override. rewrite Hs.
  destruct (dict_get_present node_id p Hin) as (nd0 & ->).
  rewrite dict_get_set_same. eexists. eexists. split; [reflexivity|].
  unfold set_node_input. cbn [n_inputs]. split; [reflexivity|].
  apply dict_get_set_same.
Qed.

(** An input [node_id.field] whose node is in the graph is in the graph
    after the override loop. *)
Lemma apply_inputs_sets
    (inputs : dict json) (p : prompt) (key node_id field : string) (v : json) :
  NoDup (dict_keys inputs) ->
  dict_get key inputs = Some v ->
  split_dot key = Some (node_id, field) ->
  In node_id (dict_keys p) ->
  exists nd ni,
    dict_get node_id (apply_inputs inputs p) = Some nd
    /\ n_inputs nd = Some ni
    /\ dict_get field ni = Some v.
Proof.
  intros Hnd Hget Hsplit Hin.
  unfold apply_inputs. revert p Hin Hnd Hget.
  assert (Hkeep : forall rest p,
             ~ In key (dict_keys rest) ->
             (exists nd ni, dict_get node_id p = Some nd /\ n_inputs nd = Some ni
                            /\ dict_get field ni = Some v) ->
             exists nd ni, dict_get node_id (fold_left override rest p) = Some nd
                           /\ n_inputs nd = Some ni /\ dict_get field ni = Some v).
  { induction rest as [|kv rest IH]; intros p Hout H; cbn [fold_left]; [exact H|].
    cbn [dict_keys map In] in Hout. apply IH; [tauto|].
    apply override_other; [|exact H].
    intros E. apply Hout. left.
    rewrite (split_dot_spec _ _ _ E), (split_dot_spec _ _ _ Hsplit). reflexivity. }
  induction inputs as [|[k0 v0] rest IH]; intros p Hin Hnd Hget;
    cbn [dict_get] in Hget; [discriminate|].
  cbn [dict_keys map fst] in Hnd. apply NoDup_cons_iff in Hnd.
  destruct Hnd as (Hfresh & Hnd). cbn [fold_left].
  destruct (String.eqb_spec key k0) as [<- | Hne].
  - injection Hget as <-. apply Hkeep; [exact Hfresh|].
    exact (override_hit p (key, v0) node_id field Hsplit Hin).
  - apply IH; [|exact Hnd | exact Hget].
    fold (dict_keys (override p (k0, v0))). now rewrite override_keys.
Qed.

(** X8. An input [node_id.field] of a job whose node exists in the graph
    takes effect: after the override loop the node's [inputs] hold the
    given value under [field], whatever the other inputs are, and the
    loop neither adds nor removes a node. *)
Theorem override_takes_effect
    (inputs : dict json) (p : prompt) (key node_id field : string) (v : json) :
  NoDup (dict_keys inputs) ->
  dict_get key inputs = Some v ->
  split_dot key = Some (node_id, field) ->
  In node_id (dict_keys p) ->
  dict_keys (apply_inputs inputs p) = dict_keys p
  /\ exists nd ni,
       dict_get node_id (apply_inputs inputs p) = Some nd
       /\ n_inputs nd = Some ni
       /\ dict_get field ni = Some v.
Proof.
  intros Hnd Hget Hsplit Hin. split; [apply apply_inputs_keys|].
  now apply (apply_inputs_sets inputs p key node_id field v).
Qed.

Lemma override_takes_effect_witness :
  exists nd ni,
    dict_get "1" (apply_inputs [("1.image", JStr "cat.png"); ("9.x", JInt 1)] image_graph)
    = Some nd
    /\ n_inputs nd = Some ni
    /\ dict_get "image" ni = Some (JStr "cat.png").
Proof.
  refine (proj2 (override_takes_effect
                   [("1.image", JStr "cat.png"); ("9.x", JInt 1)] image_graph
                   "1.image" "1" "image" (JStr "cat.png") _ eq_refl eq_refl _)).
  - repeat constructor; cbn; intuition discriminate.
  - left. reflexivity.
Defined.

(** X9. Inputs that name no node of the graph, and inputs whose key has
    no dot, are dropped without an error: when every input is of one of
    these kinds the graph posted is the workflow's graph unchanged. *)
Theorem unknown_inputs_ignored (inputs : dict json) (p : prompt) :
  (forall key node_id field,
      In key (dict_keys inputs) ->
      split_dot key = Some (node_id, field) ->
      ~ In node_id (dict_keys p)) ->
  apply_inputs inputs p = p.
Proof.
  unfold apply_inputs. induction inputs as [|[k0 v0] rest IH]; intros H;
    cbn [fold_left]; [reflexivity|].
  assert (E : override p (k0, v0) = p).
  { unfold override. cbn [fst snd].
    destruct (split_dot k0) as [[n f]|] eqn:Es; [|reflexivity].
    rewrite (dict_get_not_in n p); [reflexivity|].
    apply (H k0 n f); [left; reflexivity | exact Es]. }
  rewrite E. apply IH. intros key n f Hin. apply H. now right.
Qed.

Lemma unknown_inputs_ignored_witness :
  apply_inputs [("prompt", JStr "a cat"); ("42.text", JStr "a cat")] image_graph
  = image_graph.
Proof.
  apply unknown_inputs_ignored. intros key node_id field Hin Hs.
  destruct Hin as [<- | [<- | []]].
  - discriminate.
  - injection Hs as <- <-. cbn. intuition discriminate.
Defined.

End OverrideFacts.

(** ** Pipeline orchestrator: the previous output in the next graph *)

Section PipelineChaining.

Import Json Graph Backend Pipeline.
Open Scope string_scope.

Lemma resolve_prev_keys (prev : option string) (ins : dict json) :
  dict_keys (resolve_prev prev ins) = dict_keys ins.
Proof.
  unfold resolve_prev, dict_keys. rewrite map_map. apply map_ext.
  intros [k v]. cbn [fst snd]. destruct prev as [p|]; [|reflexivity].
  destruct (eq_str v "__prev__" && negb (String.eqb p "")); reflexivity.
Qed.

(** C6. When a step completed with a first output item and the next step
    has an input equal to ["__prev__"], the next step is submitted with
    that input set to the item's [subfolder/filename], or to its bare
    [filename] when the subfolder is empty: the step's inputs hold that
    reference under the input's key, and, the key being [node_id.field]
    for a node of the step's workflow, the graph posted holds it under
    [field] of that node's [inputs]. The nodes of the graph posted are
    those of the workflow. *)
Theorem prev_output_chained
    (cfg : config) (be : backend) (steps : list step) (j : nat)
    (sj sn : step) (key pid : string) (path : option string)
    (outs : outputs) (first : item) (more : list item)
    (wf : workflow) (sv : server) :
  nth_error steps j = Some sj ->
  nth_error steps (S j) = Some sn ->
  NoDup (dict_keys (inputs sn)) ->
  dict_get key (inputs sn) = Some (JStr "__prev__") ->
  In (StepComplete (j + 1) pid path)
     (pl_completed (fst (_run_pipeline cfg be steps))) ->
  poll_loop be j 0 poll_budget = Some outs ->
  _extract_outputs outs = first :: more ->
  find_workflow cfg (workflowId sn) = Some wf ->
  find_server cfg (wf_serverRef wf) = Some sv ->
  let ref := if String.eqb (i_subfolder first) ""
             then i_filename first
             else i_subfolder first ++ "/" ++ i_filename first in
  exists p,
    In p (snd (_run_pipeline cfg be steps))
    /\ p_step p = (j + 2)%nat
    /\ dict_get key (p_inputs p) = Some (JStr ref)
    /\ dict_keys (p_prompt p) = dict_keys (wf_prompt wf)
    /\ forall node_id field,
         split_dot key = Some (node_id, field) ->
         In node_id (dict_keys (wf_prompt wf)) ->
         exists nd ni,
           dict_get node_id (p_prompt p) = Some nd
           /\ n_inputs nd = Some ni
           /\ dict_get field ni = Some (JStr ref).
Proof.
  intros Hj Hn Hnd Hkey Hin Hpoll Hext Hwf Hsv ref.
  unfold _run_pipeline in *.
  pose proof (chained_submission cfg be steps 0 init_state j sj sn key pid path
                outs first more wf sv) as H.
  destruct (run_steps cfg be 0 steps init_state) as [fl st].
  cbn [fst snd pl_completed] in *.
  destruct H as (p & Hp & Hstep & Hins & Hval & Hprompt); try assumption;
    [constructor|].
  exists p. rewrite Hprompt.
  split; [exact Hp|]. split; [exact Hstep|]. split; [exact Hval|].
  split; [apply apply_inputs_keys|].
  intros node_id field Hsplit Hnode.
  apply (apply_inputs_sets (p_inputs p) (wf_prompt wf) key node_id field
           (JStr (output_ref first))); try assumption.
  rewrite Hins, resolve_prev_keys. exact Hnd.
Qed.

Lemma prev_output_chained_witness :
  exists p nd ni,
    In p (snd (_run_pipeline chain_config prompt_backend chain_steps))
    /\ p_step p = 2%nat
    /\ dict_get "1" (p_prompt p) = Some nd
    /\ n_inputs nd = Some ni
    /\ dict_get "image" ni = Some (JStr "out/a.png").
Proof.
  destruct (prev_output_chained chain_config prompt_backend chain_steps 0
              (mkStep "wf1" []) (mkStep "wf1" [("1.image", JStr "__prev__")])
              "1.image" "pid" (Some "out/a.png") one_image
              (mkItem "9" "a.png" "output" "out") []
              (mkWorkflow "wf1" "srv" image_graph)
              (mkServer "srv" "http://127.0.0.1:8188"))
    as (p & Hin & Hstep & _ & _ & Hgraph).
  - reflexivity.
  - reflexivity.
  - repeat constructor. intros [].
  - reflexivity.
  - left. reflexivity.
  - reflexivity.
  - reflexivity.
  - reflexivity.
  - reflexivity.
  - destruct (Hgraph "1" "image" eq_refl (or_introl eq_refl))
      as (nd & ni & Hget & Hni & Hval).
    exists p, nd, ni. repeat split; assumption.
Defined.

End PipelineChaining.

(** ** The two scans of a job's outputs *)

Section OutputScans.

Import Json Graph Executor Pipeline.
Open Scope string_scope.

Lemma entry_file_names (id : string) (e : out_entry) :
  map i_filename (entry_items id e)
  = match e_filename e with
    | Some f => if String.eqb f "" then [] else [f]
    | None => []
    end.
Proof.
  unfold entry_items. destruct (e_filename e) as [f|]; [|reflexivity].
  destruct (String.eqb f ""); reflexivity.
Qed.

Lemma map_flat_map {A B C} (f : B -> C) (g : A -> list B) (l : list A) :
  map f (flat_map g l) = flat_map (fun x => map f (g x)) l.
Proof.
  induction l as [|x rest IH]; cbn [flat_map map]; [reflexivity|].
  now rewrite map_app, IH.
Qed.

Lemma flat_map_ext_all {A B} (f g : A -> list B) (l : list A) :
  (forall x, f x = g x) -> flat_map f l = flat_map g l.
Proof.
  intros H. induction l as [|x rest IH]; cbn [flat_map]; [reflexivity|].
  now rewrite H, IH.
Qed.

Lemma entries_file_names (id : string) (es : list out_entry) :
  map i_filename (flat_map (entry_items id) es)
  = flat_map (fun e => match e_filename e with
                       | Some f => if String.eqb f "" then [] else [f]
                       | None => []
                       end) es.
Proof.
  rewrite map_flat_map. apply flat_map_ext_all. intros e. apply entry_file_names.
Qed.

(** The file names of the items of one node, by kind. *)
Lemma node_item_names (id : string) (node_out : dict (list out_entry)) :
  map i_filename
    (flat_map
       (fun key =>
          flat_map (entry_items id)
            (match dict_get key node_out with Some es => es | None => [] end))
       ["images"; "videos"; "gifs"; "audio"])
  = (node_files node_out
     ++ map i_filename
          (flat_map (entry_items id)
             (match dict_get "audio" node_out with Some es => es | None => [] end)))%list.
Proof.
  unfold node_files. cbn [flat_map].
  rewrite !app_nil_r, !map_app, !entries_file_names, <- !app_assoc.
  reflexivity.
Qed.

(** X10. The executor's scan for the file to return looks at images,
    videos and gifs; the orchestrators' scan also looks at audio. So the
    file the executor picks is always among the orchestrators' items, a
    job whose outputs give no item has no file for the executor either,
    and when no node reports audio the executor's file is the first
    item's. *)
Theorem executor_file_among_items (outs : outputs) :
  (forall f, first_output outs = Some f ->
             exists it, In it (_extract_outputs outs) /\ i_filename it = f)
  /\ (_extract_outputs outs = [] -> first_output outs = None)
  /\ (Forall (fun kv => dict_get "audio" (snd kv) = None) outs ->
      first_output outs = option_map i_filename (hd_error (_extract_outputs outs))).
Proof.
  assert (Hnames : map i_filename (_extract_outputs outs)
                   = flat_map
                       (fun kv =>
                          node_files (snd kv)
                          ++ map i_filename
                               (flat_map (entry_items (fst kv))
                                  (match dict_get "audio" (snd kv) with
                                   | Some es => es
                                   | None => []
                                   end)))%list outs).
  { unfold _extract_outputs. rewrite map_flat_map.
    apply flat_map_ext_all. intros kv. apply node_item_names. }
  assert (Hincl : forall f,
             In f (flat_map (fun kv => node_files (snd kv)) outs) ->
             In f (map i_filename (_extract_outputs outs))).
  { intros f Hin. rewrite Hnames. apply in_flat_map in Hin.
    destruct Hin as (kv & Hkv & Hf). apply in_flat_map. exists kv.
    split; [exact Hkv|]. apply in_or_app. now left. }
  assert (Hfirst : forall f, first_output outs = Some f ->
                             exists it, In it (_extract_outputs outs)
                                        /\ i_filename it = f).
  { intros f H. unfold first_output in H.
    assert (Hin : In f (flat_map (fun kv => node_files (snd kv)) outs)).
    { destruct (flat_map (fun kv => node_files (snd kv)) outs); [discriminate|].
      injection H as ->. now left. }
    apply Hincl, in_map_iff in Hin. destruct Hin as (it & Hit & Hin).
    now exists it. }
  split; [exact Hfirst|]. split.
  - intros Hnil. destruct (first_output outs) as [f|] eqn:E; [|reflexivity].
    destruct (Hfirst f eq_refl) as (it & Hin & _). rewrite Hnil in Hin. contradiction.
  - intros Hno. unfold first_output.
    assert (Heq : flat_map (fun kv => node_files (snd kv)) outs
                  = map i_filename (_extract_outputs outs)).
    { rewrite Hnames. clear Hnames Hincl Hfirst.
      induction Hno as [|kv rest Hkv _ IH]; cbn [flat_map]; [reflexivity|].
      rewrite Hkv. cbn [flat_map map]. now rewrite app_nil_r, IH. }
    rewrite Heq. now destruct (_extract_outputs outs).
Qed.

End OutputScans.

(** ** Pipeline orchestrator: order of submissions, polling, exceptions *)

Section PipelineMore.

Import Json Graph Backend Pipeline.
Open Scope string_scope.

Variable cfg : config.
Variable be : backend.

(** The poll loop returns the outputs of the first completed poll among
    the [budget] attempts from [attempt] on. *)
Lemma poll_loop_spec (idx : nat) :
  forall (budget attempt : nat),
    match poll_loop be idx attempt budget with
    | Some outs =>
      exists k, (k < budget)%nat
                /\ poll be idx (attempt + k) = PollCompleted outs
                /\ forall j, (j < k)%nat ->
                             forall o, poll be idx (attempt + j) <> PollCompleted o
    | None =>
      forall k, (k < budget)%nat ->
                forall o, poll be idx (attempt + k) <> PollCompleted o
    end.
Proof.
  induction budget as [|budget IH]; intros attempt; cbn [poll_loop].
  - intros k Hk. lia.
  - destruct (poll be idx attempt) as [| |outs] eqn:E.
    + specialize (IH (S attempt)).
      destruct (poll_loop be idx (S attempt) budget) as [outs|].
      * destruct IH as (k & Hk & Hc & Hbefore). exists (S k).
        split; [lia|]. split; [now rewrite Nat.add_succ_r|].
        intros [|j] Hj o; [now rewrite Nat.add_0_r, E|].
        rewrite Nat.add_succ_r. apply (Hbefore j). lia.
      * intros [|k] Hk o; [now rewrite Nat.add_0_r, E|].
        rewrite Nat.add_succ_r. apply (IH k). lia.
    + specialize (IH (S attempt)).
      destruct (poll_loop be idx (S attempt) budget) as [outs|].
      * destruct IH as (k & Hk & Hc & Hbefore). exists (S k).
        split; [lia|]. split; [now rewrite Nat.add_succ_r|].
        intros [|j] Hj o; [now rewrite Nat.add_0_r, E|].
        rewrite Nat.add_succ_r. apply (Hbefore j). lia.
      * intros [|k] Hk o; [now rewrite Nat.add_0_r, E|].
        rewrite Nat.add_succ_r. apply (IH k). lia.
    + exists 0%nat. split; [lia|]. split; [now rewrite Nat.add_0_r|].
      intros j Hj. lia.
Qed.

(** X11. A submitted step is polled at most 240 times. If one of the
    first 240 polls reports completion, the step completes with the
    outputs of the first such poll, whatever the polls before it returned,
    errors included; if none does, the step is recorded as a timeout with
    its prompt id, the pipeline stops there, and later polls do not
    matter. *)
Theorem step_poll_budget
    (idx : nat) (s : step) (st : run_state) (wf : workflow) (sv : server)
    (prompt_id : string) :
  find_workflow cfg (workflowId s) = Some wf ->
  find_server cfg (wf_serverRef wf) = Some sv ->
  submit be idx (apply_inputs (resolve_prev (prev_output st) (inputs s)) (wf_prompt wf))
  = SubmitReply (Some prompt_id) ->
  prompt_id <> "" ->
  ((forall k, (k < 240)%nat -> forall o, poll be idx k <> PollCompleted o) ->
   fst (run_step cfg be idx s st) = Stop
   /\ completed (snd (run_step cfg be idx s st))
      = (completed st ++ [StepTimeout (idx + 1) prompt_id])%list)
  /\ (forall k outs,
        (k < 240)%nat ->
        poll be idx k = PollCompleted outs ->
        (forall j, (j < k)%nat -> forall o, poll be idx j <> PollCompleted o) ->
        store_raises be idx = false ->
        fst (run_step cfg be idx s st) = Next
        /\ exists path,
             completed (snd (run_step cfg be idx s st))
             = (completed st ++ [StepComplete (idx + 1) prompt_id path])%list
             /\ path = match _extract_outputs outs with
                       | first :: _ => Some (output_ref first)
                       | [] => prev_output st
                       end).
Proof.
  intros Hwf Hsv Hsub Hpid.
  assert (Hne : String.eqb prompt_id "" = false) by now apply String.eqb_neq.
  pose proof (poll_loop_spec idx 240 0) as Hspec. fold poll_budget in Hspec.
  split.
  - intros Hnone. unfold run_step. rewrite Hwf, Hsv, Hsub, Hne.
    destruct (poll_loop be idx 0 poll_budget) as [outs|].
    + destruct Hspec as (k & Hk & Hc & _). exfalso. exact (Hnone k Hk outs Hc).
    + split; reflexivity.
  - intros k outs Hk Hc Hbefore Hstore. unfold run_step.
    rewrite Hwf, Hsv, Hsub, Hne.
    destruct (poll_loop be idx 0 poll_budget) as [outs'|].
    + destruct Hspec as (k' & Hk' & Hc' & Hbefore'). cbn [Nat.add] in *.
      assert (k' = k).
      { destruct (Nat.lt_trichotomy k' k) as [Hlt | [Heq | Hgt]]; [|exact Heq|].
        - exfalso. exact (Hbefore k' Hlt outs' Hc').
        - exfalso. exact (Hbefore' k Hgt outs Hc). }
      subst k'. rewrite Hc in Hc'. injection Hc' as <-.
      rewrite Hstore. cbn [fst snd completed prev_output]. split; [reflexivity|].
      eexists. split; reflexivity.
    + exfalso. exact (Hspec k Hk outs Hc).
Qed.

End PipelineMore.

Section PipelineMoreSamples.

Import Json Graph Backend Pipeline.
Open Scope string_scope.

Lemma step_poll_budget_witness :
  fst (run_step chain_config silent_backend 0 (mkStep "wf1" []) init_state) = Stop
  /\ completed (snd (run_step chain_config silent_backend 0 (mkStep "wf1" []) init_state))
     = ([] ++ [StepTimeout (0 + 1) "pid"])%list.
Proof.
  refine (proj1 (step_poll_budget chain_config silent_backend 0 (mkStep "wf1" []) init_state
                   (mkWorkflow "wf1" "srv" image_graph)
                   (mkServer "srv" "http://127.0.0.1:8188") "pid"
                   eq_refl eq_refl eq_refl _) _).
  - discriminate.
  - intros k _ o. discriminate.
Defined.

End PipelineMoreSamples.

Section PipelineOrder.

Import Json Graph Backend Pipeline.
Open Scope string_scope.

Variable cfg : config.
Variable be : backend.

Lemma run_step_trace (idx : nat) (s : step) (st : run_state) (fl : flow) (st1 : run_state) :
  run_step cfg be idx s st = (fl, st1) ->
  (posted st1 = posted st
   \/ exists p, posted st1 = (posted st ++ [p])%list /\ p_step p = (idx + 1)%nat)
  /\ match fl with
     | Abort => store_raises be idx = true /\ completed st1 = completed st
     | _ => exists e, completed st1 = (completed st ++ [e])%list
                      /\ stepIndex e = (idx + 1)%nat
     end.
Proof.
  unfold run_step, fail. intros H.
  destruct (find_workflow cfg (workflowId s)) as [wf|].
  2:{ injection H as <- <-. cbn. split; [now left | eauto]. }
  destruct (find_server cfg (wf_serverRef wf)) as [sv|].
  2:{ injection H as <- <-. cbn. split; [now left | eauto]. }
  destruct (submit be idx _) as [exc|[prompt_id|]].
  - injection H as <- <-. cbn. split; [right | ]; eauto.
  - destruct (String.eqb prompt_id "").
    + injection H as <- <-. cbn. split; [right | ]; eauto.
    + destruct (poll_loop be idx 0 poll_budget) as [outs|].
      * destruct (store_raises be idx) eqn:Es; injection H as <- <-; cbn;
          (split; [right | ]; eauto).
      * injection H as <- <-. cbn. split; [right | ]; eauto.
  - injection H as <- <-. cbn. split; [right | ]; eauto.
Qed.

Lemma run_steps_trace :
  forall (steps : list step) (idx : nat) (st : run_state) (fl : flow) (st' : run_state),
    run_steps cfg be idx steps st = (fl, st') ->
    exists done np,
      completed st' = (completed st ++ done)%list
      /\ posted st' = (posted st ++ np)%list
      /\ map stepIndex done = seq (S idx) (List.length done)
      /\ (List.length done <= List.length steps)%nat
      /\ StronglySorted lt (map p_step np)
      /\ Forall (fun n => idx < n <= idx + List.length steps)%nat (map p_step np)
      /\ (fl = Abort -> exists i, store_raises be i = true).
Proof.
  induction steps as [|s rest IH]; intros idx st fl st' H; cbn [run_steps] in H.
  - injection H as <- <-. exists [], []. rewrite !app_nil_r. cbn.
    repeat split; try constructor; try lia. discriminate.
  - destruct (run_step cfg be idx s st) as [fl1 st1] eqn:E1.
    destruct (run_step_trace _ _ _ _ _ E1) as (Hp1 & Hc1).
    assert (Hnp1 : exists np1,
               posted st1 = (posted st ++ np1)%list
               /\ StronglySorted lt (map p_step np1)
               /\ Forall (fun n => n = S idx) (map p_step np1)).
    { destruct Hp1 as [-> | (p & -> & Hp)].
      - exists []. rewrite app_nil_r. repeat split; constructor.
      - exists [p]. split; [reflexivity|]. cbn [map]. rewrite Hp.
        replace (idx + 1)%nat with (S idx) by lia.
        split; repeat constructor. }
    destruct Hnp1 as (np1 & Hposted1 & Hsorted1 & Hall1).
    destruct fl1.
    + destruct Hc1 as (e & Hcomp1 & He).
      destruct (IH _ _ _ _ H) as (done & np & Hc & Hp & Hidx & Hlen & Hs & Hb & Ha).
      exists (e :: done), (np1 ++ np)%list.
      rewrite Hc, Hcomp1, Hp, Hposted1, <- !app_assoc. cbn [app].
      split; [reflexivity|]. split; [reflexivity|]. split.
      { cbn [map List.length seq]. rewrite He, Hidx. f_equal. lia. }
      split; [cbn [List.length]; lia|]. split; [|split; [|exact Ha]].
      * rewrite map_app. destruct np1 as [|p [|q t]]; cbn [map app].
        -- exact Hs.
        -- constructor; [exact Hs|]. inversion Hall1 as [|? ? Hp0 _]; subst.
           rewrite Hp0. eapply Forall_impl; [|exact Hb]. cbn. intros; lia.
        -- exfalso. inversion Hsorted1 as [|? ? _ Hlt]; subst.
           inversion Hall1 as [|? ? Hp0 Hrest]; subst.
           inversion Hrest as [|? ? Hq0 _]; subst.
           inversion Hlt as [|? ? Hpq _]; subst. lia.
      * rewrite map_app. apply Forall_app. split.
        -- eapply Forall_impl; [|exact Hall1]. cbn [List.length]. intros; lia.
        -- eapply Forall_impl; [|exact Hb]. cbn [List.length]. intros; lia.
    + injection H as <- <-. destruct Hc1 as (e & Hcomp1 & He).
      exists [e], np1. split; [exact Hcomp1|]. split; [exact Hposted1|].
      cbn [map List.length seq]. split; [rewrite He; f_equal; lia|].
      split; [lia|]. split; [exact Hsorted1|]. split; [|discriminate].
      eapply Forall_impl; [|exact Hall1]. cbn. intros; lia.
    + injection H as <- <-. destruct Hc1 as (Hraise & Hcomp1).
      exists [], np1. rewrite app_nil_r. split; [exact Hcomp1|].
      split; [exact Hposted1|]. cbn [map List.length seq].
      split; [reflexivity|]. split; [lia|]. split; [exact Hsorted1|].
      split; [|intros _; now exists idx].
      eapply Forall_impl; [|exact Hall1]. cbn. intros; lia.
Qed.

(** X12. Steps are submitted in order and at most once: the step numbers
    of the submissions strictly increase and lie in [1 .. len(steps)], and
    the entries of [completed] are numbered 1, 2, 3, ... without a gap,
    never more than there are steps. *)
Theorem steps_submitted_in_order (steps : list step) :
  StronglySorted lt (map p_step (snd (_run_pipeline cfg be steps)))
  /\ Forall (fun n => 1 <= n <= List.length steps)%nat
            (map p_step (snd (_run_pipeline cfg be steps)))
  /\ map stepIndex (pl_completed (fst (_run_pipeline cfg be steps)))
     = seq 1 (List.length (pl_completed (fst (_run_pipeline cfg be steps))))
  /\ (List.length (pl_completed (fst (_run_pipeline cfg be steps)))
      <= List.length steps)%nat.
Proof.
  unfold _run_pipeline.
  destruct (run_steps cfg be 0 steps init_state) as [fl st] eqn:E.
  destruct (run_steps_trace _ _ _ _ _ E) as (done & np & Hc & Hp & Hidx & Hlen & Hs & Hb & _).
  cbn [fst snd pl_completed]. cbn in Hc, Hp. rewrite Hc, Hp.
  split; [exact Hs|]. split; [|split; [exact Hidx | exact Hlen]].
  eapply Forall_impl; [|exact Hb]. cbn. intros; lia.
Qed.

Lemma run_steps_app :
  forall (before rest : list step) (idx : nat) (st st1 : run_state),
    run_steps cfg be idx before st = (Next, st1) ->
    run_steps cfg be idx (before ++ rest) st
    = run_steps cfg be (idx + List.length before) rest st1.
Proof.
  induction before as [|s0 before IH]; intros rest idx st st1 H;
    cbn [run_steps app List.length] in *.
  - injection H as <-. now rewrite Nat.add_0_r.
  - destruct (run_step cfg be idx s0 st) as [[| |] st0]; try discriminate.
    rewrite (IH rest (S idx) st0 st1 H). f_equal. lia.
Qed.

(** A run that ends ["complete"] with completed steps only went through
    all of its steps. *)
Lemma complete_run_went_through (steps : list step) :
  status (fst (_run_pipeline cfg be steps)) = "complete" ->
  Forall step_complete (pl_completed (fst (_run_pipeline cfg be steps))) ->
  fst (run_steps cfg be 0 steps init_state) = Next.
Proof.
  unfold _run_pipeline.
  destruct (run_steps cfg be 0 steps init_state) as [fl st] eqn:E.
  destruct (run_steps_inv _ _ _ _ _ _ _ E) as (done & np & Hc & _ & _ & Hfl).
  cbn [fst status pl_completed]. cbn in Hc. rewrite Hc.
  destruct fl; [reflexivity | | discriminate].
  intros _ Hall. destruct Hfl as (ok & e & -> & _ & Hne & _).
  apply Forall_app in Hall. destruct Hall as [_ Hall].
  inversion Hall; subst. contradiction.
Qed.

(** X13. If storing the outputs of a step raises, the pipeline is left
    ["running"]: when the steps before it all completed, the step is
    submitted and accepted, one of its polls reports completion and
    [_process_outputs] raises, then the step is not recorded although it
    completed, no later step is submitted, and the status written at the
    start stays. *)
Theorem store_failure_leaves_running
    (before after : list step) (s : step) (wf : workflow) (sv : server)
    (prompt_id : string) (outs : outputs) :
  status (fst (_run_pipeline cfg be before)) = "complete" ->
  Forall step_complete (pl_completed (fst (_run_pipeline cfg be before))) ->
  find_workflow cfg (workflowId s) = Some wf ->
  find_server cfg (wf_serverRef wf) = Some sv ->
  (forall p, submit be (List.length before) p = SubmitReply (Some prompt_id)) ->
  prompt_id <> "" ->
  poll_loop be (List.length before) 0 poll_budget = Some outs ->
  store_raises be (List.length before) = true ->
  status (fst (_run_pipeline cfg be (before ++ s :: after))) = "running"
  /\ pl_completed (fst (_run_pipeline cfg be (before ++ s :: after)))
     = pl_completed (fst (_run_pipeline cfg be before))
  /\ List.length (pl_completed (fst (_run_pipeline cfg be (before ++ s :: after))))
     = List.length before
  /\ exists p,
       snd (_run_pipeline cfg be (before ++ s :: after))
       = (snd (_run_pipeline cfg be before) ++ [p])%list
       /\ p_step p = (List.length before + 1)%nat.
Proof.
  intros Hst Hall Hwf Hsv Hsub Hpid Hpoll Hstore.
  pose proof (complete_run_went_through before Hst Hall) as Hnext.
  unfold _run_pipeline in *.
  destruct (run_steps cfg be 0 before init_state) as [fl st1] eqn:E.
  cbn [fst] in Hnext. subst fl.
  destruct (run_steps_inv _ _ _ _ _ _ _ E) as (done & np & Hc & _ & _ & Hlen & _).
  cbn in Hc. rewrite (run_steps_app before (s :: after) 0 init_state st1 E).
  cbn [Nat.add run_steps]. unfold run_step, fail.
  rewrite Hwf, Hsv, Hsub.
  replace (String.eqb prompt_id "") with false
    by (symmetry; now apply String.eqb_neq).
  rewrite Hpoll, Hstore. cbn [fst snd status pl_completed completed posted].
  split; [reflexivity|]. split; [reflexivity|]. split.
  - now rewrite Hc.
  - eexists. split; [reflexivity|]. reflexivity.
Qed.

(** X14. A step that fails is the last thing a pipeline does: its entry
    is the last of [completed], every entry before it is a completed
    step, no step after it is submitted, and when it is not the last step
    of the pipeline the final status is ["error"]. *)
Theorem failure_halts_pipeline (steps : list step) (e : entry) :
  In e (pl_completed (fst (_run_pipeline cfg be steps))) ->
  ~ step_complete e ->
  (exists ok, pl_completed (fst (_run_pipeline cfg be steps)) = (ok ++ [e])%list
              /\ Forall step_complete ok)
  /\ Forall (fun p => p_step p <= stepIndex e)%nat (snd (_run_pipeline cfg be steps))
  /\ ((stepIndex e < List.length steps)%nat ->
      status (fst (_run_pipeline cfg be steps)) = "error").
Proof.
  unfold _run_pipeline.
  destruct (run_steps cfg be 0 steps init_state) as [fl st] eqn:E.
  destruct (run_steps_inv _ _ _ _ _ _ _ E) as (done & np & Hc & Hp & _ & Hfl).
  cbn [fst snd status pl_completed]. cbn in Hc, Hp. rewrite Hc, Hp.
  intros Hin Hne. destruct fl.
  - destruct Hfl as (_ & Hall & _). rewrite Forall_forall in Hall.
    exfalso. exact (Hne (Hall e Hin)).
  - destruct Hfl as (ok & e' & -> & Hok & _ & He & Hlen & Hposts).
    assert (e = e').
    { apply in_app_or in Hin. destruct Hin as [Hin | [<- | []]]; [|reflexivity].
      rewrite Forall_forall in Hok. exfalso. exact (Hne (Hok e Hin)). }
    subst e'. split; [now exists ok|]. split; [exact Hposts|].
    cbn [Nat.add] in He. rewrite He. intros Hi.
    replace (List.length (ok ++ [e]) =? List.length steps)%nat with false;
      [reflexivity|]. symmetry. apply Nat.eqb_neq. lia.
  - destruct Hfl as (_ & Hall). rewrite Forall_forall in Hall.
    exfalso. exact (Hne (Hall e Hin)).
Qed.

End PipelineOrder.

Section PipelineOrderSamples.

Import Json Graph Backend Pipeline.
Open Scope string_scope.

Lemma failure_halts_pipeline_witness :
  Forall (fun p => p_step p <= stepIndex (StepError 1 "workflow not found"))%nat
         (snd (_run_pipeline no_workflows silent_backend
                 [mkStep "missing" []; mkStep "missing" []]))
  /\ status (fst (_run_pipeline no_workflows silent_backend
                    [mkStep "missing" []; mkStep "missing" []])) = "error".
Proof.
  destruct (failure_halts_pipeline no_workflows silent_backend
              [mkStep "missing" []; mkStep "missing" []]
              (StepError 1 "workflow not found"))
    as (_ & Hposts & Hstatus).
  - left. reflexivity.
  - discriminate.
  - split; [exact Hposts|]. apply Hstatus. cbn. lia.
Defined.

Lemma store_failure_leaves_running_witness :
  status (fst (_run_pipeline chain_config failing_store
                 ([] ++ mkStep "wf1" [] :: [mkStep "wf1" []]))) = "running"
  /\ pl_completed (fst (_run_pipeline chain_config failing_store
                          ([] ++ mkStep "wf1" [] :: [mkStep "wf1" []]))) = [].
Proof.
  destruct (store_failure_leaves_running chain_config failing_store
              [] [mkStep "wf1" []] (mkStep "wf1" [])
              (mkWorkflow "wf1" "srv" image_graph)
              (mkServer "srv" "http://127.0.0.1:8188") "pid" one_image)
    as (Hst & Hc & _).
  - reflexivity.
  - constructor.
  - reflexivity.
  - reflexivity.
  - intros p. reflexivity.
  - discriminate.
  - reflexivity.
  - reflexivity.
  - split; [exact Hst | exact Hc].
Defined.

End PipelineOrderSamples.

(** ** Batch orchestrator: plain copies, kept inputs, the end of the loop *)

Section BatchMore.

Import Json Graph Backend Batch.
Open Scope string_scope.

Lemma make_runs_plain (vary_seed : bool) (fields : list (string * string))
    (inputs : dict json) :
  vary_seed = false \/ fields = [] ->
  forall (count idx : nat) (g : Rng.t),
    snd (make_runs idx count vary_seed fields inputs g) = g
    /\ fst (make_runs idx count vary_seed fields inputs g)
       = map (fun i => mkRun (i + 1) None "queued" inputs None) (seq idx count).
Proof.
  intros Hplain.
  assert (Hri : forall g, run_inputs vary_seed fields inputs g = (inputs, g)).
  { intros g. unfold run_inputs. destruct Hplain as [-> | ->]; [reflexivity|].
    now destruct vary_seed. }
  induction count as [|count IH]; intros idx g; cbn [make_runs seq map].
  - split; reflexivity.
  - rewrite Hri. destruct (IH (S idx) g) as (Hg & Hruns).
    destruct (make_runs (S idx) count vary_seed fields inputs g) as [rest g2].
    cbn [fst snd] in *. split; [exact Hg | now rewrite Hruns].
Qed.

(** X15. Without [varySeed], or when the workflow has no seed field, a
    batch is [max(1, variations)] identical copies: every run carries the
    request's inputs unchanged, run [i] has index [i], no prompt id and
    status ["queued"], and no random number is drawn. *)
Theorem plain_batch_is_identical_copies
    (wf_prompt : prompt) (requested : nat) (vary_seed : bool)
    (inputs : dict json) (g : Rng.t) :
  vary_seed = false \/ _find_seed_fields wf_prompt = [] ->
  create_batch wf_prompt requested vary_seed inputs g
  = (mkBatch (Nat.max 1 requested) vary_seed "running"
       (map (fun i => mkRun (i + 1) None "queued" inputs None)
            (seq 0 (Nat.max 1 requested))),
     g).
Proof.
  intros Hplain. unfold create_batch.
  destruct (make_runs_plain vary_seed (_find_seed_fields wf_prompt) inputs Hplain
              (Nat.max 1 requested) 0 g) as (Hg & Hruns).
  destruct (make_runs 0 (Nat.max 1 requested) vary_seed
              (_find_seed_fields wf_prompt) inputs g) as [rs g'].
  cbn [fst snd] in *. now subst.
Qed.

Lemma plain_batch_is_identical_copies_witness :
  create_batch image_graph 0 true [("1.image", JStr "cat.png")] counting_entropy
  = (mkBatch (Nat.max 1 0) true "running"
       (map (fun i => mkRun (i + 1) None "queued" [("1.image", JStr "cat.png")] None)
            (seq 0 (Nat.max 1 0))),
     counting_entropy).
Proof.
  exact (plain_batch_is_identical_copies image_graph 0 true
           [("1.image", JStr "cat.png")] counting_entropy (or_intror eq_refl)).
Defined.

Lemma vary_fields_other (v : json) (key : string) :
  forall (fields : list (string * string)) (acc : dict json),
    (forall nf, In nf fields -> key <> fst nf ++ "." ++ snd nf) ->
    dict_get key
      (fold_left (fun acc nf => dict_set (fst nf ++ "." ++ snd nf) v acc) fields acc)
    = dict_get key acc.
Proof.
  induction fields as [|nf rest IH]; intros acc H; cbn [fold_left]; [reflexivity|].
  rewrite IH by (intros nf' Hin; apply H; now right).
  apply dict_get_set_other. intros E. apply (H nf); [now left | now symmetry].
Qed.

Lemma make_runs_keep (vary_seed : bool) (fields : list (string * string))
    (inputs : dict json) (key : string) :
  (forall nf, In nf fields -> key <> fst nf ++ "." ++ snd nf) ->
  forall (count idx : nat) (g : Rng.t),
    Forall (fun r => dict_get key (r_inputs r) = dict_get key inputs)
           (fst (make_runs idx count vary_seed fields inputs g)).
Proof.
  intros Hkey. induction count as [|count IH]; intros idx g; cbn [make_runs].
  - constructor.
  - destruct (run_inputs vary_seed fields inputs g) as [ri g1] eqn:Er.
    specialize (IH (S idx) g1).
    destruct (make_runs (S idx) count vary_seed fields inputs g1) as [rest g2].
    cbn [fst] in *. constructor; [|exact IH]. cbn [r_inputs].
    unfold run_inputs in Er. destruct vary_seed, fields as [|nf0 fs];
      try (injection Er as <- _; reflexivity).
    destruct (Rng.randint 1 vary_max g) as [seed_value g']. injection Er as <- _.
    exact (vary_fields_other (JInt seed_value) key (nf0 :: fs) inputs Hkey).
Qed.

(** X16. Seed variation touches nothing but the seed fields: in every run
    of a batch, an input whose key is not [node_id.field] for a seed field
    of the workflow has the value the request gave it (or is absent as in
    the request). *)
Theorem vary_seed_keeps_other_inputs
    (wf_prompt : prompt) (requested : nat) (vary_seed : bool)
    (inputs : dict json) (g : Rng.t) (key : string) :
  (forall nf, In nf (_find_seed_fields wf_prompt) ->
              key <> fst nf ++ "." ++ snd nf) ->
  Forall (fun r => dict_get key (r_inputs r) = dict_get key inputs)
         (runs (fst (create_batch wf_prompt requested vary_seed inputs g))).
Proof.
  intros Hkey. unfold create_batch.
  pose proof (make_runs_keep vary_seed (_find_seed_fields wf_prompt) inputs key Hkey
                (Nat.max 1 requested) 0 g) as H.
  destruct (make_runs 0 (Nat.max 1 requested) vary_seed
              (_find_seed_fields wf_prompt) inputs g) as [rs g'].
  exact H.
Qed.

Lemma vary_seed_keeps_other_inputs_witness :
  Forall (fun r => dict_get "3.steps" (r_inputs r)
                   = dict_get "3.steps" [("3.steps", JInt 30); ("3.seed", JInt 5)])
         (runs (fst (create_batch sample_graph 3 true
                       [("3.steps", JInt 30); ("3.seed", JInt 5)] counting_entropy))).
Proof.
  apply vary_seed_keeps_other_inputs.
  intros nf Hin. destruct Hin as [<- | [<- | []]]; discriminate.
Defined.

Lemma submit_runs_spec (attempts : nat -> attempt) :
  forall (rs : list run) (idx : nat),
    List.length (fst (submit_runs attempts idx rs)) = List.length rs
    /\ (forall i r,
          nth_error rs i = Some r ->
          (forall j, (j < i)%nat -> crashes (attempts (idx + j)%nat) = false) ->
          nth_error (fst (submit_runs attempts idx rs)) i
          = Some (after_attempt (attempts (idx + i)%nat) r))
    /\ (forall k i r,
          (k < i)%nat -> crashes (attempts (idx + k)%nat) = true ->
          (forall j, (j < k)%nat -> crashes (attempts (idx + j)%nat) = false) ->
          nth_error rs i = Some r ->
          nth_error (fst (submit_runs attempts idx rs)) i = Some r)
    /\ (snd (submit_runs attempts idx rs) = true
        <-> forall j, (j < List.length rs)%nat ->
                      crashes (attempts (idx + j)%nat) = false).
Proof.
  induction rs as [|r0 rest IH]; intros idx; cbn [submit_runs].
  - cbn. repeat split; try (intros; destruct i; discriminate); intros; lia.
  - destruct (crashes (attempts idx)) eqn:Ec.
    + cbn [fst snd List.length]. split; [reflexivity|]. split; [|split].
      * intros [|i] r Hi Hbefore; cbn [nth_error] in *.
        -- injection Hi as <-. now rewrite Nat.add_0_r.
        -- specialize (Hbefore 0%nat ltac:(lia)). rewrite Nat.add_0_r in Hbefore.
           congruence.
      * intros k [|i] r Hk Hck Hbefore Hi; [lia|]. cbn [nth_error] in *. exact Hi.
      * split; [discriminate|]. intros H. specialize (H 0%nat ltac:(lia)).
        rewrite Nat.add_0_r in H. congruence.
    + destruct (IH (S idx)) as (Hlen & Hrun & Hskip & Hend).
      destruct (submit_runs attempts (S idx) rest) as [rest' ended].
      cbn [fst snd List.length] in *. split; [now rewrite Hlen|]. split; [|split].
      * intros [|i] r Hi Hbefore; cbn [nth_error] in *.
        -- injection Hi as <-. now rewrite Nat.add_0_r.
        -- replace (idx + S i)%nat with (S idx + i)%nat by lia.
           apply Hrun; [exact Hi|]. intros j Hj.
           replace (S idx + j)%nat with (idx + S j)%nat by lia.
           apply Hbefore. lia.
      * intros k [|i] r Hk Hck Hbefore Hi; [lia|]. cbn [nth_error] in *.
        destruct k as [|k]; [rewrite Nat.add_0_r in Hck; congruence|].
        apply (Hskip k i r); [lia | | | exact Hi].
        -- now replace (S idx + k)%nat with (idx + S k)%nat by lia.
        -- intros j Hj. replace (S idx + j)%nat with (idx + S j)%nat by lia.
           apply Hbefore. lia.
      * rewrite Hend. split.
        -- intros H [|j] Hj; [now rewrite Nat.add_0_r|].
           replace (idx + S j)%nat with (S idx + j)%nat by lia. apply H. lia.
        -- intros H j Hj. replace (S idx + j)%nat with (idx + S j)%nat by lia.
           apply H. lia.
Qed.

(** What an attempt that makes the request writes to its run. *)
Lemma submit_run_outcome (reply : submit_reply) (r : run) :
  r_index (submit_run reply r) = r_index r
  /\ r_inputs (submit_run reply r) = r_inputs r
  /\ if accepted reply
     then r_status (submit_run reply r) = "queued"
          /\ exists prompt_id, reply = SubmitReply (Some prompt_id)
                               /\ prompt_id <> ""
                               /\ r_promptId (submit_run reply r) = Some prompt_id
     else r_status (submit_run reply r) = "error"
          /\ r_promptId (submit_run reply r) = r_promptId r.
Proof.
  unfold submit_run, accepted. destruct reply as [exc|[pid|]]; cbn; auto.
  destruct (String.eqb_spec pid ""); cbn; auto.
  repeat split. exists pid. auto.
Qed.

(** X17. [_run_batch], run by run and in order: a run whose request
    raised, or returned no prompt id or an empty one, ends ["error"] and
    keeps its prompt id ([None] for the runs of a new batch); a run whose
    request was accepted ends ["queued"] with the prompt id returned. The
    loop goes on after a failed request. When no exception leaves the
    loop it ends by writing the batch status ["queued"], even if every
    request failed. When one does, while a graph is built or while the
    gallery record of an accepted run is written, the runs after it are
    never attempted and the batch status is left as it was. *)
Theorem run_batch_outcome (attempts : nat -> attempt) (b : batch) :
  List.length (runs (_run_batch attempts b)) = List.length (runs b)
  /\ (forall i r,
        nth_error (runs b) i = Some r ->
        (forall j, (j < i)%nat -> crashes (attempts j) = false) ->
        exists r',
          nth_error (runs (_run_batch attempts b)) i = Some r'
          /\ match attempts i with
             | BuildRaises => r' = r
             | Posted reply _ =>
               r_index r' = r_index r /\ r_inputs r' = r_inputs r
               /\ if accepted reply
                  then r_status r' = "queued"
                       /\ exists prompt_id,
                            reply = SubmitReply (Some prompt_id)
                            /\ prompt_id <> ""
                            /\ r_promptId r' = Some prompt_id
                  else r_status r' = "error" /\ r_promptId r' = r_promptId r
             end)
  /\ (forall k i r,
        (k < i)%nat -> crashes (attempts k) = true ->
        (forall j, (j < k)%nat -> crashes (attempts j) = false) ->
        nth_error (runs b) i = Some r ->
        nth_error (runs (_run_batch attempts b)) i = Some r)
  /\ ((forall j, (j < List.length (runs b))%nat -> crashes (attempts j) = false) ->
      b_status (_run_batch attempts b) = "queued")
  /\ ((exists k, (k < List.length (runs b))%nat /\ crashes (attempts k) = true) ->
      b_status (_run_batch attempts b) = b_status b).
Proof.
  unfold _run_batch.
  destruct (submit_runs_spec attempts (runs b) 0) as (Hlen & Hrun & Hskip & Hend).
  destruct (submit_runs attempts 0 (runs b)) as [rs ended]. cbn [fst snd] in *.
  cbn [runs b_status]. split; [exact Hlen|]. split; [|split; [|split]].
  - intros i r Hi Hbefore. eexists. split; [apply (Hrun i r Hi Hbefore)|].
    cbn [Nat.add]. destruct (attempts i) as [|reply gr]; cbn [after_attempt];
      [reflexivity|].
    apply submit_run_outcome.
  - intros k i r Hk Hck Hbefore Hi. exact (Hskip k i r Hk Hck Hbefore Hi).
  - intros Hnone. apply Hend in Hnone. now rewrite Hnone.
  - intros (k & Hk & Hck). destruct ended; [|reflexivity].
    pose proof (proj1 Hend eq_refl k Hk) as H0. cbn [Nat.add] in H0. congruence.
Qed.

Lemma run_batch_outcome_witness :
  b_status (_run_batch (fun _ => Posted (SubmitRaises "refused") false) two_runs)
  = "queued"
  /\ b_status (_run_batch (fun _ => BuildRaises) two_runs) = b_status two_runs.
Proof.
  split.
  - apply (proj1 (proj2 (proj2 (proj2 (run_batch_outcome
             (fun _ => Posted (SubmitRaises "refused") false) two_runs))))).
    intros j _. reflexivity.
  - apply (proj2 (proj2 (proj2 (proj2 (run_batch_outcome
             (fun _ => BuildRaises) two_runs))))).
    exists 0%nat. split; [apply Nat.lt_0_succ | reflexivity].
Defined.

End BatchMore.

Section BatchPolls.

Import Json Graph Backend Batch.
Open Scope string_scope.

Lemma mark_run_twice (prompt_id : string) (r : run) :
  mark_run prompt_id (mark_run prompt_id r) = mark_run prompt_id r.
Proof.
  destruct (marked_status prompt_id r) as [E | (Hp & Hs & Hid)].
  - now rewrite !E.
  - unfold mark_run at 1. rewrite Hid.
    destruct (r_promptId r) as [p|] eqn:Ep; [|contradiction].
    unfold mark_run in *. rewrite Ep in *.
    destruct (String.eqb p prompt_id); reflexivity.
Qed.

(** X18. The pollers' batch update is idempotent and touches only the
    runs of the polled prompt id: applying it twice is applying it once;
    a run with another prompt id, or none, is unchanged; a run with the
    polled id becomes ["complete"] and keeps its index, prompt id and
    inputs. *)
Theorem poll_update_idempotent (prompt_id : string) (b : batch) :
  mark_complete prompt_id (mark_complete prompt_id b) = mark_complete prompt_id b
  /\ Forall2 (fun r r' =>
                r_index r' = r_index r
                /\ r_promptId r' = r_promptId r
                /\ r_inputs r' = r_inputs r
                /\ (r_promptId r <> Some prompt_id -> r' = r)
                /\ (r_promptId r = Some prompt_id -> r_status r' = "complete"))
             (runs b) (runs (mark_complete prompt_id b)).
Proof.
  split.
  - unfold mark_complete. cbn [runs b_status variations varySeed].
    rewrite map_map.
    rewrite (map_ext _ _ (mark_run_twice prompt_id)).
    destruct (forallb is_complete (map (mark_run prompt_id) (runs b))); reflexivity.
  - unfold mark_complete. cbn [runs].
    induction (runs b) as [|r rest IH]; cbn [map]; constructor; [|exact IH].
    unfold mark_run. destruct (r_promptId r) as [p|] eqn:Ep.
    + destruct (String.eqb_spec p prompt_id) as [->|Hne]; cbn; rewrite ?Ep;
        repeat split; auto; try congruence.
    + repeat split; auto. congruence.
Qed.

Lemma prefix_noise_seed (hay : string) :
  String.prefix "noise_seed" hay = true -> contains "seed" hay = true.
Proof.
  intros H.
  repeat match type of H with
         | String.prefix (String _ _) ?h = true =>
           destruct h as [|? h]; cbn [String.prefix] in H; [discriminate|];
             match type of H with
             | context [ascii_dec ?a ?b] =>
               destruct (ascii_dec a b); [subst | discriminate]
             end
         end.
  destruct hay; reflexivity.
Qed.

Lemma contains_noise_seed (hay : string) :
  contains "noise_seed" hay = true -> contains "seed" hay = true.
Proof.
  induction hay as [|c rest IH]; intros H.
  - cbn in H. discriminate.
  - change (contains "noise_seed" (String c rest))
      with (String.prefix "noise_seed" (String c rest) || contains "noise_seed" rest)
      in H.
    apply orb_true_iff in H. destruct H as [H | H].
    + now apply prefix_noise_seed.
    + change (contains "seed" (String c rest))
        with (String.prefix "seed" (String c rest) || contains "seed" rest).
      rewrite (IH H). apply orb_true_r.
Qed.

(** X19. [_find_seed_fields] lists exactly the input fields whose lowered
    name contains ["seed"], as [(node id, field)]. So every field the
    executor's seed loop looks at, [seed] and [noise_seed], is among the
    fields a batch varies, for every node that has it. *)
Theorem seed_fields_found (p : prompt) (node_id field : string) :
  (In (node_id, field) (_find_seed_fields p)
   <-> exists nd ni,
         In (node_id, nd) p /\ n_inputs nd = Some ni
         /\ In field (dict_keys ni)
         /\ contains "seed" (Executor.lower field) = true)
  /\ (Executor.is_seed_field field ->
      contains "seed" (Executor.lower field) = true).
Proof.
  split.
  - unfold _find_seed_fields. rewrite in_flat_map. split.
    + intros ([id nd] & Hin & H). cbn [fst snd] in H.
      destruct (n_inputs nd) as [ni|] eqn:En; [|contradiction].
      apply in_flat_map in H. destruct H as (f & Hf & H).
      destruct (contains "noise_seed" (Executor.lower f)
                || contains "seed" (Executor.lower f)) eqn:Ec; [|contradiction].
      destruct H as [H | []]. injection H as <- <-.
      exists nd, ni. repeat split; auto.
      apply orb_true_iff in Ec. destruct Ec as [Ec | Ec]; [|exact Ec].
      now apply contains_noise_seed.
    + intros (nd & ni & Hin & Hni & Hf & Hc). exists (node_id, nd).
      split; [exact Hin|]. cbn [fst snd]. rewrite Hni.
      apply in_flat_map. exists field. split; [exact Hf|].
      rewrite Hc, orb_true_r. now left.
  - intros [-> | ->]; reflexivity.
Qed.

End BatchPolls.

(** ** The command line: lookups and node lists *)

Section CliLookups.

Import Json Graph Cli.
Open Scope string_scope.
Open Scope list_scope.

Lemma prefix_starts (q s : string) :
  String.prefix q s = true <-> exists rest, s = (q ++ rest)%string.
Proof.
  revert s. induction q as [|a q IH]; intros s.
  - split; [intros _; exists s; reflexivity | intros _; destruct s; reflexivity].
  - destruct s as [|b s]; cbn [String.prefix].
    + split; [discriminate | intros [rest H]; discriminate].
    + destruct (ascii_dec a b) as [->|Hne].
      * rewrite IH. split; intros [rest H]; exists rest.
        -- cbn. now rewrite H.
        -- cbn in H. now injection H.
      * split; [discriminate|]. intros [rest H]. cbn in H. injection H as H1 _.
        now elim Hne.
Qed.

Lemma find_first {A} (test : A -> bool) (before after : list A) (x : A) :
  (forall y, In y before -> test y = false) -> test x = true ->
  find test (before ++ x :: after) = Some x.
Proof.
  intros Hb Hx. induction before as [|y before IH]; cbn [app find].
  - now rewrite Hx.
  - rewrite (Hb y (or_introl eq_refl)). apply IH. intros z Hz. apply Hb. now right.
Qed.

Lemma find_split {A} (test : A -> bool) (l : list A) (x : A) :
  find test l = Some x ->
  exists before after,
    l = before ++ x :: after /\ test x = true
    /\ forall y, In y before -> test y = false.
Proof.
  induction l as [|y l IH]; cbn [find]; [discriminate|].
  destruct (test y) eqn:E.
  - intros H. injection H as ->. exists [], l. repeat split; auto.
    intros z [].
  - intros H. destruct (IH H) as (before & after & -> & Hx & Hb).
    exists (y :: before), after. repeat split; auto.
    intros z [<- | Hz]; auto.
Qed.

(** X20. [find_workflow] returns a workflow of the configuration whose
    id starts with the query; a workflow whose id is the query wins over
    every prefix match (the first such one is returned); the lookup fails
    with "not found" exactly when no id starts with the query; and it
    fails as ambiguous only when no id is the query and at least two
    entries start with it, whose ids cut to 12 characters it lists. *)
Theorem find_workflow_by_prefix (workflows : list workflow) (q : string) :
  (forall wf, find_workflow workflows q = Done wf ->
     In wf workflows /\ exists rest, w_id wf = (q ++ rest)%string)
  /\ (forall before wf after,
        workflows = before ++ wf :: after -> w_id wf = q ->
        (forall w, In w before -> w_id w <> q) ->
        find_workflow workflows q = Done wf)
  /\ (find_workflow workflows q = SystemExit (NotFound q)
      <-> forall wf, In wf workflows -> ~ exists rest, w_id wf = (q ++ rest)%string)
  /\ (forall x ids, find_workflow workflows q = SystemExit (Ambiguous x ids) ->
        x = q /\ (forall wf, In wf workflows -> w_id wf <> q)
        /\ (2 <= List.length ids)%nat
        /\ ids = map (fun m => String.substring 0 12 (w_id m))
                     (filter (fun wf => String.prefix q (w_id wf)) workflows)).
Proof.
  assert (Hnone : find (fun wf => String.eqb (w_id wf) q) workflows = None ->
                  forall wf, In wf workflows -> w_id wf <> q).
  { intros H wf Hin Heq. apply (find_none _ _ H) in Hin.
    rewrite Heq, String.eqb_refl in Hin. discriminate. }
  unfold find_workflow. split; [|split; [|split]].
  - intros wf.
    destruct (find (fun wf => String.eqb (w_id wf) q) workflows) as [w|] eqn:Ef.
    + intros H. injection H as ->. apply find_some in Ef. destruct Ef as [Hin He].
      apply String.eqb_eq in He. split; [exact Hin|]. exists "".
      rewrite He. clear. induction q; cbn; congruence.
    + destruct (filter _ workflows) as [|m [|m' ms]] eqn:Em; try discriminate.
      intros H. injection H as ->.
      assert (Hin : In wf (filter (fun wf => String.prefix q (w_id wf)) workflows))
        by (rewrite Em; now left).
      apply filter_In in Hin. destruct Hin as [Hin Hp]. split; [exact Hin|].
      now apply prefix_starts.
  - intros before wf after -> Hid Hb.
    rewrite (find_first (fun wf => String.eqb (w_id wf) q) before after wf).
    + reflexivity.
    + intros y Hy. apply String.eqb_neq. now apply Hb.
    + now apply String.eqb_eq.
  - destruct (find (fun wf => String.eqb (w_id wf) q) workflows) as [w|] eqn:Ef.
    + split; [discriminate|]. intros H. exfalso.
      apply find_some in Ef. destruct Ef as [Hin He]. apply String.eqb_eq in He.
      apply (H w Hin). exists "". rewrite He. clear. induction q; cbn; congruence.
    + destruct (filter _ workflows) as [|m [|m' ms]] eqn:Em.
      * split; [|reflexivity]. intros _ wf Hin Hp. apply prefix_starts in Hp.
        assert (Hf : In wf (filter (fun wf => String.prefix q (w_id wf)) workflows))
          by (apply filter_In; split; assumption).
        rewrite Em in Hf. destruct Hf.
      * split; [discriminate|]. intros H. exfalso.
        assert (Hf : In m (filter (fun wf => String.prefix q (w_id wf)) workflows))
          by (rewrite Em; now left).
        apply filter_In in Hf. destruct Hf as [Hin Hp].
        apply (H m Hin). now apply prefix_starts.
      * split; [discriminate|]. intros H. exfalso.
        assert (Hf : In m (filter (fun wf => String.prefix q (w_id wf)) workflows))
          by (rewrite Em; now left).
        apply filter_In in Hf. destruct Hf as [Hin Hp].
        apply (H m Hin). now apply prefix_starts.
  - intros x ids.
    destruct (find (fun wf => String.eqb (w_id wf) q) workflows) as [w|] eqn:Ef;
      [discriminate|].
    destruct (filter _ workflows) as [|m [|m' ms]] eqn:Em; try discriminate.
    intros H. injection H as <- <-. split; [reflexivity|].
    split; [now apply Hnone|]. split; [cbn; lia | reflexivity].
Qed.

Lemma find_workflow_by_prefix_witness :
  find_workflow sample_workflows "ab" = Done (wf_named "ab").
Proof.
  refine (proj1 (proj2 (find_workflow_by_prefix sample_workflows "ab"))
            [wf_named "abc"] (wf_named "ab") [wf_named "abd"] eq_refl eq_refl _).
  intros w [<- | []]. discriminate.
Defined.

Lemma node_matches_iff (q : string) (n : input_node) :
  node_matches q n = true
  <-> nodeId n = q \/ label n = Some q \/ (nodeId n ++ "." ++ fieldPath n)%string = q.
Proof.
  unfold node_matches, label_is. rewrite !orb_true_iff, !String.eqb_eq.
  destruct (label n) as [l|].
  - rewrite String.eqb_eq. split.
    + intros [[[H | H] | H] | H]; subst; auto.
    + intros [H | [H | H]]; auto. injection H as ->. auto.
  - split.
    + intros [[[H | H] | H] | H]; auto; discriminate.
    + intros [H | [H | H]]; auto. discriminate.
Qed.

Lemma find_node_from_spec (q : string) (nodes : list input_node) :
  forall i,
    (find_node_from i nodes q = -1
     /\ forall n, In n nodes -> node_matches q n = false)
    \/ exists before n after,
         nodes = before ++ n :: after
         /\ find_node_from i nodes q = i + Z.of_nat (List.length before)
         /\ node_matches q n = true
         /\ forall m, In m before -> node_matches q m = false.
Proof.
  induction nodes as [|x nodes IH]; intros i; cbn [find_node_from].
  - left. split; [reflexivity | intros n []].
  - destruct (node_matches q x) eqn:E.
    + right. exists [], x, nodes. cbn. repeat split; auto; try lia;
        try (intros m []).
    + destruct (IH (i + 1)) as [[H1 H2] | (before & n & after & -> & H1 & H2 & H3)].
      * left. split; [exact H1|]. intros n [<- | Hn]; auto.
      * right. exists (x :: before), n, after. repeat split; auto.
        -- rewrite H1. cbn [List.length]. lia.
        -- intros m [<- | Hm]; auto.
Qed.

(** X21. [_find_node_index] returns [-1] exactly when no node of the
    list has the given node id, label, or [nodeId.fieldPath]; otherwise
    it returns the position of the first node that has. *)
Theorem find_node_index_first_match (nodes : list input_node) (q : string) :
  let hit n := nodeId n = q \/ label n = Some q
               \/ (nodeId n ++ "." ++ fieldPath n)%string = q in
  (_find_node_index nodes q = -1 /\ forall n, In n nodes -> ~ hit n)
  \/ exists before n after,
       nodes = before ++ n :: after
       /\ _find_node_index nodes q = Z.of_nat (List.length before)
       /\ hit n
       /\ forall m, In m before -> ~ hit m.
Proof.
  intros hit. unfold _find_node_index.
  destruct (find_node_from_spec q nodes 0)
    as [[H1 H2] | (before & n & after & -> & H1 & H2 & H3)].
  - left. split; [exact H1|]. intros n Hn Hh. apply node_matches_iff in Hh.
    rewrite (H2 n Hn) in Hh. discriminate.
  - right. exists before, n, after. repeat split; auto.
    + now apply node_matches_iff.
    + intros m Hm Hh. apply node_matches_iff in Hh. rewrite (H3 m Hm) in Hh.
      discriminate.
Qed.

Lemma pop_found (nodes : list input_node) (q : string) :
  (Z.leb 0 (_find_node_index nodes q) = false
   /\ forall n, In n nodes -> node_matches q n = false)
  \/ exists before n after,
       nodes = before ++ n :: after
       /\ Z.leb 0 (_find_node_index nodes q) = true
       /\ pop (Z.to_nat (_find_node_index nodes q)) nodes = Some (n, (before ++ after)%list)
       /\ node_matches q n = true
       /\ forall m, In m before -> node_matches q m = false.
Proof.
  unfold _find_node_index.
  destruct (find_node_from_spec q nodes 0)
    as [[H1 H2] | (before & n & after & -> & H1 & H2 & H3)].
  - left. rewrite H1. split; [reflexivity | exact H2].
  - right. exists before, n, after. rewrite H1. repeat split; auto.
    + apply Z.leb_le. lia.
    + replace (Z.to_nat (0 + Z.of_nat (List.length before))) with (List.length before) by lia.
      unfold pop. rewrite nth_error_app2, Nat.sub_diag by lia. cbn [nth_error].
      rewrite firstn_app, Nat.sub_diag, firstn_all. cbn [firstn].
      rewrite app_nil_r.
      replace (S (List.length before)) with (List.length before + 1)%nat by lia.
      rewrite skipn_app.
      replace (List.length before + 1 - List.length before)%nat with 1%nat by lia.
      rewrite skipn_all2 by lia. reflexivity.
Qed.

(** X22. [workflow set-primary] and [set-secondary] never fail on the
    list operation and never lose or duplicate a node: the primary and
    secondary lists together hold the same nodes before and after; when a
    node of the source list matches, the first such node (and only it) is
    removed from the source list and appended to the other list, the
    rest keeping their order; when none matches the workflow is left as
    it is. *)
Theorem set_primary_moves_one_node (wf : workflow) (q : string) :
  let hit n := nodeId n = q \/ label n = Some q
               \/ (nodeId n ++ "." ++ fieldPath n)%string = q in
  (exists wf' moved,
     workflow_set_primary wf q = Some (wf', moved)
     /\ w_id wf' = w_id wf
     /\ Permutation (primaryInputNodes wf' ++ secondaryInputNodes wf')
                    (primaryInputNodes wf ++ secondaryInputNodes wf)
     /\ match moved with
        | Some n =>
          hit n
          /\ exists before after,
               secondaryInputNodes wf = (before ++ n :: after)%list
               /\ (forall m, In m before -> ~ hit m)
               /\ secondaryInputNodes wf' = (before ++ after)%list
               /\ primaryInputNodes wf' = (primaryInputNodes wf ++ [n])%list
        | None => wf' = wf /\ forall n, In n (secondaryInputNodes wf) -> ~ hit n
        end)
  /\ (exists wf' moved,
        workflow_set_secondary wf q = Some (wf', moved)
        /\ w_id wf' = w_id wf
        /\ Permutation (primaryInputNodes wf' ++ secondaryInputNodes wf')
                       (primaryInputNodes wf ++ secondaryInputNodes wf)
        /\ match moved with
           | Some n =>
             hit n
             /\ exists before after,
                  primaryInputNodes wf = (before ++ n :: after)%list
                  /\ (forall m, In m before -> ~ hit m)
                  /\ primaryInputNodes wf' = (before ++ after)%list
                  /\ secondaryInputNodes wf' = (secondaryInputNodes wf ++ [n])%list
           | None => wf' = wf /\ forall n, In n (primaryInputNodes wf) -> ~ hit n
           end).
Proof.
  intros hit.
  assert (Hno : forall n, node_matches q n = false -> ~ hit n).
  { intros n H Hh. apply node_matches_iff in Hh. rewrite H in Hh. discriminate. }
  split.
  - unfold workflow_set_primary.
    destruct (pop_found (secondaryInputNodes wf) q)
      as [[H1 H2] | (before & n & after & Hs & H1 & H2 & H3 & H4)].
    + rewrite H1. exists wf, None. repeat split; auto.
    + rewrite H1, H2. eexists _, (Some n). split; [reflexivity|].
      cbn [w_id primaryInputNodes secondaryInputNodes].
      split; [reflexivity|]. split.
      * rewrite Hs, <- app_assoc. apply Permutation_app_head.
        cbn [app]. apply Permutation_middle.
      * split; [now apply node_matches_iff|].
        exists before, after. repeat split; auto.
  - unfold workflow_set_secondary.
    destruct (pop_found (primaryInputNodes wf) q)
      as [[H1 H2] | (before & n & after & Hs & H1 & H2 & H3 & H4)].
    + rewrite H1. exists wf, None. repeat split; auto.
    + rewrite H1, H2. eexists _, (Some n). split; [reflexivity|].
      cbn [w_id primaryInputNodes secondaryInputNodes].
      split; [reflexivity|]. split.
      * rewrite Hs, <- !app_assoc. apply Permutation_app_head.
        cbn [app]. apply Permutation_sym.
        rewrite (app_assoc after). apply Permutation_cons_append.
      * split; [now apply node_matches_iff|].
        exists before, after. repeat split; auto.
Qed.

End CliLookups.

(** ** The command line: servers *)

Section CliServers.

Import Json Graph Cli.
Open Scope string_scope.
Open Scope list_scope.

Lemma filter_cleared (l : list server) :
  filter isDefault (map (with_default false) l) = [].
Proof.
  induction l as [|x l IH]; cbn; auto.
Qed.

Lemma update_first_split {A} (test : A -> bool) (f : A -> A)
    (before after : list A) (x : A) :
  (forall y, In y before -> test y = false) -> test x = true ->
  update_first test f (before ++ x :: after) = before ++ f x :: after.
Proof.
  intros Hb Hx. induction before as [|y before IH]; cbn [app update_first].
  - now rewrite Hx.
  - rewrite (Hb y (or_introl eq_refl)). f_equal. apply IH.
    intros z Hz. apply Hb. now right.
Qed.

Lemma update_first_defaults (test : server -> bool) (f : server -> server)
    (l : list server) :
  (forall x, isDefault (f x) = true -> isDefault x = true) ->
  (List.length (filter isDefault (update_first test f l))
   <= List.length (filter isDefault l))%nat.
Proof.
  intros Hf. induction l as [|x l IH]; cbn [update_first filter]; [lia|].
  destruct (test x).
  - cbn [filter]. destruct (isDefault (f x)) eqn:E.
    + rewrite (Hf x E). cbn [List.length]. lia.
    + destruct (isDefault x); cbn [List.length]; lia.
  - cbn [filter]. destruct (isDefault x); cbn [List.length]; lia.
Qed.


Lemma filter_defaults (keep : server -> bool) (l : list server) :
  (List.length (filter isDefault (filter keep l))
   <= List.length (filter isDefault l))%nat.
Proof.
  induction l as [|x l IH]; cbn [filter]; [lia|].
  destruct (keep x); cbn [filter]; destruct (isDefault x); cbn [List.length]; lia.
Qed.

Lemma edit_sets_default (servers s' : list server) (id : string)
    (name url api_key : option string) :
  server_edit servers id name url api_key (Some true) = Done s' ->
  exists x, filter isDefault s' = [x] /\ s_id x = id.
Proof.
  unfold server_edit. destruct (find (has_id id) servers) as [x|] eqn:Ef; [|discriminate].
  intros H. injection H as <-.
  destruct (find_split _ _ _ Ef) as (before & after & -> & Hx & Hb).
  rewrite (update_first_split (has_id id) _ before after x Hb Hx).
  rewrite map_app. cbn [map].
  rewrite update_first_split.
  - eexists. rewrite filter_app. cbn [filter with_default isDefault].
    rewrite !filter_cleared. cbn [app]. split; [reflexivity|].
    cbn [s_id]. unfold has_id in Hx. now apply String.eqb_eq in Hx.
  - intros y Hy. apply in_map_iff in Hy. destruct Hy as (z & <- & Hz).
    exact (Hb z Hz).
  - exact Hx.
Qed.

(** X23. The commands that change the server list keep at most one
    default server: [server add --default] and [server edit --default
    true] leave exactly one default, the server added or edited, whatever
    the list held before; every other add, edit or delete never raises the
    number of default servers, so a list with at most one default keeps
    that property. *)
Theorem one_default_server (servers : list server) (id : string) :
  (forall name url api_key,
     exists new,
       filter isDefault (server_add servers id name url api_key true) = [new]
       /\ s_id new = id)
  /\ (forall name url api_key s',
        server_edit servers id name url api_key (Some true) = Done s' ->
        exists x, filter isDefault s' = [x] /\ s_id x = id)
  /\ (at_most_one_default servers ->
      (forall name url api_key default,
         at_most_one_default (server_add servers id name url api_key default))
      /\ (forall name url api_key default s',
            server_edit servers id name url api_key default = Done s' ->
            at_most_one_default s')
      /\ at_most_one_default (server_delete servers id)).
Proof.
  split; [|split].
  - intros name url api_key. eexists. unfold server_add.
    rewrite filter_app, filter_cleared. cbn. split; reflexivity.
  - intros name url api_key s'. apply edit_sets_default.
  - unfold at_most_one_default. intros H. split; [|split].
    + intros name url api_key [|]; unfold server_add; rewrite filter_app, length_app.
      * rewrite filter_cleared. cbn. lia.
      * cbn. lia.
    + intros name url api_key [[|]|] s' Hs.
      * destruct (edit_sets_default _ _ _ _ _ _ Hs) as (x & -> & _). cbn. lia.
      * unfold server_edit in Hs.
        destruct (find (has_id id) servers); [|discriminate]. injection Hs as <-.
        etransitivity; [apply update_first_defaults; cbn; congruence|].
        etransitivity; [apply update_first_defaults; cbn; congruence|]. exact H.
      * unfold server_edit in Hs.
        destruct (find (has_id id) servers); [|discriminate]. injection Hs as <-.
        etransitivity; [apply update_first_defaults; cbn; congruence|]. exact H.
    + unfold server_delete. etransitivity; [apply filter_defaults | exact H].
Qed.

Lemma one_default_server_witness :
  at_most_one_default sample_servers
  /\ at_most_one_default (server_delete sample_servers "s2").
Proof.
  assert (H : at_most_one_default sample_servers) by apply le_n.
  split; [exact H|].
  exact (proj2 (proj2 (proj2 (proj2 (one_default_server sample_servers "s2")) H))).
Defined.







End CliServers.

(** ** The command line: inputs and overrides *)

Section CliInputs.

Import Json Graph Cli.
Open Scope string_scope.

Lemma split_first_dot (s : string) : split_first "." s = split_dot s.
Proof.
  induction s as [|c s IH]; cbn [split_first split_dot]; [reflexivity|].
  now rewrite IH.
Qed.

Lemma split_first_some (c : ascii) (s a b : string) :
  split_first c s = Some (a, b) ->
  s = a ++ String c b /\ ~ In c (list_ascii_of_string a).
Proof.
  revert a b. induction s as [|x s IH]; intros a b; cbn [split_first]; [discriminate|].
  destruct (Ascii.eqb_spec x c) as [->|Hne].
  - intros H. injection H as <- <-. split; [reflexivity | intros []].
  - destruct (split_first c s) as [[a' b']|]; [|discriminate].
    intros H. injection H as <- <-. destruct (IH a' b' eq_refl) as [-> Hn].
    split; [reflexivity|]. cbn. intros [H | H]; auto.
Qed.

Lemma split_first_none (c : ascii) (s : string) :
  split_first c s = None <-> ~ In c (list_ascii_of_string s).
Proof.
  induction s as [|x s IH]; cbn [split_first list_ascii_of_string In].
  - split; auto.
  - destruct (Ascii.eqb_spec x c) as [->|Hne].
    + split; [discriminate | intros H; elim H; now left].
    + destruct (split_first c s) as [[a b]|].
      * split; [discriminate|]. intros H. exfalso.
        assert (Hs : ~ In c (list_ascii_of_string s)) by tauto.
        apply IH in Hs. discriminate.
      * split; [|reflexivity]. intros _ [H | H]; [congruence|].
        now apply (proj1 IH).
Qed.

Lemma split_first_app (c : ascii) (a b : string) :
  ~ In c (list_ascii_of_string a) ->
  split_first c (a ++ String c b) = Some (a, b).
Proof.
  induction a as [|x a IH]; cbn [append split_first list_ascii_of_string In].
  - intros _. now rewrite Ascii.eqb_refl.
  - intros H. destruct (Ascii.eqb_spec x c) as [->|Hne]; [tauto|].
    rewrite IH by tauto. reflexivity.
Qed.

Lemma append_assoc3 (a b c : string) : (a ++ b) ++ c = a ++ (b ++ c).
Proof.
  induction a as [|x a IH]; cbn; [reflexivity | now rewrite IH].
Qed.

(** X25. [_parse_overrides] succeeds exactly on items of the form
    [nodeId.fieldPath:raw], where the node id holds neither a dot nor a
    colon and the field path no colon (it may hold dots, and [raw] may
    hold anything): item by item it returns that node id, that field path
    and the coerced [raw]. When it fails, it fails at the first item that
    has no colon, or no dot before its first colon, and names that item
    or its key. *)
Theorem parse_overrides_shape (coerce : string -> json) (items : list string) :
  let shape item o :=
    exists raw,
      item = o_nodeId o ++ "." ++ o_fieldPath o ++ ":" ++ raw
      /\ o_value o = coerce raw
      /\ ~ In "."%char (list_ascii_of_string (o_nodeId o))
      /\ ~ In ":"%char (list_ascii_of_string (o_nodeId o))
      /\ ~ In ":"%char (list_ascii_of_string (o_fieldPath o)) in
  (forall overrides,
     _parse_overrides coerce items = Done overrides
     <-> Forall2 shape items overrides)
  /\ (forall why,
        _parse_overrides coerce items = SystemExit why ->
        exists before item after,
          items = (before ++ item :: after)%list
          /\ (exists overrides, _parse_overrides coerce before = Done overrides)
          /\ ((why = Invalid item /\ ~ In ":"%char (list_ascii_of_string item))
              \/ exists key raw,
                   item = key ++ ":" ++ raw
                   /\ ~ In ":"%char (list_ascii_of_string key)
                   /\ ~ In "."%char (list_ascii_of_string key)
                   /\ why = NeedsDot key)).
Proof.
  intros shape. split.
  - induction items as [|item items IH]; intros overrides; cbn [_parse_overrides].
    + split.
      * intros H. injection H as <-. constructor.
      * intros H. inversion H. reflexivity.
    + split.
      * destruct (split_first ":" item) as [[node_key val]|] eqn:E1; [|discriminate].
        destruct (split_first "." node_key) as [[node_id field]|] eqn:E2; [|discriminate].
        destruct (_parse_overrides coerce items) as [os|] eqn:E3; [|discriminate].
        intros H. injection H as <-. constructor; [|now apply IH].
        apply split_first_some in E1. destruct E1 as [-> Hc].
        apply split_first_some in E2. destruct E2 as [-> Hd].
        exists val. cbn [o_nodeId o_fieldPath o_value].
        rewrite list_of_append in Hc. cbn [list_ascii_of_string] in Hc.
        rewrite in_app_iff in Hc. cbn [In] in Hc.
        split; [|repeat split; tauto].
        now rewrite append_assoc3.
      * intros H. inversion H as [|x o l os (raw & Hi & Hv & Hd & Hc1 & Hc2) Hrest]; subst.
        destruct o as [n f v]. cbn [o_nodeId o_fieldPath o_value] in *. subst v.
        replace (n ++ "." ++ f ++ ":" ++ raw) with ((n ++ String "." f) ++ String ":" raw)
          by (now rewrite append_assoc3).
        rewrite split_first_app.
        -- rewrite split_first_app by exact Hd.
           apply IH in Hrest. now rewrite Hrest.
        -- rewrite list_of_append. cbn [list_ascii_of_string].
           rewrite in_app_iff. cbn [In]. intros [H1 | [H1 | H1]]; auto. discriminate.
  - induction items as [|item items IH]; intros why; cbn [_parse_overrides];
      [discriminate|].
    destruct (split_first ":" item) as [[node_key val]|] eqn:E1.
    + destruct (split_first "." node_key) as [[node_id field]|] eqn:E2.
      * destruct (_parse_overrides coerce items) as [os|] eqn:E3; [discriminate|].
        intros H. injection H as <-.
        destruct (IH _ eq_refl) as (before & it & after & -> & (os & Hos) & Hwhy).
        exists (item :: before), it, after. split; [reflexivity|]. split.
        -- cbn [_parse_overrides]. rewrite E1, E2, Hos. eexists; reflexivity.
        -- exact Hwhy.
      * intros H. injection H as <-. exists [], item, items.
        split; [reflexivity|]. split; [eexists; reflexivity|]. right.
        apply split_first_some in E1. destruct E1 as [-> Hc].
        exists node_key, val. repeat split; auto.
        now apply split_first_none.
    + intros H. injection H as <-. exists [], item, items.
      split; [reflexivity|]. split; [eexists; reflexivity|]. left.
      split; [reflexivity|]. now apply split_first_none.
Qed.

Lemma parse_overrides_shape_witness :
  _parse_overrides JStr ["3.seed:42"; "7.text:a:b"]
  = Done [mkOverride "3" "seed" (JStr "42"); mkOverride "7" "text" (JStr "a:b")].
Proof.
  apply (proj2 (proj1 (parse_overrides_shape JStr ["3.seed:42"; "7.text:a:b"]) _)).
  constructor; [|constructor; [|constructor]].
  - exists "42". cbn. repeat split; intuition discriminate.
  - exists "a:b". cbn. repeat split; intuition discriminate.
Defined.

Lemma dict_keys_set_in {A} (k k' : string) (v : A) (d : dict A) :
  In k (dict_keys (dict_set k' v d)) -> k = k' \/ In k (dict_keys d).
Proof.
  induction d as [|[k0 v0] d IH]; cbn [dict_set dict_keys map fst In].
  - intros [H | []]. now left.
  - destruct (String.eqb_spec k' k0) as [->|Hne]; cbn [map fst In].
    + tauto.
    + intros [H | H]; [tauto|]. apply IH in H. tauto.
Qed.

Lemma parse_kv_into_app (coerce : string -> json) (l1 l2 : list string) :
  forall acc d,
    parse_kv_into coerce acc (l1 ++ l2)%list = Done d ->
    exists mid, parse_kv_into coerce acc l1 = Done mid
                /\ parse_kv_into coerce mid l2 = Done d.
Proof.
  induction l1 as [|item l1 IH]; intros acc d; cbn [app parse_kv_into].
  - intros H. now exists acc.
  - destruct (split_first ":" item) as [[key val]|]; [|discriminate].
    destruct (split_first "." key) as [[n f]|]; [|discriminate].
    apply IH.
Qed.

Lemma parse_kv_into_keys (coerce : string -> json) (items : list string) :
  forall acc d,
    parse_kv_into coerce acc items = Done d ->
    forall k, In k (dict_keys d) ->
      In k (dict_keys acc)
      \/ (exists n f, split_dot k = Some (n, f))
         /\ exists raw, In (k ++ ":" ++ raw) items.
Proof.
  induction items as [|item items IH]; intros acc d; cbn [parse_kv_into].
  - intros H. injection H as <-. auto.
  - destruct (split_first ":" item) as [[key val]|] eqn:E1; [|discriminate].
    destruct (split_first "." key) as [[n f]|] eqn:E2; [|discriminate].
    intros H k Hk. destruct (IH _ _ H k Hk) as [Hin | (Hd & raw & Hr)].
    + apply dict_keys_set_in in Hin. destruct Hin as [-> | Hin]; [|now left].
      right. split.
      * exists n, f. now rewrite <- split_first_dot.
      * exists val. left. apply split_first_some in E1. now destruct E1.
    + right. split; [exact Hd|]. exists raw. now right.
Qed.

Lemma parse_kv_into_keeps (coerce : string -> json) (key : string) (v : json)
    (items : list string) :
  (forall it, In it items -> forall raw, it <> key ++ ":" ++ raw) ->
  forall acc d,
    parse_kv_into coerce acc items = Done d ->
    dict_get key acc = Some v -> dict_get key d = Some v.
Proof.
  induction items as [|item items IH]; intros Hno acc d; cbn [parse_kv_into].
  - intros H. now injection H as <-.
  - destruct (split_first ":" item) as [[k val]|] eqn:E1; [|discriminate].
    destruct (split_first "." k) as [[n f]|] eqn:E2; [|discriminate].
    intros H Hg. apply (IH (fun it Hit => Hno it (or_intror Hit)) _ _ H).
    rewrite dict_get_set_other; [exact Hg|].
    intros ->. apply split_first_some in E1. destruct E1 as [E1 _].
    exact (Hno item (or_introl eq_refl) val E1).
Qed.

(** X26. The inputs [_parse_kv_items] stores with a template are all
    usable by the override loops: every key of the dictionary it returns
    comes from an item [key:raw] and splits at its first dot into a node
    id and a field, so no loop skips it; and when several items give the
    same key, the value kept is the coerced [raw] of the last one. *)
Theorem parse_kv_keys_are_dotted (coerce : string -> json) (items : list string)
    (values : dict json) :
  _parse_kv_items coerce items = Done values ->
  (forall k, In k (dict_keys values) ->
     (exists n f, split_dot k = Some (n, f))
     /\ exists raw, In (k ++ ":" ++ raw) items)
  /\ (forall before key raw after,
        items = (before ++ (key ++ ":" ++ raw)%string :: after)%list ->
        ~ In ":"%char (list_ascii_of_string key) ->
        (forall it, In it after -> forall raw', it <> key ++ ":" ++ raw') ->
        dict_get key values = Some (coerce raw)).
Proof.
  unfold _parse_kv_items. intros H. split.
  - intros k Hk. destruct (parse_kv_into_keys _ _ _ _ H k Hk) as [[] | Hr]. exact Hr.
  - intros before key raw after -> Hc Hafter.
    apply parse_kv_into_app in H. destruct H as (mid & _ & H).
    cbn [parse_kv_into] in H.
    change (key ++ ":" ++ raw) with (key ++ String ":" raw) in H.
    rewrite (split_first_app ":" key raw Hc) in H.
    destruct (split_first "." key) as [[n f]|]; [|discriminate].
    apply (parse_kv_into_keeps coerce key (coerce raw) after Hafter _ _ H).
    apply dict_get_set_same.
Qed.

Lemma parse_kv_keys_are_dotted_witness :
  exists values,
    _parse_kv_items JStr ["3.seed:1"; "3.seed:2"] = Done values
    /\ dict_get "3.seed" values = Some (JStr "2").
Proof.
  eexists. split; [reflexivity|].
  refine (proj2 (parse_kv_keys_are_dotted JStr ["3.seed:1"; "3.seed:2"] _ eq_refl)
            ["3.seed:1"] "3.seed" "2" [] eq_refl _ _).
  - cbn. intuition discriminate.
  - intros it [].
Defined.

Lemma not_in_keys {A} (k : string) (d : dict A) :
  dict_get k d = None -> ~ In k (dict_keys d).
Proof.
  intros H Hin. apply dict_get_present in Hin. destruct Hin as [v Hv]. congruence.
Qed.

(** X27. [template_run] applies its inputs as the server's override loop
    does, except that it refuses an absent node: it fails with "Node not
    found" exactly when some input whose key has a dot names a node that
    is not in the graph, and names such a node; otherwise the graph it
    posts is the one the override loop of [execute_job] builds from the
    same inputs. Keys without a dot are skipped by both. *)
Theorem template_run_applies_like_server (input_values : dict json) (p : prompt) :
  (forall p', strict_apply input_values p = Done p' ->
              p' = apply_inputs input_values p)
  /\ ((exists p', strict_apply input_values p = Done p')
      <-> forall k v n f, In (k, v) input_values -> split_dot k = Some (n, f) ->
                          In n (dict_keys p))
  /\ (forall why, strict_apply input_values p = SystemExit why ->
        exists k v n f,
          In (k, v) input_values /\ split_dot k = Some (n, f)
          /\ ~ In n (dict_keys p) /\ why = NotFound n).
Proof.
  revert p. induction input_values as [|[k v] rest IH]; intros p.
  - cbn [strict_apply]. split; [|split].
    + intros p' H. now injection H as <-.
    + split; [intros _ k v n f [] | intros _; now exists p].
    + discriminate.
  - cbn [strict_apply]. unfold apply_inputs. cbn [fold_left]. unfold override at 2.
    cbn [fst snd]. fold (apply_inputs rest).
    destruct (split_dot k) as [[n f]|] eqn:Es.
    + destruct (dict_get n p) as [nd|] eqn:Eg.
      * assert (Hk : dict_keys (dict_set n (set_node_input f v nd) p) = dict_keys p)
          by (eapply dict_keys_set_same; exact Eg).
        destruct (IH (dict_set n (set_node_input f v nd) p)) as (H1 & H2 & H3).
        rewrite Hk in H2, H3.
        split; [exact H1|]. split.
        -- rewrite H2. split.
           ++ intros H k' v' n' f' [Heq | Hin] Hs.
              ** injection Heq as <- <-. rewrite Es in Hs. injection Hs as <- <-.
                 eapply dict_get_in_keys; exact Eg.
              ** eapply H; eassumption.
           ++ intros H k' v' n' f' Hin. apply (H k' v' n' f'). now right.
        -- intros why Hw. destruct (H3 why Hw) as (k' & v' & n' & f' & Hin & Hrest).
           exists k', v', n', f'. split; [now right | exact Hrest].
      * split; [discriminate|]. split.
        -- split; [intros [p' H]; discriminate|]. intros H. exfalso.
           apply (not_in_keys n p Eg). apply (H k v n f); [now left | exact Es].
        -- intros why H. injection H as <-. exists k, v, n, f.
           split; [now left|]. split; [exact Es|]. split; [|reflexivity].
           now apply not_in_keys.
    + destruct (IH p) as (H1 & H2 & H3). split; [exact H1|]. split.
      * rewrite H2. split.
        -- intros H k' v' n' f' [Heq | Hin] Hs.
           ++ injection Heq as <- <-. congruence.
           ++ eapply H; eassumption.
        -- intros H k' v' n' f' Hin. apply (H k' v' n' f'). now right.
      * intros why Hw. destruct (H3 why Hw) as (k' & v' & n' & f' & Hin & Hrest).
        exists k', v', n', f'. split; [now right | exact Hrest].
Qed.

Lemma template_run_applies_like_server_witness :
  exists p',
    strict_apply [("1.image", JStr "cat.png"); ("note", JInt 1)] image_graph = Done p'
    /\ p' = apply_inputs [("1.image", JStr "cat.png"); ("note", JInt 1)] image_graph.
Proof.
  eexists. split; [reflexivity|].
  exact (proj1 (template_run_applies_like_server
                  [("1.image", JStr "cat.png"); ("note", JInt 1)] image_graph)
           _ eq_refl).
Defined.

Lemma split_dot_key (n f : string) :
  ~ In "."%char (list_ascii_of_string n) -> split_dot (n ++ "." ++ f) = Some (n, f).
Proof.
  intros H. rewrite <- split_first_dot. now apply split_first_app.
Qed.

(** X28. [workflow_run] applies the overrides given on the command line
    in order. It fails with "Node not found" exactly when one of them
    names a node that is not in the graph; otherwise the graph keeps its
    nodes, and (node ids having no dot, as [_parse_overrides] ensures)
    it is the graph the override loop of [execute_job] builds from the
    inputs [nodeId.fieldPath], taken in the same order. *)
Theorem workflow_run_overrides (overrides : list override_item) (p : prompt)
    (input_values : dict json) :
  ((exists r, run_overrides p input_values overrides = Done r)
   <-> forall o, In o overrides -> In (o_nodeId o) (dict_keys p))
  /\ (forall why, run_overrides p input_values overrides = SystemExit why ->
        exists o, In o overrides /\ ~ In (o_nodeId o) (dict_keys p)
                  /\ why = NotFound (o_nodeId o))
  /\ (forall p' iv',
        run_overrides p input_values overrides = Done (p', iv') ->
        dict_keys p' = dict_keys p
        /\ ((forall o, In o overrides ->
               ~ In "."%char (list_ascii_of_string (o_nodeId o))) ->
            p' = apply_inputs
                   (map (fun o => (override_key o, o_value o)) overrides) p)).
Proof.
  revert p input_values. induction overrides as [|o rest IH]; intros p iv.
  - cbn [run_overrides]. split; [|split].
    + split; [intros _ o [] | intros _; eexists; reflexivity].
    + discriminate.
    + intros p' iv' H. injection H as <- <-. split; reflexivity.
  - cbn [run_overrides]. destruct (dict_get (o_nodeId o) p) as [nd|] eqn:Eg.
    + set (p1 := dict_set (o_nodeId o) (set_node_input (o_fieldPath o) (o_value o) nd) p).
      assert (Hk : dict_keys p1 = dict_keys p)
        by (eapply dict_keys_set_same; exact Eg).
      destruct (IH p1 (dict_set (override_key o) (o_value o) iv)) as (H1 & H2 & H3).
      rewrite Hk in H1, H2. split; [|split].
      * rewrite H1. split.
        -- intros H o' [<- | Hin]; [eapply dict_get_in_keys; exact Eg | now apply H].
        -- intros H o' Hin. apply H. now right.
      * intros why Hw. destruct (H2 why Hw) as (o' & Hin & Hrest).
        exists o'. split; [now right | exact Hrest].
      * intros p' iv' H. destruct (H3 p' iv' H) as [Hk' Hp]. split; [congruence|].
        intros Hd. rewrite Hp by (intros o' Hin; apply Hd; now right).
        unfold apply_inputs. cbn [map fold_left]. f_equal.
        unfold override. cbn [fst snd]. unfold override_key.
        rewrite split_dot_key by (apply Hd; now left).
        now rewrite Eg.
    + split; [|split].
      * split; [intros [r H]; discriminate|]. intros H. exfalso.
        apply (not_in_keys _ _ Eg). apply H. now left.
      * intros why H. injection H as <-. exists o. split; [now left|].
        split; [now apply not_in_keys | reflexivity].
      * discriminate.
Qed.

Lemma workflow_run_overrides_witness :
  exists o,
    In o [mkOverride "1" "image" (JStr "cat.png"); mkOverride "9" "x" JNull]
    /\ ~ In (o_nodeId o) (dict_keys image_graph)
    /\ NotFound "9" = NotFound (o_nodeId o).
Proof.
  exact (proj1 (proj2 (workflow_run_overrides
                         [mkOverride "1" "image" (JStr "cat.png");
                          mkOverride "9" "x" JNull] image_graph []))
           (NotFound "9") eq_refl).
Defined.

(** X29. The current values of the primary inputs that [workflow_run]
    and [template_run] record with a run never replace an input of the
    run: every key the inputs had keeps its value; a key that is added is
    [nodeId.fieldPath] of a primary input with that current value, and
    that value is not [None]. *)
Theorem defaults_never_replace_inputs (nodes : list input_node)
    (input_values : dict json) :
  (forall k v, dict_get k input_values = Some v ->
               dict_get k (capture_primary nodes input_values) = Some v)
  /\ (forall k v, dict_get k (capture_primary nodes input_values) = Some v ->
        dict_get k input_values = Some v
        \/ (dict_get k input_values = None /\ v <> JNull
            /\ exists node, In node nodes
                 /\ nodeId node ++ "." ++ fieldPath node = k
                 /\ currentValue node = v)).
Proof.
  unfold capture_primary. revert input_values.
  induction nodes as [|node nodes IH]; intros iv; cbn [fold_left].
  - split; [auto | intros k v H; now left].
  - set (key := nodeId node ++ "." ++ fieldPath node).
    destruct (dict_get key iv) as [old|] eqn:Eg.
    + destruct (IH iv) as [H1 H2]. split; [exact H1|].
      intros k v H. destruct (H2 k v H) as [Hl | (Hn & Hv & nd & Hin & Hrest)];
        [now left|].
      right. split; [exact Hn|]. split; [exact Hv|]. exists nd. split; [now right | exact Hrest].
    + assert (Hstep : forall iv1,
                 (iv1 = iv \/ (currentValue node <> JNull
                               /\ iv1 = dict_set key (currentValue node) iv)) ->
                 (forall k v, dict_get k iv = Some v ->
                    dict_get k (fold_left
                      (fun iv0 node0 =>
                         match dict_get (nodeId node0 ++ "." ++ fieldPath node0) iv0,
                               currentValue node0 with
                         | Some _, _ => iv0
                         | None, JNull => iv0
                         | None, v0 => dict_set (nodeId node0 ++ "." ++ fieldPath node0) v0 iv0
                         end) nodes iv1) = Some v)
                 /\ (forall k v,
                       dict_get k (fold_left
                         (fun iv0 node0 =>
                            match dict_get (nodeId node0 ++ "." ++ fieldPath node0) iv0,
                                  currentValue node0 with
                            | Some _, _ => iv0
                            | None, JNull => iv0
                            | None, v0 => dict_set (nodeId node0 ++ "." ++ fieldPath node0) v0 iv0
                            end) nodes iv1) = Some v ->
                       dict_get k iv = Some v
                       \/ (dict_get k iv = None /\ v <> JNull
                           /\ exists nd, In nd (node :: nodes)
                                /\ nodeId nd ++ "." ++ fieldPath nd = k
                                /\ currentValue nd = v))).
      { intros iv1 Hiv1. destruct (IH iv1) as [H1 H2]. split.
        - intros k v Hg. apply H1. destruct Hiv1 as [-> | [_ ->]]; [exact Hg|].
          rewrite dict_get_set_other; [exact Hg|]. intros <-. congruence.
        - intros k v Hg. destruct (H2 k v Hg) as [Hl | (Hn & Hv & nd & Hin & Hrest)].
          + destruct Hiv1 as [-> | [Hnn ->]]; [now left|].
            destruct (string_dec key k) as [<- | Hne].
            * rewrite dict_get_set_same in Hl. injection Hl as <-.
              right. split; [exact Eg|]. split; [exact Hnn|].
              exists node. split; [now left | split; reflexivity].
            * rewrite dict_get_set_other in Hl by exact Hne. now left.
          + destruct Hiv1 as [-> | [Hnn ->]].
            * right. split; [exact Hn|]. split; [exact Hv|].
              exists nd. split; [now right | exact Hrest].
            * destruct (string_dec key k) as [<- | Hne].
              -- rewrite dict_get_set_same in Hn. discriminate.
              -- rewrite dict_get_set_other in Hn by exact Hne.
                 right. split; [exact Hn|]. split; [exact Hv|].
                 exists nd. split; [now right | exact Hrest]. }
      destruct (currentValue node) eqn:Ec;
        (apply Hstep; first [now left | right; split; [discriminate | reflexivity]]).
Qed.

Lemma defaults_never_replace_inputs_witness :
  dict_get "1.image" (capture_primary [image_default] [("1.image", JStr "cat.png")])
  = Some (JStr "cat.png").
Proof.
  exact (proj1 (defaults_never_replace_inputs
                  [image_default] [("1.image", JStr "cat.png")])
           "1.image" (JStr "cat.png") eq_refl).
Defined.

End CliInputs.

(** ** The dashboard's output type *)

Section DashboardTypes.

Import Executor Dashboard.
Open Scope string_scope.
Open Scope list_scope.

Lemma rfind_from_app (c : ascii) (a b : list ascii) :
  forall (i found : Z),
    rfind_from i c (a ++ b) found
    = rfind_from (i + Z.of_nat (List.length a)) c b (rfind_from i c a found).
Proof.
  induction a as [|x a IH]; intros i found; cbn [app rfind_from List.length].
  - now rewrite Z.add_0_r.
  - rewrite IH. f_equal. lia.
Qed.

Lemma rfind_from_notin (c : ascii) (l : list ascii) :
  ~ In c l -> forall i found, rfind_from i c l found = found.
Proof.
  induction l as [|x l IH]; intros Hn i found; cbn [rfind_from]; [reflexivity|].
  cbn [In] in Hn. rewrite IH by tauto.
  destruct (Ascii.eqb_spec x c) as [->|_]; [tauto | reflexivity].
Qed.

Lemma rfind_from_range (c : ascii) (l : list ascii) :
  forall i found,
    rfind_from i c l found = found
    \/ (i <= rfind_from i c l found < i + Z.of_nat (List.length l))%Z.
Proof.
  induction l as [|x l IH]; intros i found; cbn [rfind_from List.length];
    [now left|].
  destruct (IH (i + 1)%Z (if Ascii.eqb x c then i else found)) as [-> | H].
  - destruct (Ascii.eqb x c); [right; lia | now left].
  - right. lia.
Qed.

Lemma rfind_from_in (c : ascii) (l : list ascii) :
  In c l -> forall i found, (i <= rfind_from i c l found)%Z.
Proof.
  induction l as [|x l IH]; intros Hin i found; [contradiction|].
  cbn [rfind_from].
  destruct (in_dec ascii_dec c l) as [Hl|Hl].
  - specialize (IH Hl (i + 1)%Z (if Ascii.eqb x c then i else found)). lia.
  - rewrite rfind_from_notin by exact Hl.
    destruct Hin as [-> | Hin]; [|contradiction].
    rewrite Ascii.eqb_refl. lia.
Qed.

Lemma last_occurrence (c : ascii) (l : list ascii) :
  In c l -> exists a b, l = a ++ c :: b /\ ~ In c b.
Proof.
  induction l as [|x l IH]; intros Hin; [contradiction|].
  destruct (in_dec ascii_dec c l) as [Hl|Hl].
  - destruct (IH Hl) as (a & b & -> & Hb). now exists (x :: a), b.
  - destruct Hin as [-> | Hin]; [|contradiction]. now exists [], l.
Qed.

(** The position of the last [c]. *)
Lemma rfind_last (c : ascii) (a b : list ascii) :
  ~ In c b -> rfind c (a ++ c :: b) = Z.of_nat (List.length a).
Proof.
  intros Hb. unfold rfind. rewrite rfind_from_app. cbn [rfind_from].
  rewrite Ascii.eqb_refl. now rewrite rfind_from_notin.
Qed.

(** A path that ends with a dot and an extension free of dots and
    slashes, after a name that holds a character other than a dot. *)
Lemma splitext_with_ext (a b e : list ascii) (x : ascii) :
  x <> "."%char -> x <> "/"%char -> ~ In "/"%char b ->
  ~ In "."%char e -> ~ In "/"%char e ->
  splitext (string_of_list_ascii ((a ++ x :: b) ++ "."%char :: e))
  = (string_of_list_ascii (a ++ x :: b), string_of_list_ascii ("."%char :: e)).
Proof.
  intros Hxd Hxs Hb Hed Hes. unfold splitext.
  rewrite list_ascii_of_string_of_list_ascii.
  set (stem := a ++ x :: b).
  assert (Hdot : rfind "." (stem ++ "."%char :: e) = Z.of_nat (List.length stem))
    by (now apply rfind_last).
  assert (Hsep : rfind "/" (stem ++ "."%char :: e) = rfind "/" a).
  { unfold rfind, stem. rewrite !rfind_from_app. cbn [rfind_from].
    replace (Ascii.eqb "." "/") with false by reflexivity.
    replace (Ascii.eqb x "/") with false
      by (symmetry; now apply Ascii.eqb_neq).
    now rewrite (rfind_from_notin "/" e Hes), (rfind_from_notin "/" b Hb). }
  assert (Hlt : (-1 <= rfind "/" a < Z.of_nat (List.length a))%Z).
  { unfold rfind. destruct (rfind_from_range "/" a 0 (-1)) as [-> | H]; lia. }
  assert (Hlen : List.length stem = (List.length a + S (List.length b))%nat)
    by (unfold stem; rewrite length_app; reflexivity).
  rewrite Hdot, Hsep.
  replace (rfind "/" a <? Z.of_nat (List.length stem))%Z with true
    by (symmetry; apply Z.ltb_lt; lia).
  assert (Hex : existsb (fun c => negb (Ascii.eqb c "."))
                  (slice (rfind "/" a + 1) (Z.of_nat (List.length stem))
                     (stem ++ "."%char :: e)) = true).
  { apply existsb_exists. exists x. split.
    - unfold slice.
      set (n := Z.to_nat (rfind "/" a + 1)).
      assert (Hn : (n <= List.length a)%nat) by (unfold n; lia).
      replace (Z.to_nat (Z.of_nat (List.length stem) - (rfind "/" a + 1)))
        with ((List.length a - n) + S (List.length b))%nat by (unfold n; lia).
      unfold stem. rewrite <- !app_assoc. rewrite skipn_app.
      replace (n - List.length a)%nat with 0%nat by lia. cbn [skipn].
      rewrite firstn_app, length_skipn.
      replace (List.length a - n + S (List.length b) - (List.length a - n))%nat
        with (S (List.length b)) by lia.
      apply in_or_app. right. cbn [app firstn]. now left.
    - apply negb_true_iff. now apply Ascii.eqb_neq. }
  rewrite Hex. cbn [andb]. rewrite Nat2Z.id.
  rewrite firstn_app, Nat.sub_diag, firstn_all. cbn [firstn]. rewrite app_nil_r.
  rewrite skipn_app, Nat.sub_diag, skipn_all. reflexivity.
Qed.

(** The extension [splitext] returns is empty, or a dot followed by
    characters that are neither dots nor slashes. *)
Lemma splitext_ext_form (p : string) :
  snd (splitext p) = ""%string
  \/ exists e, snd (splitext p) = string_of_list_ascii ("."%char :: e)
               /\ ~ In "."%char e /\ ~ In "/"%char e.
Proof.
  unfold splitext. set (l := list_ascii_of_string p).
  destruct (Z.ltb_spec (rfind "/" l) (rfind "." l)) as [Hlt|]; [|now left].
  destruct (existsb _ _); [|now left]. cbn [andb snd]. right.
  assert (Hin : In "."%char l).
  { destruct (in_dec ascii_dec "."%char l) as [H|H]; [exact H|]. exfalso.
    unfold rfind in Hlt. rewrite (rfind_from_notin "." l H) in Hlt.
    destruct (rfind_from_range "/" l 0 (-1)) as [E | E]; lia. }
  destruct (last_occurrence "." l Hin) as (a & b & Hl & Hb).
  rewrite Hl in *. rewrite (rfind_last "." a b Hb) in *.
  rewrite Nat2Z.id, skipn_app, Nat.sub_diag, skipn_all. cbn [skipn app].
  exists b. split; [reflexivity|]. split; [exact Hb|].
  intros Hs. unfold rfind in Hlt. rewrite rfind_from_app in Hlt.
  cbn [rfind_from] in Hlt.
  pose proof (rfind_from_in "/" b Hs (0 + Z.of_nat (List.length a) + 1)%Z
                (if Ascii.eqb "." "/" then (0 + Z.of_nat (List.length a))%Z
                 else rfind_from 0 "/" a (-1))) as H.
  lia.
Qed.

Lemma lower_ascii_facts (c : ascii) :
  (lower_ascii c = "."%char -> c = "."%char)
  /\ (lower_ascii c = "/"%char -> c = "/"%char)
  /\ lower_ascii (lower_ascii c) = lower_ascii c.
Proof.
  destruct c as [[] [] [] [] [] [] [] []]; vm_compute;
    (split; [|split]); intros; congruence.
Qed.

Lemma list_of_lower (s : string) :
  list_ascii_of_string (lower s) = map lower_ascii (list_ascii_of_string s).
Proof.
  unfold lower. apply list_ascii_of_string_of_list_ascii.
Qed.

Lemma lower_twice (s : string) : lower (lower s) = lower s.
Proof.
  apply list_of_string_inj. rewrite !list_of_lower, map_map.
  apply map_ext. intros c. apply lower_ascii_facts.
Qed.

(** The extension of the stored file: a dot, then neither dots nor
    slashes, already in lower case. *)
Lemma stored_ext_form (filename : string) :
  lower (stored_ext filename) = stored_ext filename
  /\ exists e, stored_ext filename = string_of_list_ascii ("."%char :: e)
               /\ ~ In "."%char e /\ ~ In "/"%char e.
Proof.
  unfold stored_ext.
  destruct (String.eqb_spec (lower (snd (splitext filename))) "") as [_|Hne].
  - split; [reflexivity|]. exists ["p"; "n"; "g"]%char.
    split; [reflexivity|]. split; cbn; intuition discriminate.
  - split; [apply lower_twice|].
    destruct (splitext_ext_form filename) as [E | (e & E & Hd & Hs)].
    + rewrite E in Hne. now elim Hne.
    + exists (map lower_ascii e). rewrite E. split.
      * apply list_of_string_inj.
        rewrite list_of_lower, !list_ascii_of_string_of_list_ascii. reflexivity.
      * split; intros H; apply in_map_iff in H; destruct H as (c & Hc & Hin).
        -- apply lower_ascii_facts in Hc. subst c. contradiction.
        -- apply lower_ascii_facts in Hc. subst c. contradiction.
Qed.

Lemma path_join_suffix (a t rest : string) :
  (forall r, rest <> String "/" r) ->
  exists pre, path_join a (t ++ rest)%string = (pre ++ rest)%string.
Proof.
  intros Hrest. unfold path_join.
  assert (Hassoc : forall x y z : string,
             (x ++ (y ++ z))%string = ((x ++ y) ++ z)%string).
  { intros x y z. induction x as [|c x IH]; cbn; [reflexivity | now rewrite IH]. }
  assert (Hplain : exists pre,
             match rev (list_ascii_of_string a) with
             | [] => (a ++ (t ++ rest))%string
             | "/"%char :: _ => (a ++ (t ++ rest))%string
             | _ => (a ++ "/" ++ (t ++ rest))%string
             end = (pre ++ rest)%string).
  { destruct (rev (list_ascii_of_string a)) as [|c r].
    - exists (a ++ t)%string. apply Hassoc.
    - destruct (Ascii.eqb_spec c "/") as [->|Hc].
      + exists (a ++ t)%string. apply Hassoc.
      + exists (a ++ "/" ++ t)%string.
        replace (match c with
                 | "/"%char => (a ++ (t ++ rest))%string
                 | _ => (a ++ "/" ++ (t ++ rest))%string
                 end) with (a ++ "/" ++ (t ++ rest))%string.
        * rewrite (Hassoc "/"%string t rest). apply Hassoc.
        * destruct c as [[] [] [] [] [] [] [] []]; try reflexivity. now elim Hc. }
  destruct (t ++ rest)%string as [|c0 s0] eqn:E; [exact Hplain|].
  destruct (Ascii.eqb_spec c0 "/") as [->|Hc0].
  - exists t. destruct t as [|ct t'].
    + cbn in E. exfalso. exact (Hrest s0 E).
    + symmetry. exact E.
  - destruct Hplain as (pre & Hpre). exists pre. rewrite <- Hpre.
    destruct c0 as [[] [] [] [] [] [] [] []]; try reflexivity. now elim Hc0.
Qed.

(** The stored file has the extension [stored_ext] gives it. *)
Lemma stored_path_ext (wf_dir timestamp prompt_id filename : string) :
  snd (splitext (stored_path wf_dir timestamp prompt_id filename))
  = stored_ext filename.
Proof.
  destruct (stored_ext_form filename) as (_ & e & He & Hd & Hs).
  unfold stored_path. rewrite He.
  destruct (path_join_suffix wf_dir timestamp
              ("-" ++ replace_char "/" "-" prompt_id
               ++ string_of_list_ascii ("."%char :: e))%string) as (pre & ->).
  { intros r. discriminate. }
  set (safe := map (fun c => if Ascii.eqb c "/" then "-"%char else c)
                   (list_ascii_of_string prompt_id)).
  assert (Hsafe : ~ In "/"%char safe).
  { unfold safe. intros H. apply in_map_iff in H. destruct H as (c & Hc & _).
    destruct (Ascii.eqb_spec c "/"); [discriminate | congruence]. }
  replace (pre ++ "-" ++ replace_char "/" "-" prompt_id
           ++ string_of_list_ascii ("."%char :: e))%string
    with (string_of_list_ascii
            ((list_ascii_of_string pre ++ "-"%char :: safe) ++ "."%char :: e)).
  - rewrite splitext_with_ext; [reflexivity|discriminate|discriminate| | |];
      assumption.
  - apply list_of_string_inj. rewrite list_ascii_of_string_of_list_ascii.
    rewrite list_of_append. cbn [append list_ascii_of_string].
    rewrite list_of_append. unfold replace_char.
    rewrite !list_ascii_of_string_of_list_ascii. fold safe.
    rewrite <- app_assoc. reflexivity.
Qed.

(** X30. The type the dashboard records for an output and the type the
    executor reports for the same file. [_process_outputs] stores the
    file under its lower-cased extension, [.png] when it has none, and
    applies [_infer_output_type] to the stored path. The two types are
    the same exactly when the lower-cased extension is empty or one of
    [.png], [.jpg], [.jpeg], [.webp], [.mp4] and [.gif]. For every other
    file the executor reports [image/png], while the dashboard records
    [audio/wav] for [.wav] and [application/octet-stream] for the
    rest. *)
Theorem dashboard_and_executor_types
    (wf_dir timestamp prompt_id filename : string) :
  let ext := lower (snd (splitext filename)) in
  let stored := stored_type wf_dir timestamp prompt_id filename in
  snd (splitext (stored_path wf_dir timestamp prompt_id filename))
  = (if String.eqb ext "" then ".png" else ext)%string
  /\ (stored = output_type filename
      <-> In ext [""; ".png"; ".jpg"; ".jpeg"; ".webp"; ".mp4"; ".gif"]%string)
  /\ (stored = output_type filename
      \/ (output_type filename = "image/png"%string
          /\ ((ext = ".wav"%string /\ stored = "audio/wav"%string)
              \/ (ext <> ".wav"%string
                  /\ stored = "application/octet-stream"%string)))).
Proof.
  intros ext stored.
  split; [apply stored_path_ext|].
  unfold stored, stored_type, _infer_output_type.
  rewrite stored_path_ext. rewrite (proj1 (stored_ext_form filename)).
  unfold stored_ext, output_type. fold ext.
  generalize ext. clear. intros e.
  destruct (String.eqb_spec e "") as [->|H0];
    [cbn; split; [split; auto | now left]|].
  destruct (String.eqb_spec e ".png") as [->|H1];
    [cbn; split; [split; auto | now left]|].
  destruct (String.eqb_spec e ".jpg") as [->|H2];
    [cbn; split; [split; auto | now left]|].
  destruct (String.eqb_spec e ".jpeg") as [->|H3];
    [cbn; split; [split; auto 7 | now left]|].
  destruct (String.eqb_spec e ".webp") as [->|H4];
    [cbn; split; [split; auto 7 | now left]|].
  destruct (String.eqb_spec e ".mp4") as [->|H5];
    [cbn; split; [split; auto 8 | now left]|].
  destruct (String.eqb_spec e ".wav") as [->|H6].
  - cbn. split.
    + split; [discriminate | intuition discriminate].
    + right. split; [reflexivity|]. left. split; reflexivity.
  - destruct (String.eqb_spec e ".gif") as [->|H7];
      [cbn; split; [split; auto 9 | now left]|].
    cbn [orb]. split.
    + split; [discriminate|]. cbn [In]. intuition congruence.
    + right. split; [reflexivity|]. right. split; [exact H6 | reflexivity].
Qed.

End DashboardTypes.
